(** * idc-node: the simulated telemetry store and the pointer interaction
    of the 3D data centre view

    Shallow embedding of [src/ServerStatus.ts] (class [ServerStatus]) and of
    the interaction part of [src/DataCenter.ts] (class [DataCenter]:
    the scene built by the constructor, [update], [handleMouseMove],
    [handleClick]).

    Conventions.
    - A JavaScript [number] is a binary64 value.  Every metric this program
      computes is finite, so a number is modelled by the rational it
      denotes and every arithmetic operation returns the rounding [rnd] of
      its exact result.  [rnd] is a parameter: [round64] is IEEE 754
      round-to-nearest-even, [exact] is arithmetic without rounding.
      Comparisons, [Math.max] and [Math.min] do not round.
    - [Math.random()] is the stream [rand : nat -> Q]; the number of calls
      made so far is threaded through the functions that draw from it.
    - A JavaScript [Map] keeps insertion order: it is an association list.
    - Object references are paths in the scene graph; the mutable part of
      a three.js object that the handlers write (its material) lives in
      a store keyed by the reference.
    - Of three.js, which is not part of the sources, the model keeps the
      scene graph ([add], [parent], [children], [traverse], [instanceof]
      for meshes and groups) and the contract of the ray caster: the
      objects tested, nearest first.  The geometry is a parameter, the
      list [ray]; so is the value of [recursive] where a call leaves it
      out.
    - The page is taken to hold the element with the id [info], which the
      three [show...] methods render into. *)

From Stdlib Require Import QArith Qround Qminmax Qpower Qabs ZArith List String.
From Stdlib Require Import Lia Lqa DecimalString Permutation Bool.
From Stdlib Require Floats.
From stdpp Require Import gmap strings list.
Import ListNotations.

Local Open Scope Q_scope.

(** ** Numbers *)

Module Num.

(** floor (log2 q), for 0 < q *)
Definition ilog2 (q : Q) : Z :=
  if Qle_bool 1 q then Z.log2 (Qfloor q) else (- Z.log2_up (Qceiling (/ q)))%Z.

(** nearest integer, ties to the even one *)
Definition round_even (q : Q) : Z :=
  let f := Qfloor q in
  match Qcompare (q - inject_Z f) (1 # 2) with
  | Lt => f
  | Gt => (f + 1)%Z
  | Eq => if Z.even f then f else (f + 1)%Z
  end.

(** binary64 exponent of the unit in the last place of a positive [q]:
    53 significant bits, smallest exponent -1074 (subnormals) *)
Definition ulp_exp (q : Q) : Z := Z.max (ilog2 q - 52) (-1074).

Definition round_pos (q : Q) : Q :=
  let e := ulp_exp q in
  inject_Z (round_even (q * 2 ^ (- e))) * 2 ^ e.

(** IEEE 754 binary64 round-to-nearest, ties-to-even, on the rationals
    (no overflow to infinity: no value of this program comes near 2^1024) *)
Definition round64 (q : Q) : Q :=
  match Qnum q with
  | Z0 => 0
  | Zpos _ => round_pos q
  | Zneg _ => - round_pos (- q)
  end.

Definition exact (q : Q) : Q := q.

(** What the proofs need of a rounding: it is monotone and it leaves the
    small half-integers (the constants of the program) unchanged. *)
Record Rounding (rnd : Q -> Q) : Prop := {
  rnd_mono : forall a b, a <= b -> rnd a <= rnd b;
  rnd_half : forall z : Z, (-200 <= z <= 200)%Z -> rnd (z # 2) == z # 2
}.

(** [a > b] *)
Definition gt (a b : Q) : bool := negb (Qle_bool a b).

End Num.

(** The binary64 numbers of the kernel, to compare [Num.round64] with: the
    three expressions of [initializeServers] on kernel floats. *)
Module Float64.
Import Floats.

(** the rational a finite binary64 value denotes *)
Definition Q_of_float (f : float) : Q :=
  match Prim2SF f with
  | S754_finite s m e => (if s then -1 else 1) * inject_Z (Zpos m) * 2 ^ e
  | _ => 0
  end.

(** the largest binary64 value below 1, 1 - 2^-53 *)
Definition below_one : float := 0x1.fffffffffffffp-1%float.

(** the one before it, 1 - 2^-52 *)
Definition below_below_one : float := 0x1.ffffffffffffep-1%float.

Definition initial_temperature (r : float) : float := (r * 20 + 25)%float.
Definition initial_cpuUsage (r : float) : float := (r * 60 + 20)%float.
Definition initial_memoryUsage (r : float) : float := (r * 50 + 30)%float.

End Float64.

(** ** ServerStatus.ts *)

Module ServerStatus.
Import Num.

(** [status: 'normal' | 'warning' | 'error'] *)
Inductive Status : Set := normal | warning | error.

(** [interface ServerData] *)
Record ServerData : Type := {
  sd_id : string;
  temperature : Q;
  cpuUsage : Q;
  memoryUsage : Q;
  status : Status
}.

(** [Map<string, ServerData>], in insertion order *)
Abbreviation ServerMap := (list (string * ServerData)).

(** [Map.prototype.get] *)
Fixpoint Map_get {V : Type} (k : string) (m : list (string * V)) : option V :=
  match m with
  | [] => None
  | (k', v) :: tl => if String.eqb k k' then Some v else Map_get k tl
  end.

(** [Map.prototype.set]: an existing key keeps its place, a new one is
    appended *)
Fixpoint Map_set {V : Type} (k : string) (v : V) (m : list (string * V))
  : list (string * V) :=
  match m with
  | [] => [(k, v)]
  | (k', v') :: tl =>
      if String.eqb k k' then (k, v) :: tl else (k', v') :: Map_set k v tl
  end.

(** decimal representation of a loop counter in a template literal *)
Definition show (n : nat) : string := NilZero.string_of_uint (Nat.to_uint n).

(** [`rack${rack}-server${server}`] *)
Definition server_id (rack server : nat) : string :=
  ("rack" ++ show rack ++ "-server" ++ show server)%string.

(** [for (let i = from; i < to; i++) body], on a threaded state *)
Definition for_loop {S : Type} (from to : nat) (body : nat -> S -> S) (s : S) : S :=
  fold_left (fun s i => body i s) (seq from (to - from)) s.

Section WithRandom.

(** rounding of the arithmetic, and the values [Math.random()] returns *)
Variable rnd : Q -> Q.
Variable rand : nat -> Q.

Definition add (a b : Q) : Q := rnd (a + b).
Definition sub (a b : Q) : Q := rnd (a - b).
Definition mul (a b : Q) : Q := rnd (a * b).

(** The state of the object and of the random source: the map, and the
    number of values drawn so far. *)
Record State : Type := { servers : ServerMap; drawn : nat }.

(** the object literal of [initializeServers]; its fields are evaluated in
    order, one draw each for the three metrics *)
Definition newServerData (id : string) (n : nat) : ServerData :=
  {| sd_id := id;
     temperature := add (mul (rand n) 20) 25;
     cpuUsage := add (mul (rand (1 + n)) 60) 20;
     memoryUsage := add (mul (rand (2 + n)) 50) 30;
     status := normal |}.

Definition initializeServers (this : State) : State :=
  for_loop 0 9 (fun rack this =>
    for_loop 0 5 (fun server this =>
      let id := server_id rack server in
      {| servers := Map_set id (newServerData id (drawn this)) (servers this);
         drawn := 3 + drawn this |}) this) this.

(** [constructor()] *)
Definition new_ServerStatus (n : nat) : State :=
  initializeServers {| servers := []; drawn := n |}.

(** the body of the [forEach] callback of [updateServerStatus], with the
    three values it draws *)
Definition updateServer (r1 r2 r3 : Q) (server : ServerData) : ServerData :=
  let temperature' := add (temperature server) (mul (sub r1 (1 # 2)) 2) in
  let temperature' := Qmax 25 (Qmin 45 temperature') in
  let cpuUsage' := add (cpuUsage server) (mul (sub r2 (1 # 2)) 10) in
  let cpuUsage' := Qmax 20 (Qmin 95 cpuUsage') in
  let memoryUsage' := add (memoryUsage server) (mul (sub r3 (1 # 2)) 5) in
  let memoryUsage' := Qmax 30 (Qmin 95 memoryUsage') in
  let status' :=
    if gt temperature' 42 || gt cpuUsage' 90 || gt memoryUsage' 90 then error
    else if gt temperature' 38 || gt cpuUsage' 75 || gt memoryUsage' 75 then warning
    else normal in
  {| sd_id := sd_id server;
     temperature := temperature';
     cpuUsage := cpuUsage';
     memoryUsage := memoryUsage';
     status := status' |}.

(** [this.servers.forEach(...)]: the entries in insertion order, each
    mutated in place *)
Fixpoint forEach_update (m : ServerMap) (n : nat) : ServerMap * nat :=
  match m with
  | [] => ([], n)
  | (k, server) :: tl =>
      let server' := updateServer (rand n) (rand (1 + n)) (rand (2 + n)) server in
      let (tl', n') := forEach_update tl (3 + n) in
      ((k, server') :: tl', n')
  end.

Definition updateServerStatus (this : State) : State :=
  let (m, n) := forEach_update (servers this) (drawn this) in
  {| servers := m; drawn := n |}.

(** [getServerData(id)]: the record, or [undefined] *)
Definition getServerData (id : string) (this : State) : option ServerData :=
  Map_get id (servers this).

Definition getAllServers (this : State) : ServerMap := servers this.

(** the store after [k] calls of [updateServerStatus] *)
Fixpoint ticks (k : nat) (this : State) : State :=
  match k with
  | O => this
  | S k => updateServerStatus (ticks k this)
  end.

End WithRandom.

(** The threshold table of the specification. *)
Definition threshold (t c m : Q) : Status :=
  if Qlt_le_dec 42 t then error else
  if Qlt_le_dec 90 c then error else
  if Qlt_le_dec 90 m then error else
  if Qlt_le_dec 38 t then warning else
  if Qlt_le_dec 75 c then warning else
  if Qlt_le_dec 75 m then warning else normal.

(** the ids of the nine racks of five servers, rack by rack *)
Definition all_ids : list string :=
  flat_map (fun rack => map (server_id rack) (seq 0 5)) (seq 0 9).

Definition status_consistent (s : ServerData) : Prop :=
  status s = threshold (temperature s) (cpuUsage s) (memoryUsage s).

Definition clamped (s : ServerData) : Prop :=
  25 <= temperature s <= 45 /\ 20 <= cpuUsage s <= 95 /\ 30 <= memoryUsage s <= 95.

(** the closed ranges of the values [initializeServers] computes *)
Definition initial_ranges (s : ServerData) : Prop :=
  25 <= temperature s <= 45 /\ 20 <= cpuUsage s <= 80 /\ 30 <= memoryUsage s <= 80.

(** the half-open ranges the specification gives for the initial metrics *)
Definition initial_ranges_open (s : ServerData) : Prop :=
  25 <= temperature s < 45 /\ 20 <= cpuUsage s < 80 /\ 30 <= memoryUsage s < 80.

(** the largest binary64 value below 1 *)
Definition below_one : Q := 9007199254740991 # 9007199254740992.


(** the 45 entries [initializeServers] makes, in order: entry [i] is
    computed from the draws [n + 3i], [n + 3i + 1], [n + 3i + 2] *)
Definition initialEntries (rnd : Q -> Q) (rand : nat -> Q) (n : nat) : ServerMap :=
  map (fun i : nat =>
         let id := server_id (i / 5) (i mod 5) in
         (id, newServerData rnd rand id (3 * i + n)))
      (seq 0 45).




End ServerStatus.

(** ** The part of three.js the interaction code relies on *)

Module Three.

(** the classes [instanceof] tells apart *)
Inductive Class : Set := Mesh | Group | LineSegments.

(** the [userData] fields this program writes; an absent field is
    [None] (or [false] for the flag, which is only tested for truth) *)
Record UserData : Type := {
  ud_id : option string;
  ud_brand : option string;
  ud_isRackCase : bool;
  ud_rackIndex : option nat;
  ud_type : option string
}.

Definition noUserData : UserData :=
  {| ud_id := None; ud_brand := None; ud_isRackCase := false;
     ud_rackIndex := None; ud_type := None |}.

(** the material properties this program reads or writes *)
Record Material : Type := {
  color : Z;
  opacity : Q;
  wireframe : bool;
  uniform_temperature : Q
}.

(** an object with the material it is created with and its children, in
    the order of the [add] calls *)
#[local] Unset Elimination Schemes.
Inductive Object3D : Type :=
  Object (class : Class) (userData : UserData) (material : option Material)
         (children : list Object3D).
#[local] Set Elimination Schemes.

Definition class_of (o : Object3D) : Class := let (c, _, _, _) := o in c.
Definition userData (o : Object3D) : UserData := let (_, u, _, _) := o in u.
Definition material (o : Object3D) : option Material := let (_, _, m, _) := o in m.
Definition children (o : Object3D) : list Object3D := let (_, _, _, cs) := o in cs.

(** A reference to an object of a graph: the child indices from the
    object up to the root, so that the parent is the tail. *)
Abbreviation Ref := (list nat).

Definition parent (r : Ref) : option Ref :=
  match r with
  | [] => None
  | _ :: p => Some p
  end.

Fixpoint descend (o : Object3D) (path : list nat) : option Object3D :=
  match path with
  | [] => Some o
  | i :: path =>
      match nth_error (children o) i with
      | Some c => descend c path
      | None => None
      end
  end.

(** the object a reference denotes *)
Definition deref (root : Object3D) (r : Ref) : option Object3D :=
  descend root (rev r).

(** [Object3D.traverse]: the object, then its children in order; the
    result lists what the callback pushes *)
Fixpoint traverse {A : Type} (callback : Ref -> Object3D -> list A)
    (r : Ref) (o : Object3D) : list A :=
  match o with
  | Object _ _ _ cs =>
      callback r o ++
      (fix each (i : nat) (cs : list Object3D) : list A :=
         match cs with
         | [] => []
         | c :: cs => traverse callback (i :: r) c ++ each (S i) cs
         end) 0%nat cs
  end.

Definition Ref_eqb (a b : Ref) : bool := bool_decide (a = b).

(** the test of a template-literal or string value for truth *)
Definition truthy (s : option string) : bool :=
  match s with
  | Some s => negb (String.eqb s "")
  | None => false
  end.

(** the object and all its descendants *)
Definition subtree (root : Object3D) (o : Ref) : list Ref :=
  match deref root o with
  | Some obj => traverse (fun r _ => [r]) o obj
  | None => []
  end.

(** the objects [intersectObjects] tests against the ray *)
Definition tested (root : Object3D) (objects : list Ref) (recursive : bool)
  : list Ref :=
  if recursive then flat_map (subtree root) objects else objects.

(** [Raycaster.intersectObjects(objects, recursive)].  The geometry is
    abstracted by [ray]: the objects of the graph that the ray pierces,
    nearest first.  The result keeps those that are tested: [objects] and,
    when [recursive], their descendants. *)
Definition intersectObjects (root : Object3D) (ray : list Ref)
    (objects : list Ref) (recursive : bool) : list Ref :=
  List.filter (fun hit : Ref => existsb (Ref_eqb hit) (tested root objects recursive))
              ray.

End Three.

(** ** DataCenter.ts *)

Module DataCenter.
Import Num Three.
Import ServerStatus(ServerData, Status, normal, warning, error, Map_get, Map_set,
                    show, server_id, for_loop, all_ids).

(** what the [#info] element shows; the markup, the number formatting and
    the colours of the text are left out *)
Inductive View : Type :=
| DefaultInfo
| RackInfo (rackIndex : option nat) (serverList : list (string * string * ServerData))
| ServerInfo (brandName : string) (data : ServerData).

(** the fields of the object; [children] is the [THREE.Group] part,
    [materials] holds the current material of every object that has one,
    [info] is the content of the [#info] element once it was rendered *)
Record DataCenter : Type := {
  serverStatus : ServerStatus.State;
  servers : list (string * Ref);
  racks : list (nat * Ref);
  selectedServer : option Ref;
  hoveredRack : option Ref;
  hoveredServer : option Ref;
  children : list Object3D;
  materials : gmap Ref Material;
  info : option View
}.

Definition set_serverStatus (v : ServerStatus.State) (this : DataCenter) :=
  {| serverStatus := v; servers := servers this; racks := racks this;
     selectedServer := selectedServer this; hoveredRack := hoveredRack this;
     hoveredServer := hoveredServer this; children := children this;
     materials := materials this; info := info this |}.
Definition set_selectedServer (v : option Ref) (this : DataCenter) :=
  {| serverStatus := serverStatus this; servers := servers this; racks := racks this;
     selectedServer := v; hoveredRack := hoveredRack this;
     hoveredServer := hoveredServer this; children := children this;
     materials := materials this; info := info this |}.
Definition set_hoveredRack (v : option Ref) (this : DataCenter) :=
  {| serverStatus := serverStatus this; servers := servers this; racks := racks this;
     selectedServer := selectedServer this; hoveredRack := v;
     hoveredServer := hoveredServer this; children := children this;
     materials := materials this; info := info this |}.
Definition set_hoveredServer (v : option Ref) (this : DataCenter) :=
  {| serverStatus := serverStatus this; servers := servers this; racks := racks this;
     selectedServer := selectedServer this; hoveredRack := hoveredRack this;
     hoveredServer := v; children := children this;
     materials := materials this; info := info this |}.
Definition set_materials (v : gmap Ref Material) (this : DataCenter) :=
  {| serverStatus := serverStatus this; servers := servers this; racks := racks this;
     selectedServer := selectedServer this; hoveredRack := hoveredRack this;
     hoveredServer := hoveredServer this; children := children this;
     materials := v; info := info this |}.
Definition set_info (v : option View) (this : DataCenter) :=
  {| serverStatus := serverStatus this; servers := servers this; racks := racks this;
     selectedServer := selectedServer this; hoveredRack := hoveredRack this;
     hoveredServer := hoveredServer this; children := children this;
     materials := materials this; info := v |}.

(** *** Effects

    The handlers act on the scene by assigning material properties and on
    the page by rendering into [#info].  A command returns the new state
    and the assignments and renderings it performed, in order. *)

Inductive Assignment : Type :=
| SetOpacity (v : Q)
| SetWireframe (v : bool)
| SetColor (hex : Z)
| SetUniformTemperature (v : Q).

Inductive Effect : Type :=
| Write (object : Ref) (a : Assignment)
| Render (v : View).

Definition Cmd : Type := DataCenter -> DataCenter * list Effect.

Definition skip : Cmd := fun this => (this, []).

Definition andThen (a b : Cmd) : Cmd :=
  fun this =>
    let (this1, t1) := a this in
    let (this2, t2) := b this1 in
    (this2, t1 ++ t2).

(** a sequence of statements *)
Definition block (cs : list Cmd) : Cmd := fold_right andThen skip cs.

(** a field assignment that is not an effect on the scene *)
Definition assign (f : DataCenter -> DataCenter) : Cmd := fun this => (f this, []).

Definition assigned (a : Assignment) (m : Material) : Material :=
  match a with
  | SetOpacity v =>
      {| color := color m; opacity := v; wireframe := wireframe m;
         uniform_temperature := uniform_temperature m |}
  | SetWireframe v =>
      {| color := color m; opacity := opacity m; wireframe := v;
         uniform_temperature := uniform_temperature m |}
  | SetColor hex =>
      {| color := hex; opacity := opacity m; wireframe := wireframe m;
         uniform_temperature := uniform_temperature m |}
  | SetUniformTemperature v =>
      {| color := color m; opacity := opacity m; wireframe := wireframe m;
         uniform_temperature := v |}
  end.

(** [object.material.<property> = v] *)
Definition write (object : Ref) (a : Assignment) : Cmd :=
  fun this =>
    (set_materials (alter (assigned a) object (materials this)) this,
     [Write object a]).

(** [infoElement.innerHTML = ...] *)
Definition render (v : View) : Cmd :=
  fun this => (set_info (Some v) this, [Render v]).

(** *** The scene the constructor builds

    Positions and geometries are left out: the ray caster that uses them
    is abstracted (see [Three.intersectObjects]). *)

Definition newMaterial (color : Z) (opacity : Q) : option Material :=
  Some {| color := color; opacity := opacity; wireframe := false;
          uniform_temperature := 0 |}.

(** [serverBrands]: name and colour *)
Definition serverBrands : list (string * Z) :=
  [("DELL", 0x0085c3); ("HP", 0x0096d6); ("曙光", 0xff6b00);
   ("浪潮", 0x00a0e9); ("华为", 0xff0000)]%Z%string.

(** [infrastructureTypes]: type and colour *)
Definition infrastructureTypes : list (string * Z) :=
  [("network", 0x4287f5); ("power", 0xff4444); ("cooling", 0x42f5aa);
   ("fiber", 0xf542f5)]%Z%string.

(** [createHeatmapMaterial()] and its [clone()]s *)
Definition heatmapMaterial : option Material := newMaterial 0xffffff 1.

(** the objects [createFloor] adds: floor, grid helper, base *)
Definition createFloor : list Object3D :=
  [Object Mesh noUserData (newMaterial 0x444444 (8 # 10)) [];
   Object LineSegments noUserData None [];
   Object Mesh noUserData (newMaterial 0x222222 1) []].

(** the mesh [createPipe] adds *)
Definition createPipe (infrastructure : string * Z) (opacity : Q) : Object3D :=
  Object Mesh
    {| ud_id := None; ud_brand := None; ud_isRackCase := false;
       ud_rackIndex := None; ud_type := Some (fst infrastructure) |}
    (newMaterial (snd infrastructure) opacity) [].

(** three north-south and three east-west main lines, one pipe of each
    infrastructure type along each *)
Definition createMainInfrastructure : list Object3D :=
  flat_map (fun _ : nat => map (fun infra => createPipe infra 1) infrastructureTypes)
           (seq 0 3) ++
  flat_map (fun _ : nat => map (fun infra => createPipe infra 1) infrastructureTypes)
           (seq 0 3).

Definition racks_get (rackIndex : nat) (racks : list (nat * Ref)) : option Ref :=
  snd <$> find (fun e => Nat.eqb (fst e) rackIndex) racks.

(** two pipes per infrastructure type for every rack that [this.racks]
    holds when it is called *)
Definition createRackConnections (racks : list (nat * Ref)) : list Object3D :=
  flat_map (fun rackIndex =>
              match racks_get rackIndex racks with
              | Some _ =>
                  flat_map (fun infra =>
                              [createPipe infra (1 # 2); createPipe infra (1 # 2)])
                           infrastructureTypes
              | None => []
              end) (seq 0 9).

Definition createInfrastructure (racks : list (nat * Ref)) : list Object3D :=
  createMainInfrastructure ++ createRackConnections racks.

(** One server of [createRack]: the group holding the server mesh (whose
    only child is the indicator light), the brand panel, the text plane
    and the vents; and the entry of [this.servers].  [rackRef] is the
    reference the rack has once [createRacks] has added it. *)
Definition createServer (rackRef : Ref) (rackIndex i : nat)
  : Object3D * (string * Ref) :=
  let serverId := server_id rackIndex i in
  let brand := nth i serverBrands (""%string, 0%Z) in
  let light := Object Mesh noUserData (newMaterial 0x00ff00 1) [] in
  let server :=
    Object Mesh
      {| ud_id := Some serverId; ud_brand := Some (fst brand);
         ud_isRackCase := false; ud_rackIndex := None; ud_type := None |}
      heatmapMaterial [light] in
  let panel := Object Mesh noUserData (newMaterial (snd brand) 1) [] in
  let textPlane := Object Mesh noUserData (newMaterial 0xffffff (8 # 10)) [] in
  let vents := Object Mesh noUserData (newMaterial 0x222222 1) [] in
  let serverGroup := Object Group noUserData None [server; panel; textPlane; vents] in
  (serverGroup, (serverId, 0%nat :: (1 + i)%nat :: rackRef)).

(** [createRack(rackIndex)]: the rack group with its case and its five
    servers, and the entries it makes in [this.servers] *)
Definition createRack (rackRef : Ref) (rackIndex : nat)
  : Object3D * list (string * Ref) :=
  let rackMesh :=
    Object Mesh
      {| ud_id := None; ud_brand := None; ud_isRackCase := true;
         ud_rackIndex := None; ud_type := None |}
      (newMaterial 0x333333 1) [] in
  let serverCount := 5%nat in
  let built := map (createServer rackRef rackIndex) (seq 0 serverCount) in
  (Object Group
     {| ud_id := None; ud_brand := None; ud_isRackCase := false;
        ud_rackIndex := Some rackIndex; ud_type := None |}
     None (rackMesh :: map fst built),
   map snd built).

(** the object under construction: children, [servers] and [racks] *)
Definition Building : Type :=
  (list Object3D * list (string * Ref) * list (nat * Ref))%type.

(** [createRacks()]: nine racks, each created, recorded in [this.racks]
    and added *)
Definition createRacks (b : Building) : Building :=
  for_loop 0 9 (fun rackIndex (b : Building) =>
    let '(children, servers, racks) := b in
    let rackRef : Ref := [length children] in
    let (rack, entries) := createRack rackRef rackIndex in
    (children ++ [rack],
     fold_left (fun m e => Map_set (fst e) (snd e) m) entries servers,
     racks ++ [(rackIndex, rackRef)])) b.

(** the object itself, as the root of its graph *)
Definition rootOf (children : list Object3D) : Object3D :=
  Object Group noUserData None children.

Definition root (this : DataCenter) : Object3D := rootOf (children this).

(** what the constructor builds, whatever the random values: the
    children, [this.servers] and [this.racks] *)
Definition built : Building :=
  createRacks (createFloor ++ createInfrastructure [], [], []).

Definition sceneChildren : list Object3D := Eval vm_compute in fst (fst built).
Definition sceneServers : list (string * Ref) := Eval vm_compute in snd (fst built).
Definition sceneRacks : list (nat * Ref) := Eval vm_compute in snd built.
Definition sceneRoot : Object3D := rootOf sceneChildren.

Definition materialsOf (o : Object3D) : gmap Ref Material :=
  list_to_map
    (traverse (fun r o => match material o with
                          | Some m => [(r, m)]
                          | None => []
                          end) [] o).

Section WithRandom.

Variable rnd : Q -> Q.
Variable rand : nat -> Q.

(** [constructor()], when [n] random values were drawn before *)
Definition new_DataCenter (n : nat) : DataCenter :=
  let serverStatus := ServerStatus.new_ServerStatus rnd rand n in
  let children := createFloor in
  let children := children ++ createInfrastructure [] in
  let '(children, servers, racks) := createRacks (children, [], []) in
  {| serverStatus := serverStatus;
     servers := servers;
     racks := racks;
     selectedServer := None;
     hoveredRack := None;
     hoveredServer := None;
     children := children;
     materials := materialsOf (rootOf children);
     info := None |}.

(** [object.userData], for a reference into the graph *)
Definition userDataAt (root : Object3D) (r : Ref) : option UserData :=
  userData <$> deref root r.

(** [object.children] *)
Definition childrenAt (root : Object3D) (r : Ref) : list Object3D :=
  match deref root r with
  | Some o => Three.children o
  | None => []
  end.

(** [rack.userData.rackIndex] *)
Definition rackIndexOf (root : Object3D) (rack : option Ref) : option nat :=
  match rack ≫= userDataAt root with
  | Some u => ud_rackIndex u
  | None => None
  end.

(** [server?.userData.brand || fallback] *)
Definition brandOr (u : option UserData) (fallback : string) : string :=
  match u ≫= ud_brand with
  | Some b => if truthy (Some b) then b else fallback
  | None => fallback
  end.

(** [showServerInfo(data)] *)
Definition showServerInfo (data : ServerData) : Cmd :=
  fun this =>
    let server := Map_get (ServerStatus.sd_id data) (servers this) in
    let brandName := brandOr (server ≫= userDataAt (root this)) "未知品牌" in
    render (ServerInfo brandName data) this.

(** the value of [rackIndex] inside the template literal *)
Definition showIndex (rackIndex : option nat) : string :=
  match rackIndex with
  | Some n => show n
  | None => "undefined"%string
  end.

(** [showRackInfo(rackIndex)]: one row for each of the five slots that has
    a record *)
Definition showRackInfo (rackIndex : option nat) : Cmd :=
  fun this =>
    let serverList :=
      for_loop 0 5 (fun i serverList =>
        let serverId := ("rack" ++ showIndex rackIndex ++ "-server" ++ show i)%string in
        let server := Map_get serverId (servers this) in
        let brand := brandOr (server ≫= userDataAt (root this)) "未知品牌" in
        match ServerStatus.getServerData serverId (serverStatus this) with
        | Some data => serverList ++ [(brand, serverId, data)]
        | None => serverList
        end) [] in
    render (RackInfo rackIndex serverList) this.

Definition showDefaultInfo : Cmd := render DefaultInfo.

Definition isMesh (o : Object3D) : bool :=
  match class_of o with Mesh => true | _ => false end.
Definition isGroup (o : Object3D) : bool :=
  match class_of o with Group => true | _ => false end.

(** the index of the first element [Array.prototype.find] returns *)
Fixpoint findIndex {A : Type} (p : A -> bool) (l : list A) : option nat :=
  match l with
  | [] => None
  | x :: l => if p x then Some 0%nat else S <$> findIndex p l
  end.

(** [light.material.color.setHex] by [data.status], the [switch] of
    [update] *)
Definition statusHex (s : Status) : Z :=
  match s with
  | normal => 0x00ff00
  | warning => 0xffff00
  | error => 0xff0000
  end.

(** the callback of [this.servers.forEach] in [update] *)
Definition updateMesh (id : string) (serverMesh : Ref) : Cmd :=
  fun this =>
    match ServerStatus.getServerData id (serverStatus this) with
    | Some data =>
        block
          [ write serverMesh
              (SetUniformTemperature
                 (rnd (rnd (ServerStatus.temperature data - 20) / 30)));
            match nth_error (childrenAt (root this) serverMesh) 0 with
            | Some _ =>
                let light : Ref := 0%nat :: serverMesh in
                write light (SetColor (statusHex (ServerStatus.status data)))
            | None => skip
            end ] this
    | None => skip this
    end.

(** [update()] *)
Definition update : Cmd :=
  block
    [ assign (fun this =>
        set_serverStatus
          (ServerStatus.updateServerStatus rnd rand (serverStatus this)) this);
      fun this =>
        block (map (fun e => updateMesh (fst e) (snd e)) (servers this)) this ].

(** the objects [handleMouseMove] collects: meshes with an id or the rack
    case flag *)
Definition interactiveObjects (root : Object3D) : list Ref :=
  traverse (fun r child =>
              if isMesh child &&
                 (truthy (ud_id (userData child)) || ud_isRackCase (userData child))
              then [r] else []) [] root.

(** the objects [handleClick] collects: meshes with an id *)
Definition serverMeshes (root : Object3D) : list Ref :=
  traverse (fun r child =>
              if isMesh child && truthy (ud_id (userData child))
              then [r] else []) [] root.

(** The [while] loop of [handleMouseMove]: from [parent] upwards, until a
    rack group or the top; a mesh with an id, or a group whose id is in
    [this.servers], becomes the target.  Above the root is the scene of the
    application, which is neither a group nor a mesh, and nothing above
    that. *)
Fixpoint walk (root : Object3D) (servers : list (string * Ref))
    (targetObject : Ref) (parent : Ref) : Ref :=
  match deref root parent with
  | None => targetObject
  | Some o =>
      if isGroup o && bool_decide (is_Some (ud_rackIndex (userData o)))
      then targetObject
      else if isMesh o && truthy (ud_id (userData o)) then parent
      else
        match (if isGroup o && truthy (ud_id (userData o))
               then ud_id (userData o) ≫= (fun id : string => Map_get id servers)
               else None) with
        | Some serverMesh => serverMesh
        | None =>
            match parent with
            | [] => targetObject
            | _ :: grandparent => walk root servers targetObject grandparent
            end
        end
  end.

(** [targetObject] after the loop, for the first intersected object *)
Definition resolve (root : Object3D) (servers : list (string * Ref))
    (intersectedObject : Ref) : Ref :=
  match Three.parent intersectedObject with
  | Some parent => walk root servers intersectedObject parent
  | None => intersectedObject
  end.

(** the two restoring statements at the start of [handleMouseMove] *)
Definition restoreHoveredRack : Cmd :=
  fun this =>
    match hoveredRack this with
    | Some rack =>
        match findIndex (fun child => ud_isRackCase (userData child))
                        (childrenAt (root this) rack) with
        | Some i => write (i :: rack) (SetOpacity 1) this
        | None => skip this
        end
    | None => skip this
    end.

Definition restoreHoveredServer : Cmd :=
  fun this =>
    match hoveredServer this with
    | Some server =>
        if bool_decide (hoveredServer this ≠ selectedServer this)
        then write server (SetWireframe false) this
        else skip this
    | None => skip this
    end.

(** the rest of [handleMouseMove]: the pick, and what is done with the
    target *)
Definition hover (ray : list Ref) : Cmd :=
  fun this =>
    match intersectObjects (root this) ray
            (interactiveObjects (root this)) true with
    | intersectedObject :: _ =>
        let targetObject :=
          resolve (root this) (servers this) intersectedObject in
        match deref (root this) targetObject with
        | Some target =>
            if ud_isRackCase (userData target) then
              let rack := Three.parent targetObject in
              block
                [ assign (set_hoveredRack rack);
                  write targetObject (SetOpacity (7 # 10));
                  showRackInfo (rackIndexOf (root this) rack) ] this
            else if truthy (ud_id (userData target)) then
              block
                [ assign (set_hoveredServer (Some targetObject));
                  (fun this =>
                     if bool_decide (hoveredServer this ≠ selectedServer this)
                     then write targetObject (SetWireframe true) this
                     else skip this);
                  (fun this =>
                     match ud_id (userData target) ≫=
                           (fun id : string =>
                              ServerStatus.getServerData id (serverStatus this)) with
                     | Some serverData => showServerInfo serverData this
                     | None => skip this
                     end) ] this
            else skip this
        | None => skip this
        end
    | [] =>
        block
          [ assign (set_hoveredRack None);
            assign (set_hoveredServer None);
            showDefaultInfo ] this
    end.

(** [handleMouseMove(raycaster, camera)] *)
Definition handleMouseMove (ray : list Ref) : Cmd :=
  block [ restoreHoveredRack; restoreHoveredServer; hover ray ].

(** the innermost block of [handleClick]: what is done with the clicked
    mesh and its record *)
Definition select (clickedObject : Ref) (serverData : ServerData) : Cmd :=
  block
    [ (fun this =>
         match selectedServer this with
         | Some selected => write selected (SetWireframe false) this
         | None => skip this
         end);
      assign (set_selectedServer (Some clickedObject));
      write clickedObject (SetWireframe true);
      showServerInfo serverData ].

(** The value of [recursive] when a call of [intersectObjects] leaves it
    out, as [handleClick] does.  It is fixed by the release of three.js the
    application is built with: the older releases do not look below the
    objects given, the newer ones do. *)
Variable recursiveDefault : bool.

(** [handleClick(raycaster, camera)] *)
Definition handleClick (ray : list Ref) : Cmd :=
  fun this =>
    match intersectObjects (root this) ray (serverMeshes (root this))
            recursiveDefault with
    | clickedObject :: _ =>
        let serverId := userDataAt (root this) clickedObject ≫= ud_id in
        if truthy serverId then
          match serverId ≫=
                (fun id : string =>
                   ServerStatus.getServerData id (serverStatus this)) with
          | Some serverData => select clickedObject serverData this
          | None => skip this
          end
        else skip this
    | [] => skip this
    end.

(** the states of the object: after the constructor, and after any call
    of [update], [handleMouseMove] or [handleClick] on such a state *)
Inductive reachable : DataCenter -> Prop :=
| reach_new (n : nat) : reachable (new_DataCenter n)
| reach_update (this : DataCenter) :
    reachable this -> reachable (fst (update this))
| reach_move (this : DataCenter) (ray : list Ref) :
    reachable this -> reachable (fst (handleMouseMove ray this))
| reach_click (this : DataCenter) (ray : list Ref) :
    reachable this -> reachable (fst (handleClick ray this)).

End WithRandom.

(** the view [showServerInfo] renders *)
Definition serverView (this : DataCenter) (data : ServerData) : View :=
  ServerInfo (brandOr (Map_get (ServerStatus.sd_id data) (servers this)
                         ≫= userDataAt (root this)) "未知品牌") data.

(** the view [showRackInfo] renders *)
Definition rackView (this : DataCenter) (rackIndex : option nat) : View :=
  match snd (showRackInfo rackIndex this) with
  | Render v :: _ => v
  | _ => DefaultInfo
  end.

(** the state after the two restoring statements of [handleMouseMove] *)
Definition restored (this : DataCenter) : DataCenter :=
  fst (restoreHoveredServer (fst (restoreHoveredRack this))).

(** the ancestors of an object strictly below [s], nearest first, when the
    object is child number [i] of ... of [s] along [pre] *)
Fixpoint between (pre : list nat) (s : Ref) : list Ref :=
  match pre with
  | [] => []
  | i :: pre' => (i :: pre' ++ s) :: between pre' s
  end.

(** the rack case whose opacity the first restoring statement resets *)
Definition restoredRackCase (this : DataCenter) : option Ref :=
  match hoveredRack this with
  | Some rack =>
      match findIndex (fun child => ud_isRackCase (userData child))
                      (childrenAt (root this) rack) with
      | Some i => Some (i :: rack)
      | None => None
      end
  | None => None
  end.

(** the server mesh whose wireframe flag the second one resets *)
Definition restoredServer (this : DataCenter) : option Ref :=
  match hoveredServer this with
  | Some server =>
      if bool_decide (hoveredServer this <> selectedServer this)
      then Some server else None
  | None => None
  end.

(** an assignment to the material of an object, if there is one *)
Definition assignTo (a : Assignment) (o : option Ref) (m : gmap Ref Material)
  : gmap Ref Material :=
  match o with
  | Some object => alter (assigned a) object m
  | None => m
  end.

(** the enter effects of the specification: the hover emphasis of a
    server (wireframe := true) or of a rack case (opacity := 0.7) *)
Definition isEnter (e : Effect) : bool :=
  match e with
  | Write _ (SetWireframe v) => v
  | Write _ (SetOpacity v) => Qeq_bool v (7 # 10)
  | _ => false
  end.

Definition enterEffects (t : list Effect) : nat := length (List.filter isEnter t).

(** the material store after the assignments of a trace *)
Definition applyEffect (e : Effect) (m : gmap Ref Material) : gmap Ref Material :=
  match e with
  | Write o a => alter (assigned a) o m
  | Render _ => m
  end.

Definition applyTrace (t : list Effect) (m : gmap Ref Material)
  : gmap Ref Material :=
  fold_left (fun m e => applyEffect e m) t m.

(** a command changes the materials by its assignments only *)
Definition lawful (c : Cmd) : Prop :=
  forall this, materials (fst (c this)) = applyTrace (snd (c this)) (materials this).

(** a field other than [materials] and [info] *)
Definition plain {A : Type} (field : DataCenter -> A) : Prop :=
  (forall m this, field (set_materials m this) = field this) /\
  (forall v this, field (set_info v this) = field this).

(** a command leaves a field as it is *)
Definition keeps {A : Type} (field : DataCenter -> A) (c : Cmd) : Prop :=
  forall this, field (fst (c this)) = field this.

(** the effect is no assignment to the wireframe flag of the selected
    server *)
Definition spares (selected : option Ref) (e : Effect) : Prop :=
  forall s v, selected = Some s -> e <> Write s (SetWireframe v).

(** the store holds one record for each of the 45 ids, under its id *)
Definition records_ok (st : ServerStatus.State) : Prop :=
  map fst (ServerStatus.servers st) = all_ids /\
  Forall (fun e => ServerStatus.sd_id (snd e) = fst e) (ServerStatus.servers st).

(** the assignments [update] makes for the server mesh [mesh] *)
Definition meshWrite (mesh : Ref) (e : Effect) : Prop :=
  (exists v, e = Write mesh (SetUniformTemperature v)) \/
  (exists st, e = Write (0%nat :: mesh) (SetColor (statusHex st))).

(** What holds of every reachable state. *)
Record wf (this : DataCenter) : Prop := {
  wf_children : children this = sceneChildren;
  wf_servers : servers this = sceneServers;
  wf_racks : racks this = sceneRacks;
  wf_selected :
    forall s, selectedServer this = Some s -> In s (map snd sceneServers);
  wf_hoveredServer :
    forall s, hoveredServer this = Some s -> In s (map snd sceneServers);
  wf_hoveredRack :
    forall r, hoveredRack this = Some r -> In r (map snd sceneRacks);
  wf_materials : dom (materials this) = dom (materialsOf sceneRoot);
  wf_records : records_ok (serverStatus this);
  wf_selected_wireframe :
    forall s, selectedServer this = Some s ->
              wireframe <$> materials this !! s = Some true
}.

(** the result of the pick of [handleMouseMove] for a first intersected
    object, in the terms of the specification *)
Inductive InteractionTarget : Type :=
| TargetNone
| TargetRack (rackIndex : option nat)
| TargetServer (serverId : string).

Definition targetOf (root : Object3D) (servers : list (string * Ref))
    (intersectedObject : Ref) : InteractionTarget :=
  let targetObject := resolve root servers intersectedObject in
  match userDataAt root targetObject with
  | Some u =>
      if ud_isRackCase u then
        TargetRack (rackIndexOf root (Three.parent targetObject))
      else
        match ud_id u with
        | Some id => if truthy (Some id) then TargetServer id else TargetNone
        | None => TargetNone
        end
  | None => TargetNone
  end.

(** the target of a pointer move along [ray]: what the pick of
    [handleMouseMove] resolves the nearest intersected object to *)
Definition pointerTarget (this : DataCenter) (ray : list Ref) : InteractionTarget :=
  match intersectObjects (root this) ray (interactiveObjects (root this)) true with
  | intersectedObject :: _ => targetOf (root this) (servers this) intersectedObject
  | [] => TargetNone
  end.

(** the enter effects a pointer move onto a target fires: one for a rack
    and for a server that is not the selected one, none otherwise *)
Definition entersFor (this : DataCenter) (target : InteractionTarget) : nat :=
  match target with
  | TargetServer id =>
      if bool_decide (Map_get id (servers this) = selectedServer this)
      then 0%nat else 1%nat
  | TargetRack _ => 1%nat
  | TargetNone => 0%nat
  end.

(** the object carries none of the tags the pick looks at *)
Definition untagged (u : UserData) : bool :=
  negb (truthy (ud_id u)) && negb (ud_isRackCase u) &&
  negb (bool_decide (is_Some (ud_rackIndex u))).

(** what the pick of [handleMouseMove] does for an object the ray caster
    can return in the built scene: a rack case resolves to itself, child 0
    of a rack; a server mesh or its light resolves to the server mesh
    registered under its id *)
Definition pickCheck (hit : Ref) : bool :=
  let target := resolve sceneRoot sceneServers hit in
  match deref sceneRoot hit, deref sceneRoot target with
  | Some h, Some t =>
      if ud_isRackCase (userData t) then
        bool_decide (target = hit) &&
        match target with
        | i :: rack =>
            bool_decide (i = 0%nat) &&
            existsb (Ref_eqb rack) (map snd sceneRacks) &&
            bool_decide (findIndex (fun c => ud_isRackCase (userData c))
                                   (childrenAt sceneRoot rack) = Some 0%nat) &&
            bool_decide (is_Some (rackIndexOf sceneRoot (Some rack)))
        | [] => false
        end
      else
        match ud_id (userData t) with
        | Some id =>
            truthy (Some id) &&
            bool_decide (Map_get id sceneServers = Some target) &&
            existsb (String.eqb id) all_ids &&
            (bool_decide (hit = target) ||
             untagged (userData h) && bool_decide (hit = 0%nat :: target))
        | None => false
        end
  | _, _ => false
  end.

(** what [handleClick] can find below the meshes it collects: a
    registered server mesh, or an object without an id *)
Definition clickCheck (hit : Ref) : bool :=
  existsb (Ref_eqb hit) (map snd sceneServers) ||
  negb (truthy (userDataAt sceneRoot hit ≫= ud_id)).

(** two registered racks with the same index are the same rack *)
Definition racksApart (l : list (nat * Ref)) : bool :=
  forallb (fun e =>
             forallb (fun e' =>
                        implb (bool_decide (rackIndexOf sceneRoot (Some (snd e))
                                            = rackIndexOf sceneRoot (Some (snd e'))))
                              (Ref_eqb (snd e) (snd e'))) l) l.

(** no light of a registered server mesh is itself a registered mesh *)
Definition lightsApart (l : list (string * Ref)) : bool :=
  forallb (fun e => forallb (fun e' => negb (Ref_eqb (0%nat :: snd e) (snd e'))) l) l.

(** what [update] and [handleClick] rely on for a registered server mesh:
    it is a mesh with the id it is registered under, it has a material, and
    its child 0, the light, has one *)
Definition serverCheck (e : string * Ref) : bool :=
  let (id, mesh) := e in
  match deref sceneRoot mesh with
  | Some o =>
      isMesh o && bool_decide (ud_id (userData o) = Some id) &&
      truthy (Some id) && existsb (String.eqb id) all_ids &&
      bool_decide (is_Some (materialsOf sceneRoot !! mesh)) &&
      bool_decide (is_Some (nth_error (Three.children o) 0)) &&
      bool_decide (is_Some (materialsOf sceneRoot !! (0%nat :: mesh)))
  | None => false
  end.

(** *** The colours of the info panel *)

(** [getTemperatureColor(temp)] *)
Definition getTemperatureColor (temp : Q) : string :=
  if gt temp 45 then "#ff4444"%string
  else if gt temp 35 then "#ffaa00"%string
  else "#44ff44"%string.

(** [getUsageColor(usage)] *)
Definition getUsageColor (usage : Q) : string :=
  if gt usage 90 then "#ff4444"%string
  else if gt usage 70 then "#ffaa00"%string
  else "#44ff44"%string.

(** the string a value of the type ['normal' | 'warning' | 'error'] is *)
Definition statusString (s : Status) : string :=
  match s with
  | normal => "normal"
  | warning => "warning"
  | error => "error"
  end.

(** [getStatusColor(status)], a [switch] over a string with a default *)
Definition getStatusColor (status : string) : string :=
  if String.eqb status "error" then "#ff4444"%string
  else if String.eqb status "warning" then "#ffaa00"%string
  else if String.eqb status "normal" then "#44ff44"%string
  else "#ffffff"%string.

(** *** Vocabulary of the further properties *)

(** how bad a status is *)
Definition severity (s : Status) : nat :=
  match s with
  | normal => 0
  | warning => 1
  | error => 2
  end.

(** the pipes among the objects of the scene: [createPipe] gives each a
    type *)
Definition isPipe (o : Object3D) : bool := bool_decide (is_Some (ud_type (userData o))).

(** [rack.children.find(child => child.userData.isRackCase)], as a
    reference *)
Definition rackCaseOf (root : Object3D) (rack : Ref) : option Ref :=
  (fun i : nat => i :: rack) <$>
  findIndex (fun child => ud_isRackCase (userData child)) (childrenAt root rack).

(** the property of a material an assignment writes *)
Inductive Property : Set := Opacity | Wireframe | Color | UniformTemperature.

Definition written (a : Assignment) : Property :=
  match a with
  | SetOpacity _ => Opacity
  | SetWireframe _ => Wireframe
  | SetColor _ => Color
  | SetUniformTemperature _ => UniformTemperature
  end.

(** the effect is an assignment to one of the given properties, or a
    rendering when [panel] *)
Definition effectAmong (ps : list Property) (panel : bool) (e : Effect) : Prop :=
  match e with
  | Write _ a => In (written a) ps
  | Render _ => panel = true
  end.

(** the two assignments [update] makes for a server mesh and its record *)
Definition meshWrites (rnd : Q -> Q) (mesh : Ref) (data : ServerData) : list Effect :=
  [ Write mesh
      (SetUniformTemperature (rnd (rnd (ServerStatus.temperature data - 20) / 30)));
    Write (0%nat :: mesh) (SetColor (statusHex (ServerStatus.status data))) ].

(** the rows of the list [showRackInfo] builds: one for each of the five
    slots whose id has a record *)
Definition rackRows (this : DataCenter) (rackIndex : option nat)
  : list (string * string * ServerData) :=
  flat_map
    (fun i : nat =>
       let serverId := ("rack" ++ showIndex rackIndex ++ "-server" ++ show i)%string in
       match ServerStatus.getServerData serverId (serverStatus this) with
       | Some data =>
           [(brandOr (Map_get serverId (servers this) ≫= userDataAt (root this))
                     "未知品牌", serverId, data)]
       | None => []
       end)
    (seq 0 5).

(** what the built scene gives every rack: a case as child 0, with a
    material of opacity 1, and an index *)
Definition rackCheck (e : nat * Ref) : bool :=
  let (rackIndex, rack) := e in
  bool_decide (rackCaseOf sceneRoot rack = Some (0%nat :: rack)) &&
  bool_decide (rackIndexOf sceneRoot (Some rack) = Some rackIndex) &&
  match materialsOf sceneRoot !! (0%nat :: rack) with
  | Some m => Qeq_bool (opacity m) 1 && Pos.eqb (Qden (opacity m)) 1
  | None => false
  end.

(** no registered server mesh starts with the wireframe flag *)
Definition plainCheck (e : string * Ref) : bool :=
  match materialsOf sceneRoot !! snd e with
  | Some m => negb (wireframe m)
  | None => false
  end.

(** the brand registered for slot [i] of rack [rackIndex] is entry [i] of
    [serverBrands] *)
Definition brandCheck (rackIndex i : nat) : bool :=
  String.eqb
    (brandOr (Map_get (server_id rackIndex i) sceneServers ≫= userDataAt sceneRoot)
             "未知品牌")
    (fst (nth i serverBrands (""%string, 0%Z))).

(** the status of a record is what the chain of tests of
    [updateServerStatus] gives its metrics *)
Definition chained (d : ServerData) : Prop :=
  ServerStatus.status d =
  if gt (ServerStatus.temperature d) 42 || gt (ServerStatus.cpuUsage d) 90
     || gt (ServerStatus.memoryUsage d) 90 then error
  else if gt (ServerStatus.temperature d) 38 || gt (ServerStatus.cpuUsage d) 75
          || gt (ServerStatus.memoryUsage d) 75 then warning
  else normal.

(** a registered server mesh shows its record: the light has the colour
    [update] gives the status, the material the heat-map uniform [update]
    computes from the temperature *)
Definition shows (rnd : Q -> Q) (this : DataCenter) (e : string * Ref) : Prop :=
  exists data,
    ServerStatus.getServerData (fst e) (serverStatus this) = Some data /\
    color <$> materials this !! (0%nat :: snd e)
      = Some (statusHex (ServerStatus.status data)) /\
    uniform_temperature <$> materials this !! snd e
      = Some (rnd (rnd (ServerStatus.temperature data - 20) / 30)).

(** what holds of the data centre while the application runs: after the
    first [update] *)
Definition running (rnd : Q -> Q) (this : DataCenter) : Prop :=
  wf this /\
  Forall (fun e => chained (snd e) /\ ServerStatus.clamped (snd e))
         (ServerStatus.servers (serverStatus this)) /\
  Forall (shows rnd this) (servers this).

(** the case of a rack is opaque, or dimmed and the rack is the hovered
    one *)
Definition dimmedOnlyHovered (this : DataCenter) (rack : Ref) : Prop :=
  opacity <$> materials this !! (0%nat :: rack) = Some 1 \/
  (opacity <$> materials this !! (0%nat :: rack) = Some (7 # 10) /\
   hoveredRack this = Some rack).

(** a server mesh has no wireframe flag, or it has one and is the
    selected or the hovered server *)
Definition outlinedOnlyChosen (this : DataCenter) (mesh : Ref) : Prop :=
  wireframe <$> materials this !! mesh = Some false \/
  (wireframe <$> materials this !! mesh = Some true /\
   (selectedServer this = Some mesh \/ hoveredServer this = Some mesh)).

(** no emphasis is left behind *)
Definition tidy (this : DataCenter) : Prop :=
  wf this /\
  Forall (dimmedOnlyHovered this) (map snd sceneRacks) /\
  Forall (outlinedOnlyChosen this) (map snd sceneServers).

End DataCenter.

(** ** main.ts *)

Module App.
Import Num Three DataCenter.

(** the events the constructor registers handlers for, and the animation
    frame; a pointer event comes with what the ray set from the mouse
    position pierces *)
Inductive Event : Type :=
| AnimationFrame
| MouseMove (ray : list Ref)
| Click (ray : list Ref).

Section WithRandom.

Variable rnd : Q -> Q.
Variable rand : nat -> Q.
Variable recursiveDefault : bool.

(** [a / b]; [None] when the result is no finite number *)
Definition div (a b : Q) : option Q :=
  if Qeq_bool b 0 then None else Some (rnd (a / b)).

(** [(event.clientX / window.innerWidth) * 2 - 1] *)
Definition mouse_x (clientX innerWidth : Q) : option Q :=
  (fun q : Q => ServerStatus.sub rnd (ServerStatus.mul rnd q 2) 1) <$>
  div clientX innerWidth.

(** [-(event.clientY / window.innerHeight) * 2 + 1] *)
Definition mouse_y (clientY innerHeight : Q) : option Q :=
  (fun q : Q => ServerStatus.add rnd (ServerStatus.mul rnd (- q) 2) 1) <$>
  div clientY innerHeight.

(** [animate()], as far as the data centre goes: [this.dataCenter.update()] *)
Definition animate : Cmd := update rnd rand.

(** [onMouseMove(event)] and [onClick(event)], once the ray is set *)
Definition onMouseMove (ray : list Ref) : Cmd := handleMouseMove ray.
Definition onClick (ray : list Ref) : Cmd := handleClick recursiveDefault ray.

Definition dispatch (e : Event) : Cmd :=
  match e with
  | AnimationFrame => animate
  | MouseMove ray => onMouseMove ray
  | Click ray => onClick ray
  end.

(** [constructor()]: the data centre is created, then [this.animate()] is
    called once before any event is handled *)
Definition new_App (n : nat) : DataCenter * list Effect :=
  animate (new_DataCenter rnd rand n).

(** the data centre after the constructor and the given events, in order *)
Definition after (n : nat) (events : list Event) : DataCenter :=
  fst (block (map dispatch events) (fst (new_App n))).

End WithRandom.

End App.

(** * The rounding of binary64 arithmetic *)

Section Binary64.
Import Num.

Lemma pow2_pos (e : Z) : 0 < 2 ^ e.
Proof. apply Qpower_0_lt. reflexivity. Qed.

Lemma pow2_add (a b : Z) : 2 ^ (a + b) == 2 ^ a * 2 ^ b.
Proof. apply Qpower_plus. discriminate. Qed.

Lemma pow2_le (a b : Z) : (a <= b)%Z -> 2 ^ a <= 2 ^ b.
Proof. intros H. apply Qpower_le_compat_l; [exact H | discriminate]. Qed.

Lemma pow2_cancel (e : Z) : 2 ^ (- e) * 2 ^ e == 1.
Proof. rewrite <- pow2_add. replace (- e + e)%Z with 0%Z by lia. reflexivity. Qed.

Lemma pow2_Z (k : Z) : (0 <= k)%Z -> 2 ^ k == inject_Z (2 ^ k).
Proof. intros H. now rewrite Zpower_Qpower. Qed.

(** [ilog2] is the floor of the binary logarithm *)
Lemma ilog2_spec (q : Q) : 0 < q -> 2 ^ ilog2 q <= q < 2 ^ (ilog2 q + 1).
Proof.
  intros Hq. unfold ilog2. destruct (Qle_bool 1 q) eqn:E.
  - apply Qle_bool_iff in E.
    assert (Hf : (0 < Qfloor q)%Z).
    { change 1 with (inject_Z 1) in E. apply Qfloor_resp_le in E.
      rewrite Qfloor_Z in E. lia. }
    destruct (Z.log2_spec _ Hf) as [H1 H2].
    pose proof (Z.log2_nonneg (Qfloor q)) as Hn.
    rewrite !pow2_Z by lia. split.
    + apply Qle_trans with (inject_Z (Qfloor q)); [| apply Qfloor_le].
      now rewrite <- Zle_Qle.
    + apply Qlt_le_trans with (inject_Z (Qfloor q + 1)); [apply Qlt_floor |].
      rewrite <- Zle_Qle. unfold Z.succ in H2. lia.
  - assert (Hq1 : q < 1).
    { apply Qnot_le_lt. intros H. apply Qle_bool_iff in H. congruence. }
    assert (Hi : 1 < / q).
    { apply Qlt_shift_inv_l; [exact Hq |]. now rewrite Qmult_1_l. }
    assert (Hc : (1 < Qceiling (/ q))%Z).
    { pose proof (Qle_ceiling (/ q)) as H.
      assert (H' : inject_Z 1 < inject_Z (Qceiling (/ q)))
        by (eapply Qlt_le_trans; [exact Hi | exact H]).
      now rewrite <- Zlt_Qlt in H'. }
    destruct (Z.log2_up_spec _ Hc) as [H1 H2].
    pose proof (Z.log2_up_nonneg (Qceiling (/ q))) as Hn.
    set (u := Z.log2_up (Qceiling (/ q))) in *.
    assert (Hu : (0 < u)%Z).
    { destruct (Z.eq_dec u 0%Z) as [E0 | ]; [| lia]. rewrite E0 in H2. cbn in H2. lia. }
    assert (Hinv : forall k, 2 ^ (- k) == / 2 ^ k) by (intros; apply Qpower_opp).
    split.
    + rewrite Hinv. apply Qle_shift_inv_r; [apply pow2_pos |].
      rewrite Qmult_comm. 
      assert (H : / q <= 2 ^ u).
      { apply Qle_trans with (inject_Z (Qceiling (/ q))); [apply Qle_ceiling |].
        rewrite pow2_Z by lia. now rewrite <- Zle_Qle. }
      apply (Qmult_le_compat_r _ _ q) in H; [| now apply Qlt_le_weak].
      rewrite (Qmult_comm (/ q)), Qmult_inv_r in H; [| intros E0; rewrite E0 in Hq; discriminate].
      exact H.
    + replace (- u + 1)%Z with (- (u - 1))%Z by lia. rewrite Hinv.
      assert (H : 2 ^ (u - 1) < / q).
      { apply Qle_lt_trans with (inject_Z (Qceiling (/ q) - 1)); [| apply Qceiling_lt].
        rewrite pow2_Z by lia. rewrite <- Zle_Qle.
        replace (Z.pred u) with (u - 1)%Z in H1 by lia. lia. }
      apply Qlt_shift_inv_l; [apply pow2_pos |].
      apply (Qmult_lt_compat_r _ _ q) in H; [| exact Hq].
      rewrite (Qmult_comm (/ q)), Qmult_inv_r in H; [| intros E0; rewrite E0 in Hq; discriminate].
      rewrite Qmult_comm. exact H.
Qed.

Lemma ilog2_mono (a b : Q) : 0 < a -> a <= b -> (ilog2 a <= ilog2 b)%Z.
Proof.
  intros Ha Hab.
  assert (Hb : 0 < b) by (eapply Qlt_le_trans; eassumption).
  destruct (ilog2_spec a Ha) as [Ha1 _]. destruct (ilog2_spec b Hb) as [_ Hb2].
  assert (H : 2 ^ ilog2 a < 2 ^ (ilog2 b + 1)).
  { eapply Qle_lt_trans; [exact Ha1 |]. eapply Qle_lt_trans; eassumption. }
  apply Qpower_lt_compat_l_inv in H; [lia | reflexivity].
Qed.


Lemma round_even_bounds (q : Q) : (Qfloor q <= round_even q <= Qfloor q + 1)%Z.
Proof.
  unfold round_even.
  destruct (Qcompare (q - inject_Z (Qfloor q)) (1 # 2)); [destruct (Z.even _) | |]; lia.
Qed.

Lemma round_even_mono (a b : Q) : a <= b -> (round_even a <= round_even b)%Z.
Proof.
  intros Hab. pose proof (Qfloor_resp_le _ _ Hab) as Hf.
  pose proof (round_even_bounds a) as Ba. pose proof (round_even_bounds b) as Bb.
  destruct (Z.eq_dec (Qfloor a) (Qfloor b)) as [E | NE]; [| lia].
  unfold round_even in *. rewrite <- E in *.
  assert (Hd : a - inject_Z (Qfloor a) <= b - inject_Z (Qfloor a))
    by (apply Qplus_le_l; exact Hab).
  destruct (Qcompare_spec (a - inject_Z (Qfloor a)) (1 # 2)) as [Ea | La | Ga];
  destruct (Qcompare_spec (b - inject_Z (Qfloor a)) (1 # 2)) as [Eb | Lb | Gb];
    try destruct (Z.even _); try lia; exfalso.
  - rewrite Ea in Hd. exact (Qlt_not_le _ _ Lb Hd).
  - rewrite Eb in Hd. exact (Qlt_not_le _ _ Ga Hd).
  - exact (Qlt_not_le _ _ (Qlt_trans _ _ _ Lb Ga) Hd).
Qed.

Lemma round_even_Z (z : Z) : round_even (inject_Z z) = z.
Proof.
  unfold round_even. rewrite Qfloor_Z.
  destruct (Qcompare_spec (inject_Z z - inject_Z z) (1 # 2)) as [E | L | G];
    [exfalso | reflexivity | exfalso].
  - ring_simplify in E. discriminate.
  - ring_simplify in G. discriminate.
Qed.

Lemma round_pos_nonneg (q : Q) : 0 < q -> 0 <= round_pos q.
Proof.
  intros Hq. unfold round_pos.
  apply Qmult_le_0_compat; [| apply Qlt_le_weak, pow2_pos].
  change 0 with (inject_Z 0). rewrite <- Zle_Qle.
  change 0%Z with (round_even (inject_Z 0)). apply round_even_mono.
  apply Qmult_le_0_compat; [now apply Qlt_le_weak | apply Qlt_le_weak, pow2_pos].
Qed.

Lemma ulp_exp_mono (a b : Q) : 0 < a -> a <= b -> (ulp_exp a <= ulp_exp b)%Z.
Proof. intros Ha Hab. pose proof (ilog2_mono a b Ha Hab). unfold ulp_exp. lia. Qed.

(** the scaled significand is below 2^53 *)
Lemma scaled_lt (q : Q) : 0 < q -> q * 2 ^ (- ulp_exp q) < 2 ^ 53.
Proof.
  intros Hq. destruct (ilog2_spec q Hq) as [_ H].
  apply Qlt_le_trans with (2 ^ (ilog2 q + 1) * 2 ^ (- ulp_exp q)).
  - apply Qmult_lt_compat_r; [apply pow2_pos | exact H].
  - rewrite <- pow2_add. apply pow2_le. unfold ulp_exp. lia.
Qed.

Lemma round_pos_mono (a b : Q) : 0 < a -> a <= b -> round_pos a <= round_pos b.
Proof.
  intros Ha Hab.
  assert (Hb : 0 < b) by (eapply Qlt_le_trans; eassumption).
  pose proof (ulp_exp_mono a b Ha Hab) as He. unfold round_pos.
  destruct (Z.eq_dec (ulp_exp a) (ulp_exp b)) as [E | NE].
  - rewrite E. apply Qmult_le_compat_r; [| apply Qlt_le_weak, pow2_pos].
    rewrite <- Zle_Qle. apply round_even_mono.
    apply Qmult_le_compat_r; [exact Hab | apply Qlt_le_weak, pow2_pos].
  - assert (Eb : ulp_exp b = (ilog2 b - 52)%Z) by (unfold ulp_exp in *; lia).
    apply Qle_trans with (2 ^ 53 * 2 ^ ulp_exp a).
    + apply Qmult_le_compat_r; [| apply Qlt_le_weak, pow2_pos].
      rewrite (pow2_Z 53) by lia. rewrite <- Zle_Qle.
      rewrite <- (round_even_Z (2 ^ 53)). apply round_even_mono.
      rewrite <- pow2_Z by lia. apply Qlt_le_weak, scaled_lt, Ha.
    + apply Qle_trans with (2 ^ 52 * 2 ^ ulp_exp b).
      * rewrite <- !pow2_add. apply pow2_le. lia.
      * apply Qmult_le_compat_r; [| apply Qlt_le_weak, pow2_pos].
        rewrite (pow2_Z 52) by lia. rewrite <- Zle_Qle.
        rewrite <- (round_even_Z (2 ^ 52)). apply round_even_mono.
        rewrite <- pow2_Z by lia.
        destruct (ilog2_spec b Hb) as [H _].
        apply Qle_trans with (2 ^ ilog2 b * 2 ^ (- ulp_exp b)).
        -- rewrite <- pow2_add. apply pow2_le. lia.
        -- apply Qmult_le_compat_r; [exact H | apply Qlt_le_weak, pow2_pos].
Qed.

Lemma Qnum_pos (q : Q) p : Qnum q = Zpos p -> 0 < q.
Proof. destruct q as [n d]; cbn; intros ->. reflexivity. Qed.

Lemma Qnum_neg (q : Q) p : Qnum q = Zneg p -> 0 < - q.
Proof. destruct q as [n d]; cbn; intros ->. reflexivity. Qed.

Lemma Qnum_zero (q : Q) : Qnum q = 0%Z -> q == 0.
Proof. destruct q as [n d]; cbn; intros ->. reflexivity. Qed.

Theorem round64_mono (a b : Q) : a <= b -> round64 a <= round64 b.
Proof.
  intros Hab. unfold round64.
  destruct (Qnum a) as [| pa | pa] eqn:Ea; destruct (Qnum b) as [| pb | pb] eqn:Eb.
  - apply Qle_refl.
  - apply round_pos_nonneg. eapply Qnum_pos; eassumption.
  - exfalso. apply Qnum_zero in Ea. apply Qnum_neg in Eb. rewrite Ea in Hab. lra.
  - exfalso. apply Qnum_zero in Eb. apply Qnum_pos in Ea. rewrite Eb in Hab. lra.
  - apply round_pos_mono; [eapply Qnum_pos; eassumption | exact Hab].
  - exfalso. apply Qnum_pos in Ea. apply Qnum_neg in Eb. lra.
  - apply Qnum_neg in Ea. pose proof (round_pos_nonneg _ Ea). lra.
  - apply Qnum_neg in Ea. apply Qnum_pos in Eb.
    pose proof (round_pos_nonneg _ Ea). pose proof (round_pos_nonneg _ Eb). lra.
  - apply Qnum_neg in Ea. apply Qnum_neg in Eb.
    apply Qopp_le_compat. apply round_pos_mono; [exact Eb | lra].
Qed.

Lemma round64_half_check :
  forallb (fun k : nat =>
             Qeq_bool (round64 ((Z.of_nat k - 200) # 2)) ((Z.of_nat k - 200) # 2))
          (seq 0 401) = true.
Proof. vm_compute. reflexivity. Qed.

Theorem round64_half (z : Z) : (-200 <= z <= 200)%Z -> round64 (z # 2) == z # 2.
Proof.
  intros Hz. pose proof round64_half_check as H.
  rewrite forallb_forall in H. specialize (H (Z.to_nat (z + 200))).
  replace (Z.of_nat (Z.to_nat (z + 200)) - 200)%Z with z in H by lia.
  apply Qeq_bool_iff, H. apply in_seq. lia.
Qed.

Theorem round64_Rounding : Rounding round64.
Proof. constructor; [exact round64_mono | exact round64_half]. Qed.

Theorem exact_Rounding : Rounding exact.
Proof. constructor; unfold exact; [trivial | reflexivity]. Qed.

End Binary64.

(** * Properties of the telemetry store *)

Section Telemetry.
Import Num ServerStatus.

Variable rnd : Q -> Q.
Variable rand : nat -> Q.

Lemma gt_spec (a b : Q) : gt a b = if Qlt_le_dec b a then true else false.
Proof.
  unfold gt. destruct (Qlt_le_dec b a) as [Hlt | Hle].
  - destruct (Qle_bool a b) eqn:E; [| reflexivity].
    apply Qle_bool_iff in E. exfalso. exact (Qlt_not_le _ _ Hlt E).
  - apply Qle_bool_iff in Hle. now rewrite Hle.
Qed.

(** [Math.max(lo, Math.min(hi, x))] lies between its bounds, whatever [x] *)
Lemma clamp_bounds (lo hi x : Q) :
  lo <= hi -> lo <= Qmax lo (Qmin hi x) <= hi.
Proof.
  intros Hlohi. split.
  - apply Q.le_max_l.
  - apply Q.max_lub; [exact Hlohi | apply Q.le_min_l].
Qed.

Lemma updateServer_clamped r1 r2 r3 s : clamped (updateServer rnd r1 r2 r3 s).
Proof.
  unfold clamped, updateServer; cbn [temperature cpuUsage memoryUsage].
  repeat split; apply clamp_bounds; discriminate.
Qed.

Lemma updateServer_status r1 r2 r3 s :
  status_consistent (updateServer rnd r1 r2 r3 s).
Proof.
  unfold status_consistent, updateServer, threshold;
    cbn [temperature cpuUsage memoryUsage status].
  rewrite !gt_spec.
  repeat match goal with
         | |- context [Qlt_le_dec ?a ?b] => destruct (Qlt_le_dec a b)
         end; reflexivity.
Qed.

Lemma updateServer_id r1 r2 r3 s : sd_id (updateServer rnd r1 r2 r3 s) = sd_id s.
Proof. reflexivity. Qed.


Lemma forEach_update_drawn (m : ServerMap) (n : nat) :
  snd (forEach_update rnd rand m n) = (3 * length m + n)%nat.
Proof.
  revert n. induction m as [| [k server] tl IH]; intros n.
  - reflexivity.
  - cbn [forEach_update]. specialize (IH (3 + n)%nat).
    destruct (forEach_update rnd rand tl (3 + n)) as [tl' n'].
    cbn [snd length] in *. lia.
Qed.

Lemma forEach_update_Forall (P : ServerData -> Prop) (m : ServerMap) (n : nat) :
  (forall r1 r2 r3 s, P (updateServer rnd r1 r2 r3 s)) ->
  Forall (fun e => P (snd e)) (fst (forEach_update rnd rand m n)).
Proof.
  intros HP. revert n. induction m as [| [k server] tl IH]; intros n.
  - constructor.
  - cbn [forEach_update]. specialize (IH (3 + n)%nat).
    destruct (forEach_update rnd rand tl (3 + n)) as [tl' n'].
    constructor; [apply HP | exact IH].
Qed.

Lemma forEach_update_keys (m : ServerMap) (n : nat) :
  map fst (fst (forEach_update rnd rand m n)) = map fst m.
Proof.
  revert n. induction m as [| [k server] tl IH]; intros n.
  - reflexivity.
  - cbn [forEach_update]. specialize (IH (3 + n)%nat).
    destruct (forEach_update rnd rand tl (3 + n)) as [tl' n'].
    cbn [fst map] in *. now rewrite IH.
Qed.

Lemma updateServerStatus_servers (this : State) :
  servers (updateServerStatus rnd rand this) =
  fst (forEach_update rnd rand (servers this) (drawn this)).
Proof.
  unfold updateServerStatus.
  now destruct (forEach_update rnd rand (servers this) (drawn this)).
Qed.

Lemma updateServerStatus_Forall (P : ServerData -> Prop) (this : State) :
  (forall r1 r2 r3 s, P (updateServer rnd r1 r2 r3 s)) ->
  Forall (fun e => P (snd e)) (servers (updateServerStatus rnd rand this)).
Proof.
  intros HP. rewrite updateServerStatus_servers.
  now apply forEach_update_Forall.
Qed.

Lemma ticks_keys (k : nat) (this : State) :
  map fst (servers (ticks rnd rand k this)) = map fst (servers this).
Proof.
  induction k as [| k IH]; [reflexivity |].
  cbn [ticks]. rewrite updateServerStatus_servers, forEach_update_keys. exact IH.
Qed.

Lemma new_ServerStatus_servers (n : nat) :
  servers (new_ServerStatus rnd rand n) = initialEntries rnd rand n.
Proof. reflexivity. Qed.

(** every record is an [updateServer] result after a tick *)
Lemma ticks_S_Forall (P : ServerData -> Prop) (k : nat) (this : State) :
  (forall r1 r2 r3 s, P (updateServer rnd r1 r2 r3 s)) ->
  Forall (fun e => P (snd e)) (servers (ticks rnd rand (S k) this)).
Proof. intros HP. cbn [ticks]. now apply updateServerStatus_Forall. Qed.

Section Rounded.

Hypothesis rnd_ok : Rounding rnd.
Hypothesis rand_range : forall i, 0 <= rand i < 1.

Lemma rnd_proper (a b : Q) : a == b -> rnd a == rnd b.
Proof.
  intros E. apply Qle_antisym; apply (rnd_mono rnd rnd_ok); rewrite E; apply Qle_refl.
Qed.

Lemma rnd_fix (z : Z) (q : Q) :
  (-200 <= z <= 200)%Z -> q == z # 2 -> rnd q == q.
Proof.
  intros Hz E. rewrite (rnd_proper _ _ E), E. now apply (rnd_half rnd rnd_ok).
Qed.

Lemma rnd_fix_Z (z : Z) : (-100 <= z <= 100)%Z -> rnd (inject_Z z) == inject_Z z.
Proof.
  intros Hz. apply (rnd_fix (2 * z)); [lia |].
  unfold Qeq, inject_Z; cbn. lia.
Qed.

(** rounding keeps a value between two constants of the program *)
Lemma rnd_between (lo hi : Z) (x : Q) :
  (-100 <= lo <= 100)%Z -> (-100 <= hi <= 100)%Z ->
  inject_Z lo <= x <= inject_Z hi -> inject_Z lo <= rnd x <= inject_Z hi.
Proof.
  intros Hlo Hhi [H1 H2]. split.
  - rewrite <- (rnd_fix_Z lo Hlo). now apply (rnd_mono rnd rnd_ok).
  - rewrite <- (rnd_fix_Z hi Hhi). now apply (rnd_mono rnd rnd_ok).
Qed.

(** [Math.random() * scale + base] lies in [base, base + scale] *)
Lemma initial_metric_range (r : Q) (scale base : Z) :
  (0 <= scale <= 100)%Z -> (0 <= base <= 100)%Z -> (scale + base <= 100)%Z ->
  0 <= r < 1 ->
  inject_Z base <= add rnd (mul rnd r (inject_Z scale)) (inject_Z base)
    <= inject_Z (scale + base).
Proof.
  intros Hs Hb Hsb [Hr0 Hr1]. unfold add, mul.
  assert (Hm : inject_Z 0 <= rnd (r * inject_Z scale) <= inject_Z scale).
  { apply rnd_between; [lia | lia |].
    assert (0 <= inject_Z scale) by (unfold Qle, inject_Z; cbn; lia).
    split; [apply Qmult_le_0_compat; assumption |].
    rewrite <- (Qmult_1_l (inject_Z scale)) at 2.
    apply Qmult_le_compat_r; [apply Qlt_le_weak|]; assumption. }
  destruct Hm as [Hm0 Hm1].
  apply rnd_between; [lia | lia |].
  rewrite inject_Z_plus.
  split; [| apply Qplus_le_l; exact Hm1].
  rewrite <- (Qplus_0_l (inject_Z base)) at 1. apply Qplus_le_l. exact Hm0.
Qed.

Lemma newServerData_ranges (id : string) (n : nat) :
  initial_ranges (newServerData rnd rand id n).
Proof.
  unfold initial_ranges, newServerData; cbn [temperature cpuUsage memoryUsage].
  repeat split.
  all: try (apply (initial_metric_range _ 20 25); [lia | lia | lia | apply rand_range]).
  all: try (apply (initial_metric_range _ 60 20); [lia | lia | lia | apply rand_range]).
  all: try (apply (initial_metric_range _ 50 30); [lia | lia | lia | apply rand_range]).
Qed.

Lemma initial_ranges_clamped (s : ServerData) : initial_ranges s -> clamped s.
Proof.
  unfold initial_ranges, clamped. intros (Ht & Hc & Hm).
  repeat split; try tauto.
  - apply Qle_trans with 80; [tauto | discriminate].
  - apply Qle_trans with 80; [tauto | discriminate].
Qed.

End Rounded.

(** the records keep the id they are stored under *)
Lemma forEach_update_ids (m : ServerMap) (n : nat) :
  Forall (fun e => sd_id (snd e) = fst e) m ->
  Forall (fun e => sd_id (snd e) = fst e) (fst (forEach_update rnd rand m n)).
Proof.
  revert n. induction m as [| [k server] tl IH]; intros n Hm.
  - constructor.
  - inversion Hm as [| ? ? Hhd Htl]; subst. cbn [forEach_update].
    specialize (IH (3 + n)%nat Htl).
    destruct (forEach_update rnd rand tl (3 + n)) as [tl' n'].
    constructor; [exact Hhd | exact IH].
Qed.

Lemma ticks_ids (k : nat) (this : State) :
  Forall (fun e => sd_id (snd e) = fst e) (servers this) ->
  Forall (fun e => sd_id (snd e) = fst e) (servers (ticks rnd rand k this)).
Proof.
  intros H. induction k as [| k IH]; [exact H |].
  cbn [ticks]. rewrite updateServerStatus_servers. now apply forEach_update_ids.
Qed.

Lemma initialEntries_ids (n : nat) :
  Forall (fun e => sd_id (snd e) = fst e) (initialEntries rnd rand n).
Proof. unfold initialEntries. apply Forall_map, Forall_forall. reflexivity. Qed.

End Telemetry.

Section TelemetryClaims.
Import Num ServerStatus.

Lemma lookup_nth_error {A : Type} (l : list A) (i : nat) : l !! i = nth_error l i.
Proof. revert i. induction l as [| x l IH]; intros [| i]; cbn; auto. Qed.

Lemma Map_get_Some {V : Type} (k : string) (v : V) (m : list (string * V)) :
  Map_get k m = Some v -> In (k, v) m.
Proof.
  induction m as [| [k' v'] tl IH]; cbn [Map_get]; [discriminate |].
  destruct (String.eqb_spec k k') as [-> | NE].
  - intros [= ->]. now left.
  - intros H. right. now apply IH.
Qed.

Lemma Map_get_None {V : Type} (k : string) (m : list (string * V)) :
  Map_get k m = None <-> ~ In k (map fst m).
Proof.
  induction m as [| [k' v'] tl IH]; cbn [Map_get map fst In]; [tauto |].
  destruct (String.eqb_spec k k') as [-> | NE].
  - split; [discriminate | intros H; exfalso; apply H; now left].
  - rewrite IH. split; [intros H [E | HIn]; [congruence | tauto] | tauto].
Qed.

Lemma initial_keys rnd rand n :
  map fst (servers (new_ServerStatus rnd rand n)) = all_ids.
Proof. reflexivity. Qed.

Lemma all_ids_NoDup : NoDup all_ids.
Proof. apply (bool_decide_unpack _). vm_compute. exact I. Qed.

Lemma all_ids_spec (id : string) :
  In id all_ids <->
  exists rack server, (rack < 9)%nat /\ (server < 5)%nat /\ id = server_id rack server.
Proof.
  unfold all_ids. rewrite in_flat_map. split.
  - intros (rack & Hr & Hs). apply in_map_iff in Hs as (server & <- & Hs).
    exists rack, server. apply in_seq in Hr, Hs. repeat split; lia.
  - intros (rack & server & Hr & Hs & ->). exists rack. split.
    + apply in_seq. lia.
    + apply in_map. apply in_seq. lia.
Qed.

(** C1, as amended: after one or more calls of [updateServerStatus] the
    status of every record is the threshold function of its three metrics
    (error above 42 degrees or 90 percent, else warning above 38 degrees
    or 75 percent, else normal), for every rounding and every random
    stream.  Immediately after [initializeServers] every status is
    normal, whatever the metrics. *)
Theorem status_consistent_after_tick (rnd : Q -> Q) (rand : nat -> Q) (n k : nat) :
  Forall (fun e => status_consistent (snd e))
         (servers (ticks rnd rand (S k) (new_ServerStatus rnd rand n))).
Proof. apply ticks_S_Forall. intros. apply updateServer_status. Qed.

(** C1 as stated fails before the first tick: with the draw 15/16 the
    first record starts at 43.75 degrees with status normal, where the
    threshold table says error. *)
Lemma status_inconsistent_after_initialize :
  0 <= 15 # 16 < 1 /\
  ~ (forall k : nat,
       Forall (fun e => status_consistent (snd e))
              (servers (ticks round64 (fun _ => 15 # 16) k
                          (new_ServerStatus round64 (fun _ => 15 # 16) 0)))).
Proof.
  split; [split; [discriminate | reflexivity] |].
  intros H. specialize (H 0%nat). cbn [ticks] in H.
  rewrite new_ServerStatus_servers in H.
  apply Forall_inv in H. vm_compute in H. discriminate.
Qed.

(** C2: after any number of calls of [updateServerStatus] (none
    included) every record has 25 <= temperature <= 45,
    20 <= cpuUsage <= 95 and 30 <= memoryUsage <= 95. *)
Theorem metrics_clamped (rnd : Q -> Q) (rand : nat -> Q) (n k : nat) :
  Rounding rnd -> (forall i, 0 <= rand i < 1) ->
  Forall (fun e => clamped (snd e))
         (servers (ticks rnd rand k (new_ServerStatus rnd rand n))).
Proof.
  intros Hrnd Hrand. destruct k as [| k].
  - cbn [ticks]. rewrite new_ServerStatus_servers. unfold initialEntries.
    apply Forall_map, Forall_forall. intros i _. cbn [snd].
    apply initial_ranges_clamped. now apply newServerData_ranges.
  - apply ticks_S_Forall. intros. apply updateServer_clamped.
Qed.

Lemma metrics_clamped_witness :
  Forall (fun e => clamped (snd e))
         (servers (ticks round64 (fun _ => 1 # 2) 3
                     (new_ServerStatus round64 (fun _ => 1 # 2) 0))).
Proof.
  apply (metrics_clamped round64 (fun _ => 1 # 2) 0 3).
  - exact round64_Rounding.
  - intros _. split; [discriminate | reflexivity].
Defined.

(** C4, as amended: [initializeServers] makes exactly 45 records; their
    keys are the ids rack<R>-server<S> for R in 0..8 and S in 0..4, each
    exactly once; record number i is computed from its own three draws
    3i, 3i+1, 3i+2 of the random stream, has its key as id, status normal,
    and metrics in the closed ranges 25..45, 20..80 and 30..80. *)
Theorem initialize_45_records (rnd : Q -> Q) (rand : nat -> Q) (n : nat) :
  Rounding rnd -> (forall i, 0 <= rand i < 1) ->
  let m := servers (new_ServerStatus rnd rand n) in
  length m = 45%nat /\
  map fst m = all_ids /\
  NoDup (map fst m) /\
  (forall rack server, (rack < 9)%nat -> (server < 5)%nat ->
     m !! (5 * rack + server)%nat =
     Some (server_id rack server,
           newServerData rnd rand (server_id rack server)
                         (3 * (5 * rack + server) + n))) /\
  Forall (fun e => sd_id (snd e) = fst e /\ status (snd e) = normal /\
                   initial_ranges (snd e)) m.
Proof.
  intros Hrnd Hrand m. subst m. rewrite initial_keys, new_ServerStatus_servers.
  split; [reflexivity |]. split; [reflexivity |]. split; [exact all_ids_NoDup |].
  split.
  - intros rack server Hr Hs. unfold initialEntries.
    rewrite lookup_nth_error, nth_error_map, nth_error_seq.
    destruct (Nat.ltb_spec (5 * rack + server) 45) as [_ | Hge]; [| lia].
    cbn [option_map Nat.add].
    replace ((5 * rack + server) / 5)%nat with rack
      by (apply (Nat.div_unique _ 5 rack server); lia).
    replace ((5 * rack + server) mod 5)%nat with server
      by (apply (Nat.mod_unique _ 5 rack server); lia).
    reflexivity.
  - unfold initialEntries. apply Forall_map, Forall_forall. intros i _. cbn [snd fst].
    split; [reflexivity |]. split; [reflexivity |]. now apply newServerData_ranges.
Qed.

Lemma initialize_45_records_witness :
  let m := servers (new_ServerStatus round64 (fun _ => below_one) 0) in
  length m = 45%nat /\
  map fst m = all_ids /\
  NoDup (map fst m) /\
  (forall rack server, (rack < 9)%nat -> (server < 5)%nat ->
     m !! (5 * rack + server)%nat =
     Some (server_id rack server,
           newServerData round64 (fun _ => below_one) (server_id rack server)
                         (3 * (5 * rack + server) + 0))) /\
  Forall (fun e => sd_id (snd e) = fst e /\ status (snd e) = normal /\
                   initial_ranges (snd e)) m.
Proof.
  apply (initialize_45_records round64 (fun _ => below_one) 0).
  - exact round64_Rounding.
  - intros _. split; [discriminate | reflexivity].
Defined.

(** C4 as stated fails in binary64 arithmetic: when [Math.random()] returns
    the largest value below 1, [r * 20 + 25] rounds to 45 (and the two
    other metrics round to 80), so the upper bounds are reached. *)
Lemma initial_upper_bound_reached :
  0 <= below_one < 1 /\
  ~ Forall (fun e => initial_ranges_open (snd e))
           (servers (new_ServerStatus round64 (fun _ => below_one) 0)).
Proof.
  split; [split; [discriminate | reflexivity] |].
  intros H. rewrite new_ServerStatus_servers in H.
  apply Forall_inv in H. destruct H as [[_ H] _].
  vm_compute in H. discriminate.
Qed.

(** the values of that counterexample are those of binary64 arithmetic:
    the kernel's floats give the same three metrics, 45, 80 and 80 *)
Lemma initial_upper_bound_binary64 :
  let s := newServerData round64 (fun _ => below_one) (server_id 0 0) 0 in
  Float64.Q_of_float Float64.below_one == below_one /\
  Float64.Q_of_float (Float64.initial_temperature Float64.below_one)
    == temperature s /\
  Float64.Q_of_float (Float64.initial_cpuUsage Float64.below_one)
    == cpuUsage s /\
  Float64.Q_of_float (Float64.initial_memoryUsage Float64.below_one)
    == memoryUsage s /\
  temperature s == 45 /\ cpuUsage s == 80 /\ memoryUsage s == 80.
Proof. repeat split; vm_compute; reflexivity. Qed.

(** the temperature reaches 45 for the draw 1 - 2^-52 as well *)
Lemma initial_temperature_45 :
  let r := 4503599627370495 # 4503599627370496 in
  Float64.Q_of_float Float64.below_below_one == r /\
  Float64.Q_of_float (Float64.initial_temperature Float64.below_below_one) == 45 /\
  add round64 (mul round64 r 20) 25 == 45.
Proof. repeat split; vm_compute; reflexivity. Qed.

(** without rounding the upper bounds are not reached: the half-open
    ranges hold of exact arithmetic *)
Lemma initial_ranges_open_exact (rand : nat -> Q) (n : nat) (id : string) :
  (forall i, 0 <= rand i < 1) ->
  initial_ranges_open (newServerData exact rand id n).
Proof.
  intros Hr. unfold initial_ranges_open, newServerData, add, mul, exact.
  cbn [temperature cpuUsage memoryUsage].
  pose proof (Hr n) as H0. pose proof (Hr (1 + n)%nat) as H1.
  pose proof (Hr (2 + n)%nat) as H2.
  repeat split; lra.
Qed.

(** C9: on every store the program reaches, [getServerData] returns for
    every string either the record stored under it (for the 45 ids) or
    [undefined] (for every other string); it is a total lookup that reads
    the map only. *)
Theorem getServerData_record_or_undefined
    (rnd : Q -> Q) (rand : nat -> Q) (n k : nat) (id : string) :
  let this := ticks rnd rand k (new_ServerStatus rnd rand n) in
  match getServerData id this with
  | Some s =>
      sd_id s = id /\ In (id, s) (servers this) /\
      exists rack server, (rack < 9)%nat /\ (server < 5)%nat /\
                          id = server_id rack server
  | None =>
      ~ In id (map fst (servers this)) /\
      forall rack server, (rack < 9)%nat -> (server < 5)%nat ->
                          id <> server_id rack server
  end.
Proof.
  intros this.
  assert (Hkeys : map fst (servers this) = all_ids).
  { unfold this. now rewrite ticks_keys, initial_keys. }
  assert (Hids : Forall (fun e => sd_id (snd e) = fst e) (servers this)).
  { unfold this. apply ticks_ids. rewrite new_ServerStatus_servers.
    apply initialEntries_ids. }
  unfold getServerData. destruct (Map_get id (servers this)) as [s |] eqn:E.
  - apply Map_get_Some in E. split; [| split; [exact E |]].
    + rewrite List.Forall_forall in Hids. exact (Hids _ E).
    + apply all_ids_spec. rewrite <- Hkeys. apply in_map_iff. now exists (id, s).
  - apply Map_get_None in E. split; [exact E |].
    intros rack server Hr Hs ->. apply E. rewrite Hkeys. apply all_ids_spec. eauto.
Qed.


Lemma rnd_between_half (rnd : Q -> Q) (lo hi : Z) (x : Q) :
  Rounding rnd -> (-200 <= lo <= 200)%Z -> (-200 <= hi <= 200)%Z ->
  lo # 2 <= x <= hi # 2 -> lo # 2 <= rnd x <= hi # 2.
Proof.
  intros Hrnd Hlo Hhi [H1 H2]. split.
  - apply Qle_trans with (rnd (lo # 2)).
    + apply Qle_lteq. right. symmetry. now apply (rnd_half rnd Hrnd).
    + now apply (rnd_mono rnd Hrnd).
  - apply Qle_trans with (rnd (hi # 2)).
    + now apply (rnd_mono rnd Hrnd).
    + apply Qle_lteq. right. now apply (rnd_half rnd Hrnd).
Qed.

(** [(Math.random() - 0.5) * scale] lies within [scale / 2] of zero *)
Lemma delta_range (rnd : Q -> Q) (r : Q) (scale : Z) (bound : Q) :
  Rounding rnd -> (0 <= scale <= 100)%Z -> bound == scale # 2 -> 0 <= r < 1 ->
  - bound <= mul rnd (sub rnd r (1 # 2)) (inject_Z scale) <= bound.
Proof.
  intros Hrnd Hs -> [Hr0 Hr1]. unfold mul, sub.
  assert (Hsub : (-1) # 2 <= rnd (r - (1 # 2)) <= 1 # 2).
  { apply (rnd_between_half rnd (-1) 1 _ Hrnd); [lia | lia |]. split; lra. }
  assert (Hsc : 0 <= inject_Z scale) by (unfold Qle, inject_Z; cbn; lia).
  change (- (scale # 2)) with ((- scale) # 2).
  apply (rnd_between_half rnd (- scale) scale _ Hrnd); [lia | lia |].
  destruct Hsub as [H1 H2].
  apply (Qmult_le_compat_r _ _ _ H1) in Hsc as H1'.
  apply (Qmult_le_compat_r _ _ _ H2) in Hsc as H2'.
  split.
  - eapply Qle_trans; [| exact H1']. unfold Qle, Qmult, inject_Z; cbn. lia.
  - eapply Qle_trans; [exact H2' |]. unfold Qle, Qmult, inject_Z; cbn. lia.
Qed.











End TelemetryClaims.

(** * Properties of the interaction *)

(** one goal for each command of a block *)
Ltac commands := repeat first [apply List.Forall_nil | apply List.Forall_cons].

Section Commands.
Import Three DataCenter.

Lemma andThen_eq (a b : Cmd) (this : DataCenter) :
  andThen a b this =
  (fst (b (fst (a this))), snd (a this) ++ snd (b (fst (a this)))).
Proof.
  unfold andThen. destruct (a this) as [this1 t1]. cbn [fst snd].
  now destruct (b this1).
Qed.

Lemma block_cons (c : Cmd) (cs : list Cmd) (this : DataCenter) :
  block (c :: cs) this =
  (fst (block cs (fst (c this))), snd (c this) ++ snd (block cs (fst (c this)))).
Proof. apply andThen_eq. Qed.

Lemma block_nil (this : DataCenter) : block [] this = (this, []).
Proof. reflexivity. Qed.

Lemma applyTrace_app (t1 t2 : list Effect) (m : gmap Ref Material) :
  applyTrace (t1 ++ t2) m = applyTrace t2 (applyTrace t1 m).
Proof. apply fold_left_app. Qed.

Lemma lawful_skip : lawful skip.
Proof. intros this. reflexivity. Qed.

Lemma lawful_write (o : Ref) (a : Assignment) : lawful (write o a).
Proof. intros this. reflexivity. Qed.

Lemma lawful_render (v : View) : lawful (render v).
Proof. intros this. reflexivity. Qed.

Lemma lawful_assign (f : DataCenter -> DataCenter) :
  (forall this, materials (f this) = materials this) -> lawful (assign f).
Proof. intros Hf this. apply Hf. Qed.

Lemma lawful_andThen (a b : Cmd) : lawful a -> lawful b -> lawful (andThen a b).
Proof.
  intros Ha Hb this. rewrite andThen_eq. cbn [fst snd].
  now rewrite applyTrace_app, Hb, Ha.
Qed.

Lemma lawful_block (cs : list Cmd) : Forall lawful cs -> lawful (block cs).
Proof.
  induction 1 as [| c cs Hc _ IH]; [exact lawful_skip |].
  now apply lawful_andThen.
Qed.

Lemma keeps_skip {A : Type} (field : DataCenter -> A) : keeps field skip.
Proof. intros this. reflexivity. Qed.

Lemma keeps_andThen {A : Type} (field : DataCenter -> A) (a b : Cmd) :
  keeps field a -> keeps field b -> keeps field (andThen a b).
Proof.
  intros Ha Hb this. rewrite andThen_eq. cbn [fst]. now rewrite Hb, Ha.
Qed.

Lemma keeps_block {A : Type} (field : DataCenter -> A) (cs : list Cmd) :
  Forall (keeps field) cs -> keeps field (block cs).
Proof.
  induction 1 as [| c cs Hc _ IH]; [apply keeps_skip |].
  now apply keeps_andThen.
Qed.

Lemma keeps_assign {A : Type} (field : DataCenter -> A) (f : DataCenter -> DataCenter) :
  (forall this, field (f this) = field this) -> keeps field (assign f).
Proof. intros Hf this. apply Hf. Qed.

Lemma keeps_write {A : Type} (field : DataCenter -> A) (o : Ref) (a : Assignment) :
  plain field -> keeps field (write o a).
Proof. intros [Hm _] this. apply Hm. Qed.

Lemma keeps_render {A : Type} (field : DataCenter -> A) (v : View) :
  plain field -> keeps field (render v).
Proof. intros [_ Hi] this. apply Hi. Qed.

Lemma plain_serverStatus : plain serverStatus.
Proof. now split. Qed.
Lemma plain_servers : plain servers.
Proof. now split. Qed.
Lemma plain_racks : plain racks.
Proof. now split. Qed.
Lemma plain_children : plain children.
Proof. now split. Qed.
Lemma plain_selectedServer : plain selectedServer.
Proof. now split. Qed.
Lemma plain_hoveredRack : plain hoveredRack.
Proof. now split. Qed.
Lemma plain_hoveredServer : plain hoveredServer.
Proof. now split. Qed.

Lemma keeps_showServerInfo {A : Type} (field : DataCenter -> A) (data : ServerStatus.ServerData) :
  plain field -> keeps field (showServerInfo data).
Proof. intros H this. unfold showServerInfo. now apply keeps_render. Qed.

Lemma keeps_showRackInfo {A : Type} (field : DataCenter -> A) (i : option nat) :
  plain field -> keeps field (showRackInfo i).
Proof. intros H this. unfold showRackInfo. now apply keeps_render. Qed.

Lemma lawful_showServerInfo (data : ServerStatus.ServerData) : lawful (showServerInfo data).
Proof. intros this. reflexivity. Qed.

Lemma lawful_showRackInfo (i : option nat) : lawful (showRackInfo i).
Proof. intros this. reflexivity. Qed.

Lemma keeps_restoreHoveredRack {A : Type} (field : DataCenter -> A) :
  plain field -> keeps field restoreHoveredRack.
Proof.
  intros H this. unfold restoreHoveredRack.
  destruct (hoveredRack this) as [rack |]; [| reflexivity].
  destruct (findIndex _ _); [now apply keeps_write | reflexivity].
Qed.

Lemma keeps_restoreHoveredServer {A : Type} (field : DataCenter -> A) :
  plain field -> keeps field restoreHoveredServer.
Proof.
  intros H this. unfold restoreHoveredServer.
  destruct (hoveredServer this) as [server |]; [| reflexivity].
  destruct (bool_decide _); [now apply keeps_write | reflexivity].
Qed.

Lemma lawful_restoreHoveredRack : lawful restoreHoveredRack.
Proof.
  intros this. unfold restoreHoveredRack.
  destruct (hoveredRack this) as [rack |]; [| reflexivity].
  destruct (findIndex _ _); reflexivity.
Qed.

Lemma lawful_restoreHoveredServer : lawful restoreHoveredServer.
Proof.
  intros this. unfold restoreHoveredServer.
  destruct (hoveredServer this) as [server |]; [| reflexivity].
  destruct (bool_decide _); reflexivity.
Qed.

(** [hover] changes neither the telemetry, nor the scene, nor the
    selection *)
Lemma keeps_hover {A : Type} (field : DataCenter -> A) (ray : list Ref) :
  plain field ->
  (forall v this, field (set_hoveredRack v this) = field this) ->
  (forall v this, field (set_hoveredServer v this) = field this) ->
  keeps field (hover ray).
Proof.
  intros H Hr Hs this. unfold hover.
  destruct (intersectObjects _ _ _ _) as [| hit rest].
  - apply keeps_block. commands.
    + now apply keeps_assign.
    + now apply keeps_assign.
    + now apply keeps_render.
  - destruct (deref _ _) as [target |]; [| reflexivity].
    destruct (ud_isRackCase _).
    + apply keeps_block. commands.
      * now apply keeps_assign.
      * now apply keeps_write.
      * now apply keeps_showRackInfo.
    + destruct (truthy _); [| reflexivity].
      apply keeps_block. commands.
      * now apply keeps_assign.
      * intros this'. destruct (bool_decide _); [now apply keeps_write | reflexivity].
      * intros this'. destruct (_ ≫= _); [now apply keeps_showServerInfo | reflexivity].
Qed.

Lemma lawful_hover (ray : list Ref) : lawful (hover ray).
Proof.
  intros this. unfold hover.
  destruct (intersectObjects _ _ _ _) as [| hit rest].
  - apply lawful_block. commands.
    + apply lawful_assign; reflexivity.
    + apply lawful_assign; reflexivity.
    + apply lawful_render.
  - destruct (deref _ _) as [target |]; [| reflexivity].
    destruct (ud_isRackCase _).
    + apply lawful_block. commands.
      * apply lawful_assign; reflexivity.
      * apply lawful_write.
      * apply lawful_showRackInfo.
    + destruct (truthy _); [| reflexivity].
      apply lawful_block. commands.
      * apply lawful_assign; reflexivity.
      * intros this'. destruct (bool_decide _); reflexivity.
      * intros this'. destruct (_ ≫= _); reflexivity.
Qed.

Lemma keeps_handleMouseMove {A : Type} (field : DataCenter -> A) (ray : list Ref) :
  plain field ->
  (forall v this, field (set_hoveredRack v this) = field this) ->
  (forall v this, field (set_hoveredServer v this) = field this) ->
  keeps field (handleMouseMove ray).
Proof.
  intros H Hr Hs. apply keeps_block. commands.
  - now apply keeps_restoreHoveredRack.
  - now apply keeps_restoreHoveredServer.
  - now apply keeps_hover.
Qed.

Lemma lawful_handleMouseMove (ray : list Ref) : lawful (handleMouseMove ray).
Proof.
  apply lawful_block. commands.
  - apply lawful_restoreHoveredRack.
  - apply lawful_restoreHoveredServer.
  - apply lawful_hover.
Qed.

End Commands.

Section Scene.
Import Three DataCenter.

Lemma scene_pickCheck :
  forallb pickCheck (tested sceneRoot (interactiveObjects sceneRoot) true) = true.
Proof. vm_compute. reflexivity. Qed.

Lemma scene_serverCheck : forallb serverCheck sceneServers = true.
Proof. vm_compute. reflexivity. Qed.

Lemma scene_lightsApart : lightsApart sceneServers = true.
Proof. vm_compute. reflexivity. Qed.

Lemma scene_clickCheck :
  forallb clickCheck (tested sceneRoot (serverMeshes sceneRoot) true) = true.
Proof. vm_compute. reflexivity. Qed.

Lemma scene_serverMeshes : serverMeshes sceneRoot = map snd sceneServers.
Proof. vm_compute. reflexivity. Qed.

Lemma scene_servers_NoDup : NoDup (map snd sceneServers).
Proof. apply (bool_decide_unpack _). vm_compute. exact I. Qed.

Lemma new_DataCenter_children rnd rand n :
  children (new_DataCenter rnd rand n) = sceneChildren.
Proof. vm_compute. reflexivity. Qed.

Lemma new_DataCenter_servers rnd rand n :
  servers (new_DataCenter rnd rand n) = sceneServers.
Proof. vm_compute. reflexivity. Qed.

Lemma new_DataCenter_racks rnd rand n :
  racks (new_DataCenter rnd rand n) = sceneRacks.
Proof. vm_compute. reflexivity. Qed.

Lemma new_DataCenter_materials rnd rand n :
  materials (new_DataCenter rnd rand n) = materialsOf sceneRoot.
Proof. vm_compute. reflexivity. Qed.

(** the first object [intersectObjects] returns is one it tested *)
Lemma first_hit (root : Object3D) (ray objects : list Ref) (recursive : bool)
    (hit : Ref) (rest : list Ref) :
  intersectObjects root ray objects recursive = hit :: rest ->
  In hit (tested root objects recursive).
Proof.
  unfold intersectObjects. intros E.
  assert (H : In hit (hit :: rest)) by now left.
  rewrite <- E in H. apply filter_In in H as [_ H].
  apply existsb_exists in H as (x & Hx & Heq).
  unfold Ref_eqb in Heq. apply bool_decide_eq_true in Heq. now subst.
Qed.

End Scene.

Section Selection.
Import Three DataCenter.

Lemma spares_opacity sel o v : spares sel (Write o (SetOpacity v)).
Proof. intros s w _. discriminate. Qed.

Lemma spares_color sel o v : spares sel (Write o (SetColor v)).
Proof. intros s w _. discriminate. Qed.

Lemma spares_uniform sel o v : spares sel (Write o (SetUniformTemperature v)).
Proof. intros s w _. discriminate. Qed.

Lemma spares_render sel v : spares sel (Render v).
Proof. intros s w _. discriminate. Qed.

Lemma spares_other sel o v : Some o <> sel -> spares sel (Write o (SetWireframe v)).
Proof. intros Hne s w -> [= ->]. now apply Hne. Qed.

Lemma restoreHoveredRack_spares this :
  Forall (spares (selectedServer this)) (snd (restoreHoveredRack this)).
Proof.
  unfold restoreHoveredRack.
  destruct (hoveredRack this) as [rack |]; [| constructor].
  destruct (findIndex _ _); [| constructor].
  repeat constructor. apply spares_opacity.
Qed.

Lemma restoreHoveredServer_spares this :
  Forall (spares (selectedServer this)) (snd (restoreHoveredServer this)).
Proof.
  unfold restoreHoveredServer.
  destruct (hoveredServer this) as [server |] eqn:E; [| constructor].
  destruct (bool_decide _) eqn:B; [| constructor].
  apply bool_decide_eq_true in B. repeat constructor. now apply spares_other.
Qed.

Lemma hover_spares ray this :
  Forall (spares (selectedServer this)) (snd (hover ray this)).
Proof.
  unfold hover.
  destruct (intersectObjects _ _ _ _) as [| hit rest].
  - cbn. repeat constructor. apply spares_render.
  - destruct (deref _ _) as [target |]; [| constructor].
    destruct (ud_isRackCase _).
    + cbn. repeat constructor; [apply spares_opacity | apply spares_render].
    + destruct (truthy _); [| constructor].
      rewrite !block_cons, block_nil. cbn [assign fst snd app].
      set (t := resolve _ _ _).
      change (hoveredServer (set_hoveredServer (Some t) this)) with (Some t).
      change (selectedServer (set_hoveredServer (Some t) this)) with (selectedServer this).
      rewrite app_nil_r. apply Forall_app. split.
      * destruct (bool_decide _) eqn:B; [| constructor].
        apply bool_decide_eq_true in B. repeat constructor. now apply spares_other.
      * destruct (_ ≫= _); [| constructor].
        repeat constructor. apply spares_render.
Qed.

(** [handleMouseMove] assigns nothing to the wireframe flag of the selected
    server *)
Lemma handleMouseMove_spares ray this :
  Forall (spares (selectedServer this)) (snd (handleMouseMove ray this)).
Proof.
  unfold handleMouseMove. rewrite !block_cons, block_nil. cbn [fst snd].
  rewrite app_nil_r. apply Forall_app. split; [apply restoreHoveredRack_spares |].
  apply Forall_app. split.
  - rewrite <- (keeps_restoreHoveredRack selectedServer plain_selectedServer this).
    apply restoreHoveredServer_spares.
  - rewrite <- (keeps_restoreHoveredRack selectedServer plain_selectedServer this).
    rewrite <- (keeps_restoreHoveredServer selectedServer plain_selectedServer
                  (fst (restoreHoveredRack this))).
    apply hover_spares.
Qed.

(** assignments that spare the wireframe flag of [s] leave it as it is *)
Lemma applyTrace_spared (t : list Effect) (m : gmap Ref Material) (s : Ref) :
  Forall (spares (Some s)) t ->
  wireframe <$> applyTrace t m !! s = wireframe <$> m !! s.
Proof.
  revert m. induction t as [| e t IH]; intros m Ht; [reflexivity |].
  apply Forall_cons in Ht as [He Ht]. cbn [applyTrace fold_left].
  change (fold_left _ t ?x) with (applyTrace t x). rewrite (IH _ Ht).
  destruct e as [o a | v]; [| reflexivity]. cbn [applyEffect].
  destruct (decide (o = s)) as [-> | Hne]; [| now rewrite lookup_alter_ne].
  rewrite lookup_alter_eq. destruct (m !! s) as [mat |]; [| reflexivity].
  destruct a; try reflexivity. exfalso. now apply (He s v).
Qed.

Lemma applyTrace_dom (t : list Effect) (m : gmap Ref Material) :
  dom (applyTrace t m) = dom m.
Proof.
  revert m. induction t as [| e t IH]; intros m; [reflexivity |].
  cbn [applyTrace fold_left]. change (fold_left _ t ?x) with (applyTrace t x).
  rewrite IH. destruct e; [apply dom_alter_L | reflexivity].
Qed.

End Selection.

Section Invariant.
Import Three DataCenter.

#[local] Arguments sceneRoot : simpl never.
#[local] Arguments sceneServers : simpl never.
#[local] Arguments sceneRacks : simpl never.
#[local] Arguments sceneChildren : simpl never.
#[local] Arguments deref : simpl never.
#[local] Arguments resolve : simpl never.
#[local] Arguments intersectObjects : simpl never.
#[local] Arguments interactiveObjects : simpl never.
#[local] Arguments serverMeshes : simpl never.
#[local] Arguments materialsOf : simpl never.

Variable rnd : Q -> Q.
Variable rand : nat -> Q.
Variable recursiveDefault : bool.

Lemma wf_root this : wf this -> root this = sceneRoot.
Proof. intros H. unfold root, sceneRoot. now rewrite (wf_children _ H). Qed.

Lemma In_existsb_Ref (r : Ref) (l : list Ref) : existsb (Ref_eqb r) l = true -> In r l.
Proof.
  intros H. apply existsb_exists in H as (x & Hx & E).
  apply bool_decide_eq_true in E. now subst.
Qed.

Lemma In_existsb_string (x : string) (l : list string) :
  existsb (String.eqb x) l = true -> In x l.
Proof.
  intros H. apply existsb_exists in H as (y & Hy & E).
  apply String.eqb_eq in E. now subst.
Qed.

(** the pick on a reachable state, for the first intersected object *)
Lemma pick_facts this ray hit rest :
  wf this ->
  intersectObjects (root this) ray (interactiveObjects (root this)) true
    = hit :: rest ->
  pickCheck hit = true.
Proof.
  intros Hwf E. rewrite (wf_root _ Hwf) in E. apply first_hit in E.
  pose proof scene_pickCheck as H. rewrite forallb_forall in H. now apply H.
Qed.

(** a registered server mesh on a reachable state *)
Lemma server_facts (mesh : Ref) :
  In mesh (map snd sceneServers) ->
  exists id, In (id, mesh) sceneServers /\ serverCheck (id, mesh) = true.
Proof.
  intros H. apply in_map_iff in H as ([id mesh'] & E & H). cbn in E. subst mesh'.
  exists id. split; [exact H |].
  pose proof scene_serverCheck as C. rewrite forallb_forall in C. now apply C.
Qed.

Lemma record_exists this id :
  wf this -> In id ServerStatus.all_ids ->
  exists data, ServerStatus.getServerData id (serverStatus this) = Some data.
Proof.
  intros Hwf Hid. unfold ServerStatus.getServerData.
  destruct (ServerStatus.Map_get id _) as [data |] eqn:E; [now exists data |].
  apply Map_get_None in E. exfalso. apply E.
  now rewrite (proj1 (wf_records _ Hwf)).
Qed.

Lemma record_id this id data :
  wf this -> ServerStatus.getServerData id (serverStatus this) = Some data ->
  ServerStatus.sd_id data = id.
Proof.
  intros Hwf E. apply Map_get_Some in E.
  pose proof (proj2 (wf_records _ Hwf)) as H. rewrite List.Forall_forall in H.
  exact (H _ E).
Qed.

Lemma hover_hoveredServer ray this :
  wf this ->
  forall s, hoveredServer (fst (hover ray this)) = Some s ->
            In s (map snd sceneServers).
Proof.
  intros Hwf s. unfold hover.
  destruct (intersectObjects _ _ _ _) as [| hit rest] eqn:E; [discriminate |].
  pose proof (pick_facts _ _ _ _ Hwf E) as P. unfold pickCheck in P.
  rewrite (wf_root _ Hwf), (wf_servers _ Hwf).
  destruct (deref sceneRoot hit) as [h |]; [| discriminate].
  destruct (deref sceneRoot (resolve sceneRoot sceneServers hit)) as [target |];
    [| discriminate].
  destruct (ud_isRackCase (userData target)).
  - rewrite (keeps_block hoveredServer); [now apply (wf_hoveredServer _ Hwf) |].
    commands; [now apply keeps_assign | now apply keeps_write, plain_hoveredServer
              | now apply keeps_showRackInfo, plain_hoveredServer].
  - destruct (ud_id (userData target)) as [id |]; [| discriminate].
    apply andb_prop in P as [P _]. apply andb_prop in P as [P _].
    apply andb_prop in P as [Ht Hget]. rewrite Ht.
    apply bool_decide_eq_true in Hget. apply Map_get_Some in Hget.
    rewrite block_cons. cbn [fst assign].
    rewrite (keeps_block hoveredServer).
    + cbn. intros [= <-]. apply in_map_iff. now exists (id, resolve sceneRoot sceneServers hit).
    + commands.
      * intros this'. destruct (bool_decide _);
          [now apply keeps_write, plain_hoveredServer | reflexivity].
      * intros this'. destruct (_ ≫= _);
          [now apply keeps_showServerInfo, plain_hoveredServer | reflexivity].
Qed.

Lemma hover_hoveredRack ray this :
  wf this ->
  forall r, hoveredRack (fst (hover ray this)) = Some r ->
            In r (map snd sceneRacks).
Proof.
  intros Hwf r. unfold hover.
  destruct (intersectObjects _ _ _ _) as [| hit rest] eqn:E; [discriminate |].
  pose proof (pick_facts _ _ _ _ Hwf E) as P. unfold pickCheck in P.
  rewrite (wf_root _ Hwf), (wf_servers _ Hwf).
  destruct (deref sceneRoot hit) as [h |]; [| discriminate].
  destruct (deref sceneRoot (resolve sceneRoot sceneServers hit)) as [target |];
    [| discriminate].
  destruct (ud_isRackCase (userData target)).
  - apply andb_prop in P as [_ P].
    destruct (resolve sceneRoot sceneServers hit) as [| i rack]; [discriminate |].
    apply andb_prop in P as [P _]. apply andb_prop in P as [P _].
    apply andb_prop in P as [_ P]. apply In_existsb_Ref in P.
    rewrite block_cons. cbn [fst assign].
    rewrite (keeps_block hoveredRack).
    + cbn. now intros [= <-].
    + commands; [now apply keeps_write, plain_hoveredRack
                | now apply keeps_showRackInfo, plain_hoveredRack].
  - clear P. destruct (truthy _); [| now apply (wf_hoveredRack _ Hwf)].
    rewrite (keeps_block hoveredRack); [now apply (wf_hoveredRack _ Hwf) |].
    commands.
    + now apply keeps_assign.
    + intros this'. destruct (bool_decide _);
        [now apply keeps_write, plain_hoveredRack | reflexivity].
    + intros this'. destruct (_ ≫= _);
        [now apply keeps_showServerInfo, plain_hoveredRack | reflexivity].
Qed.

(** a command that changes the materials by assignments sparing the
    selected server, and keeps the scene, the records' keys and the
    selection, preserves the invariant once the hovered objects are known *)
Lemma wf_step (c : Cmd) this :
  wf this ->
  keeps children c -> keeps servers c -> keeps racks c ->
  keeps selectedServer c -> lawful c ->
  records_ok (serverStatus (fst (c this))) ->
  Forall (spares (selectedServer this)) (snd (c this)) ->
  (forall s, hoveredServer (fst (c this)) = Some s -> In s (map snd sceneServers)) ->
  (forall r, hoveredRack (fst (c this)) = Some r -> In r (map snd sceneRacks)) ->
  wf (fst (c this)).
Proof.
  intros Hwf Hc Hs Hr Hsel Hlaw Hkeys Hsp Hhs Hhr. constructor.
  - rewrite Hc. apply (wf_children _ Hwf).
  - rewrite Hs. apply (wf_servers _ Hwf).
  - rewrite Hr. apply (wf_racks _ Hwf).
  - rewrite Hsel. apply (wf_selected _ Hwf).
  - exact Hhs.
  - exact Hhr.
  - rewrite Hlaw, applyTrace_dom. apply (wf_materials _ Hwf).
  - exact Hkeys.
  - rewrite Hsel, Hlaw. intros s E. rewrite E in Hsp.
    rewrite (applyTrace_spared _ _ _ Hsp). now apply (wf_selected_wireframe _ Hwf).
Qed.

Lemma wf_restoreHoveredRack this : wf this -> wf (fst (restoreHoveredRack this)).
Proof.
  intros Hwf. apply wf_step; try exact Hwf.
  - apply keeps_restoreHoveredRack, plain_children.
  - apply keeps_restoreHoveredRack, plain_servers.
  - apply keeps_restoreHoveredRack, plain_racks.
  - apply keeps_restoreHoveredRack, plain_selectedServer.
  - apply lawful_restoreHoveredRack.
  - rewrite (keeps_restoreHoveredRack serverStatus plain_serverStatus).
    apply (wf_records _ Hwf).
  - apply restoreHoveredRack_spares.
  - rewrite (keeps_restoreHoveredRack hoveredServer plain_hoveredServer).
    apply (wf_hoveredServer _ Hwf).
  - rewrite (keeps_restoreHoveredRack hoveredRack plain_hoveredRack).
    apply (wf_hoveredRack _ Hwf).
Qed.

Lemma wf_restoreHoveredServer this : wf this -> wf (fst (restoreHoveredServer this)).
Proof.
  intros Hwf. apply wf_step; try exact Hwf.
  - apply keeps_restoreHoveredServer, plain_children.
  - apply keeps_restoreHoveredServer, plain_servers.
  - apply keeps_restoreHoveredServer, plain_racks.
  - apply keeps_restoreHoveredServer, plain_selectedServer.
  - apply lawful_restoreHoveredServer.
  - rewrite (keeps_restoreHoveredServer serverStatus plain_serverStatus).
    apply (wf_records _ Hwf).
  - apply restoreHoveredServer_spares.
  - rewrite (keeps_restoreHoveredServer hoveredServer plain_hoveredServer).
    apply (wf_hoveredServer _ Hwf).
  - rewrite (keeps_restoreHoveredServer hoveredRack plain_hoveredRack).
    apply (wf_hoveredRack _ Hwf).
Qed.

Lemma wf_hover ray this : wf this -> wf (fst (hover ray this)).
Proof.
  intros Hwf. apply wf_step; try exact Hwf.
  - now apply keeps_hover; [apply plain_children | |].
  - now apply keeps_hover; [apply plain_servers | |].
  - now apply keeps_hover; [apply plain_racks | |].
  - now apply keeps_hover; [apply plain_selectedServer | |].
  - apply lawful_hover.
  - rewrite (keeps_hover serverStatus);
      [apply (wf_records _ Hwf) | apply plain_serverStatus | |]; reflexivity.
  - apply hover_spares.
  - now apply hover_hoveredServer.
  - now apply hover_hoveredRack.
Qed.

Lemma handleMouseMove_eq ray this :
  handleMouseMove ray this =
  let this1 := fst (restoreHoveredRack this) in
  let this2 := fst (restoreHoveredServer this1) in
  (fst (hover ray this2),
   snd (restoreHoveredRack this) ++ snd (restoreHoveredServer this1) ++
   snd (hover ray this2)).
Proof.
  unfold handleMouseMove. rewrite !block_cons, block_nil. cbn [fst snd].
  now rewrite app_nil_r.
Qed.

Lemma wf_handleMouseMove ray this : wf this -> wf (fst (handleMouseMove ray this)).
Proof.
  intros Hwf. rewrite handleMouseMove_eq. cbn [fst].
  now apply wf_hover, wf_restoreHoveredServer, wf_restoreHoveredRack.
Qed.

(** what the click tests against the ray on a reachable state *)
Lemma click_tested this clicked :
  wf this ->
  In clicked (tested (root this) (serverMeshes (root this)) recursiveDefault) ->
  In clicked (map snd sceneServers) \/
  truthy (userDataAt (root this) clicked ≫= ud_id) = false.
Proof.
  intros Hwf Hin. rewrite (wf_root _ Hwf) in *.
  destruct recursiveDefault.
  - pose proof scene_clickCheck as C. rewrite forallb_forall in C.
    specialize (C _ Hin). unfold clickCheck in C.
    apply orb_prop in C as [C | C].
    + left. now apply In_existsb_Ref.
    + right. now apply negb_true_iff.
  - left. cbn [tested] in Hin. now rewrite scene_serverMeshes in Hin.
Qed.

(** the click on a reachable state, when the first intersected object has
    an id: it is a registered server mesh whose record exists, and
    [handleClick] selects it *)
Lemma handleClick_hit this ray clicked rest :
  wf this ->
  intersectObjects (root this) ray (serverMeshes (root this)) recursiveDefault
    = clicked :: rest ->
  truthy (userDataAt (root this) clicked ≫= ud_id) = true ->
  exists id data,
    In (id, clicked) sceneServers /\
    userDataAt (root this) clicked ≫= ud_id = Some id /\
    ServerStatus.getServerData id (serverStatus this) = Some data /\
    ServerStatus.sd_id data = id /\
    is_Some (materials this !! clicked) /\
    handleClick recursiveDefault ray this = select clicked data this.
Proof.
  intros Hwf E T. pose proof (first_hit _ _ _ _ _ _ E) as Hin.
  destruct (click_tested _ _ Hwf Hin) as [Hs | Hf]; [| congruence].
  destruct (server_facts _ Hs) as (id & Hid & C).
  unfold serverCheck in C.
  destruct (deref sceneRoot clicked) as [o |] eqn:D; [| discriminate].
  repeat (apply andb_prop in C as [C ?]).
  repeat match goal with
         | H : bool_decide _ = true |- _ => apply bool_decide_eq_true in H
         end.
  match goal with H : existsb _ _ = true |- _ => apply In_existsb_string in H end.
  destruct (record_exists this id Hwf) as [data Hdata]; [assumption |].
  exists id, data.
  assert (U : userDataAt (root this) clicked ≫= ud_id = Some id).
  { unfold userDataAt. rewrite (wf_root _ Hwf), D. cbn. assumption. }
  split; [exact Hid |]. split; [exact U |]. split; [exact Hdata |].
  split; [now apply (record_id this) |]. split.
  - apply elem_of_dom. rewrite (wf_materials _ Hwf). now apply elem_of_dom.
  - unfold handleClick. rewrite E. cbn zeta. rewrite U.
    match goal with H : truthy (Some id) = true |- _ => rewrite H end.
    cbn [mbind option_bind]. now rewrite Hdata.
Qed.

(** the click when the first intersected object has no id *)
Lemma handleClick_miss this ray clicked rest :
  intersectObjects (root this) ray (serverMeshes (root this)) recursiveDefault
    = clicked :: rest ->
  truthy (userDataAt (root this) clicked ≫= ud_id) = false ->
  handleClick recursiveDefault ray this = (this, []).
Proof. intros E T. unfold handleClick. rewrite E. cbn zeta. now rewrite T. Qed.

Lemma select_eq clicked data this :
  select clicked data this =
  let m1 := match selectedServer this with
            | Some selected => alter (assigned (SetWireframe false)) selected
                                     (materials this)
            | None => materials this
            end in
  let view := ServerInfo (brandOr (ServerStatus.Map_get (ServerStatus.sd_id data)
                                     (servers this) ≫= userDataAt (root this))
                                  "未知品牌") data in
  (set_info (Some view)
     (set_materials (alter (assigned (SetWireframe true)) clicked m1)
        (set_selectedServer (Some clicked) this)),
   match selectedServer this with
   | Some selected => [Write selected (SetWireframe false)]
   | None => []
   end ++ [Write clicked (SetWireframe true); Render view]).
Proof.
  unfold select. rewrite !block_cons, block_nil.
  destruct this as [st sv rk sel hr hs ch m i]. cbn [selectedServer materials].
  destruct sel as [selected |]; reflexivity.
Qed.

Lemma wf_select clicked data this :
  wf this -> In clicked (map snd sceneServers) -> is_Some (materials this !! clicked) ->
  wf (fst (select clicked data this)).
Proof.
  intros Hwf Hin [mat Hmat]. rewrite select_eq. cbn zeta. cbn [fst].
  constructor; cbn.
  - apply (wf_children _ Hwf).
  - apply (wf_servers _ Hwf).
  - apply (wf_racks _ Hwf).
  - now intros s [= <-].
  - apply (wf_hoveredServer _ Hwf).
  - apply (wf_hoveredRack _ Hwf).
  - rewrite dom_alter_L. destruct (selectedServer this);
      [rewrite dom_alter_L |]; apply (wf_materials _ Hwf).
  - apply (wf_records _ Hwf).
  - intros s [= <-]. rewrite lookup_alter_eq.
    destruct (selectedServer this) as [selected |].
    + destruct (decide (selected = clicked)) as [-> | Hne].
      * now rewrite lookup_alter_eq, Hmat.
      * now rewrite lookup_alter_ne, Hmat.
    + now rewrite Hmat.
Qed.

Lemma wf_handleClick ray this :
  wf this -> wf (fst (handleClick recursiveDefault ray this)).
Proof.
  intros Hwf.
  destruct (intersectObjects (root this) ray (serverMeshes (root this))
              recursiveDefault) as [| clicked rest] eqn:E.
  - unfold handleClick. now rewrite E.
  - destruct (truthy (userDataAt (root this) clicked ≫= ud_id)) eqn:T.
    + destruct (handleClick_hit _ _ _ _ Hwf E T)
        as (id & data & Hid & _ & _ & _ & Hm & ->).
      apply wf_select; [exact Hwf | | exact Hm].
      apply in_map_iff. now exists (id, clicked).
    + now rewrite (handleClick_miss _ _ _ _ E T).
Qed.

(** the callback of [update] for one server, in closed form *)
Lemma updateMesh_eq id mesh this :
  updateMesh rnd id mesh this =
  match ServerStatus.getServerData id (serverStatus this) with
  | Some data =>
      let m1 := alter (assigned (SetUniformTemperature
                         (rnd (rnd (ServerStatus.temperature data - 20) / 30))))
                      mesh (materials this) in
      let hex := statusHex (ServerStatus.status data) in
      match nth_error (childrenAt (root this) mesh) 0 with
      | Some _ =>
          (set_materials (alter (assigned (SetColor hex)) (0%nat :: mesh) m1) this,
           [Write mesh (SetUniformTemperature
                          (rnd (rnd (ServerStatus.temperature data - 20) / 30)));
            Write (0%nat :: mesh) (SetColor hex)])
      | None =>
          (set_materials m1 this,
           [Write mesh (SetUniformTemperature
                          (rnd (rnd (ServerStatus.temperature data - 20) / 30)))])
      end
  | None => (this, [])
  end.
Proof.
  unfold updateMesh. destruct (ServerStatus.getServerData _ _) as [data |]; [| reflexivity].
  rewrite !block_cons, block_nil. cbn [write fst snd].
  change (root (set_materials ?m this)) with (root this).
  destruct (nth_error _ 0); reflexivity.
Qed.

Lemma lawful_updateMesh id mesh : lawful (updateMesh rnd id mesh).
Proof.
  intros this. rewrite updateMesh_eq.
  destruct (ServerStatus.getServerData _ _); [| reflexivity].
  cbn zeta. destruct (nth_error _ 0); reflexivity.
Qed.

Lemma keeps_updateMesh {A : Type} (field : DataCenter -> A) id mesh :
  plain field -> keeps field (updateMesh rnd id mesh).
Proof.
  intros [H _] this. rewrite updateMesh_eq.
  destruct (ServerStatus.getServerData _ _); [| reflexivity].
  cbn zeta. destruct (nth_error _ 0); apply H.
Qed.

Lemma updateMesh_trace id mesh this :
  Forall (meshWrite mesh) (snd (updateMesh rnd id mesh this)).
Proof.
  rewrite updateMesh_eq. destruct (ServerStatus.getServerData _ _); [| constructor].
  cbn zeta. destruct (nth_error _ 0); cbn [snd].
  - apply List.Forall_cons; [left; eauto |].
    apply List.Forall_cons; [right; eauto | constructor].
  - apply List.Forall_cons; [left; eauto | constructor].
Qed.

Lemma block_trace (Q : Effect -> Prop) (cs : list Cmd) :
  Forall (fun c => forall this, Forall Q (snd (c this))) cs ->
  forall this, Forall Q (snd (block cs this)).
Proof.
  induction 1 as [| c cs Hc _ IH]; intros this; [constructor |].
  rewrite block_cons. cbn [snd]. apply Forall_app. split; [apply Hc | apply IH].
Qed.

Lemma meshWrite_spares mesh sel e : meshWrite mesh e -> spares sel e.
Proof. intros [[v ->] | [st ->]]; [apply spares_uniform | apply spares_color]. Qed.

Lemma update_eq this :
  update rnd rand this =
  let this1 := set_serverStatus
                 (ServerStatus.updateServerStatus rnd rand (serverStatus this)) this in
  block (map (fun e => updateMesh rnd (fst e) (snd e)) (servers this)) this1.
Proof.
  unfold update. rewrite !block_cons, block_nil. cbn [assign fst snd app].
  rewrite app_nil_r. cbn zeta.
  change (servers (set_serverStatus ?v this)) with (servers this).
  now destruct (block _ _).
Qed.

Lemma Forall_updateMesh (P : Cmd -> Prop) (l : list (string * Ref)) :
  (forall id mesh, P (updateMesh rnd id mesh)) ->
  Forall P (map (fun e => updateMesh rnd (fst e) (snd e)) l).
Proof. intros H. apply Forall_map, List.Forall_forall. intros e _. apply H. Qed.

Lemma keeps_update {A : Type} (field : DataCenter -> A) :
  plain field -> (forall v this, field (set_serverStatus v this) = field this) ->
  keeps field (update rnd rand).
Proof.
  intros H Hs this. rewrite update_eq. cbn zeta.
  rewrite (keeps_block field); [apply Hs |].
  apply Forall_updateMesh. intros. now apply keeps_updateMesh.
Qed.

Lemma lawful_update : lawful (update rnd rand).
Proof.
  intros this. rewrite update_eq. cbn zeta.
  rewrite (lawful_block _ (Forall_updateMesh lawful _ lawful_updateMesh)).
  reflexivity.
Qed.

Lemma update_serverStatus this :
  serverStatus (fst (update rnd rand this)) =
  ServerStatus.updateServerStatus rnd rand (serverStatus this).
Proof.
  rewrite update_eq. cbn zeta.
  rewrite (keeps_block serverStatus); [reflexivity |].
  apply Forall_updateMesh. intros. apply keeps_updateMesh, plain_serverStatus.
Qed.

Lemma update_trace this :
  Forall (fun e => exists mesh, meshWrite mesh e) (snd (update rnd rand this)).
Proof.
  rewrite update_eq. cbn zeta. apply block_trace.
  apply Forall_map, List.Forall_forall. intros [id mesh] _ this'. cbn [fst snd].
  eapply List.Forall_impl; [| apply updateMesh_trace]. intros e He. now exists mesh.
Qed.

Lemma records_ok_update st :
  records_ok st -> records_ok (ServerStatus.updateServerStatus rnd rand st).
Proof.
  intros [Hk Hi]. split; rewrite updateServerStatus_servers.
  - now rewrite forEach_update_keys.
  - now apply forEach_update_ids.
Qed.

Lemma wf_update this : wf this -> wf (fst (update rnd rand this)).
Proof.
  intros Hwf. apply wf_step; try exact Hwf.
  - now apply keeps_update; [apply plain_children |].
  - now apply keeps_update; [apply plain_servers |].
  - now apply keeps_update; [apply plain_racks |].
  - now apply keeps_update; [apply plain_selectedServer |].
  - apply lawful_update.
  - rewrite update_serverStatus. apply records_ok_update, (wf_records _ Hwf).
  - eapply List.Forall_impl; [| apply update_trace].
    intros e [mesh He]. now apply (meshWrite_spares mesh).
  - rewrite (keeps_update hoveredServer plain_hoveredServer); [| reflexivity].
    apply (wf_hoveredServer _ Hwf).
  - rewrite (keeps_update hoveredRack plain_hoveredRack); [| reflexivity].
    apply (wf_hoveredRack _ Hwf).
Qed.

Lemma wf_new n : wf (new_DataCenter rnd rand n).
Proof.
  constructor.
  - apply new_DataCenter_children.
  - apply new_DataCenter_servers.
  - apply new_DataCenter_racks.
  - discriminate.
  - discriminate.
  - discriminate.
  - now rewrite new_DataCenter_materials.
  - change (serverStatus (new_DataCenter rnd rand n))
      with (ServerStatus.new_ServerStatus rnd rand n).
    split; [apply initial_keys |].
    rewrite new_ServerStatus_servers. apply initialEntries_ids.
  - discriminate.
Qed.

Lemma applyTrace_other (t : list Effect) (m : gmap Ref Material) (k : Ref) :
  Forall (fun e => forall a, e <> Write k a) t -> applyTrace t m !! k = m !! k.
Proof.
  revert m. induction t as [| e t IH]; intros m Ht; [reflexivity |].
  apply Forall_cons in Ht as [He Ht]. cbn [applyTrace fold_left].
  change (fold_left _ t ?x) with (applyTrace t x). rewrite (IH _ Ht).
  destruct e as [o a | v]; [| reflexivity]. cbn [applyEffect].
  apply lookup_alter_ne. intros ->. now apply (He a).
Qed.

Lemma block_updateMesh_trace (l : list (string * Ref)) this :
  Forall (fun e => exists x, In x l /\ meshWrite (snd x) e)
         (snd (block (map (fun e => updateMesh rnd (fst e) (snd e)) l) this)).
Proof.
  revert this. induction l as [| [id mesh] tl IH]; intros this; [constructor |].
  cbn [map]. rewrite block_cons. cbn [snd fst]. apply Forall_app. split.
  - eapply List.Forall_impl; [| apply updateMesh_trace].
    intros e He. exists (id, mesh). split; [now left | exact He].
  - eapply List.Forall_impl; [| apply IH].
    intros e (x & Hx & He). exists x. split; [now right | exact He].
Qed.

(** after the [forEach] of [update] every registered light shows the
    colour of the status of its server's record *)
Lemma update_lights (l : list (string * Ref)) this :
  NoDup (map snd l) ->
  (forall e e', In e l -> In e' l -> 0%nat :: snd e <> snd e') ->
  (forall e, In e l ->
     is_Some (nth_error (childrenAt (root this) (snd e)) 0) /\
     is_Some (materials this !! (0%nat :: snd e))) ->
  forall id mesh data,
    In (id, mesh) l ->
    ServerStatus.getServerData id (serverStatus this) = Some data ->
    color <$> materials (fst (block (map (fun e => updateMesh rnd (fst e) (snd e)) l)
                                    this)) !! (0%nat :: mesh)
    = Some (statusHex (ServerStatus.status data)).
Proof.
  revert this. induction l as [| [id0 mesh0] tl IH];
    intros this Hnd Hapart Hok id mesh data Hin Hdata; [destruct Hin |].
  cbn [map] in *. apply NoDup_cons in Hnd as [Hfresh Hnd].
  rewrite block_cons. cbn [fst snd].
  set (this1 := fst (updateMesh rnd id0 mesh0 this)).
  assert (Hroot : root this1 = root this).
  { unfold root, this1. now rewrite (keeps_updateMesh children _ _ plain_children). }
  assert (Hst : serverStatus this1 = serverStatus this).
  { unfold this1. now rewrite (keeps_updateMesh serverStatus _ _ plain_serverStatus). }
  assert (Hm1 : materials this1 =
                applyTrace (snd (updateMesh rnd id0 mesh0 this)) (materials this)).
  { apply lawful_updateMesh. }
  destruct Hin as [[= -> ->] | Hin].
  - (* the head: its light is set now and not written again *)
    rewrite lawful_block by (apply Forall_updateMesh, lawful_updateMesh).
    rewrite applyTrace_other.
    + destruct (Hok (id, mesh) (or_introl eq_refl)) as [[c Hc] [mat Hmat]].
      cbn [snd] in Hc, Hmat. unfold this1. rewrite updateMesh_eq, Hdata. cbn zeta.
      rewrite Hc. cbn [fst materials set_materials].
      rewrite lookup_alter_eq, lookup_alter_ne, Hmat; [reflexivity |].
      intros E. apply (f_equal length) in E. cbn in E. lia.
    + eapply List.Forall_impl; [| apply block_updateMesh_trace].
      intros e (x & Hx & He) a ->. destruct He as [[v [= E _]] | [st [= E _]]].
      * apply (Hapart (id, mesh) x); [now left | now right | exact E].
      * apply Hfresh. cbn [snd]. subst mesh. apply list_elem_of_In.
        apply in_map. exact Hx.
  - (* a later entry *)
    eapply IH; [exact Hnd | | | exact Hin |].
    + intros e e' He He'. apply Hapart; now right.
    + intros e He. rewrite Hroot. destruct (Hok e (or_intror He)) as [Hc [mat Hmat]].
      split; [exact Hc |]. apply elem_of_dom.
      rewrite Hm1, applyTrace_dom. apply elem_of_dom. now exists mat.
    + now rewrite Hst.
Qed.

Lemma DataCenter_ext (a b : DataCenter) :
  serverStatus a = serverStatus b -> servers a = servers b -> racks a = racks b ->
  selectedServer a = selectedServer b -> hoveredRack a = hoveredRack b ->
  hoveredServer a = hoveredServer b -> children a = children b ->
  materials a = materials b -> info a = info b -> a = b.
Proof. destruct a, b. cbn. intros; subst. reflexivity. Qed.

Lemma set_materials_id this : set_materials (materials this) this = this.
Proof. now destruct this. Qed.

(** [hover] when the pick gives a server mesh whose record exists *)
Lemma hover_server ray this hit rest target id data :
  intersectObjects (root this) ray (interactiveObjects (root this)) true
    = hit :: rest ->
  deref (root this) (resolve (root this) (servers this) hit) = Some target ->
  ud_isRackCase (userData target) = false ->
  ud_id (userData target) = Some id -> truthy (Some id) = true ->
  ServerStatus.getServerData id (serverStatus this) = Some data ->
  let t := resolve (root this) (servers this) hit in
  let enter := bool_decide (Some t <> selectedServer this) in
  hover ray this =
  (set_info (Some (serverView this data))
     (set_materials
        (if enter then alter (assigned (SetWireframe true)) t (materials this)
         else materials this)
        (set_hoveredServer (Some t) this)),
   (if enter then [Write t (SetWireframe true)] else [])
   ++ [Render (serverView this data)]).
Proof.
  intros E D Hrc Hid Ht Hdata. cbn zeta. unfold hover. rewrite E. cbn zeta.
  rewrite D, Hrc, Hid, Ht. rewrite !block_cons, block_nil.
  cbn [assign fst snd app mbind option_bind].
  set (t := resolve (root this) (servers this) hit).
  change (hoveredServer (set_hoveredServer (Some t) this)) with (Some t).
  change (selectedServer (set_hoveredServer (Some t) this)) with (selectedServer this).
  destruct (bool_decide (Some t <> selectedServer this));
    destruct this as [st sv rk sel hr hs ch m i];
    cbn [serverStatus] in Hdata; cbn; rewrite Hdata; reflexivity.
Qed.

(** [hover] when the pick gives a rack case *)
Lemma hover_rack ray this hit rest target :
  intersectObjects (root this) ray (interactiveObjects (root this)) true
    = hit :: rest ->
  deref (root this) (resolve (root this) (servers this) hit) = Some target ->
  ud_isRackCase (userData target) = true ->
  let t := resolve (root this) (servers this) hit in
  let view := rackView this (rackIndexOf (root this) (Three.parent t)) in
  hover ray this =
  (set_info (Some view)
     (set_materials (alter (assigned (SetOpacity (7 # 10))) t (materials this))
        (set_hoveredRack (Three.parent t) this)),
   [Write t (SetOpacity (7 # 10)); Render view]).
Proof.
  intros E D Hrc. cbn zeta. unfold hover. rewrite E. cbn zeta.
  rewrite D, Hrc. rewrite !block_cons, block_nil.
  now destruct this as [st sv rk sel hr hs ch m i].
Qed.

(** [hover] when the ray meets nothing that is tested *)
Lemma hover_none ray this :
  intersectObjects (root this) ray (interactiveObjects (root this)) true = [] ->
  hover ray this =
  (set_info (Some DefaultInfo) (set_hoveredServer None (set_hoveredRack None this)),
   [Render DefaultInfo]).
Proof. intros E. unfold hover. now rewrite E. Qed.

(** the two outcomes of the pick on a reachable state *)
Lemma pick_cases this ray hit rest :
  wf this ->
  intersectObjects (root this) ray (interactiveObjects (root this)) true
    = hit :: rest ->
  let t := resolve (root this) (servers this) hit in
  exists h target,
    deref (root this) hit = Some h /\ deref (root this) t = Some target /\
    ((ud_isRackCase (userData target) = true /\ t = hit /\
      exists rack, t = 0%nat :: rack /\ In rack (map snd sceneRacks) /\
        findIndex (fun c => ud_isRackCase (userData c))
                  (childrenAt (root this) rack) = Some 0%nat /\
        is_Some (rackIndexOf (root this) (Some rack))) \/
     (ud_isRackCase (userData target) = false /\
      exists id data,
        ud_id (userData target) = Some id /\ truthy (Some id) = true /\
        In (id, t) sceneServers /\
        ServerStatus.getServerData id (serverStatus this) = Some data /\
        (hit = t \/ untagged (userData h) = true /\ hit = 0%nat :: t))).
Proof.
  intros Hwf E. cbn zeta. pose proof (pick_facts _ _ _ _ Hwf E) as P.
  unfold pickCheck in P. rewrite (wf_root _ Hwf), (wf_servers _ Hwf).
  destruct (deref sceneRoot hit) as [h |]; [| discriminate].
  destruct (deref sceneRoot (resolve sceneRoot sceneServers hit)) as [target |];
    [| discriminate].
  exists h, target. split; [reflexivity |]. split; [reflexivity |].
  destruct (ud_isRackCase (userData target)).
  - left. split; [reflexivity |]. apply andb_prop in P as [Heq P].
    apply bool_decide_eq_true in Heq. split; [exact Heq |].
    destruct (resolve sceneRoot sceneServers hit) as [| i rack]; [discriminate |].
    repeat (apply andb_prop in P as [P ?]).
    repeat match goal with
           | H : bool_decide _ = true |- _ => apply bool_decide_eq_true in H
           end.
    subst i. exists rack. split; [reflexivity |].
    split; [now apply In_existsb_Ref |]. split; assumption.
  - right. split; [reflexivity |].
    destruct (ud_id (userData target)) as [id |]; [| discriminate].
    apply andb_prop in P as [P Hhit]. apply andb_prop in P as [P Hid].
    apply andb_prop in P as [Ht Hget]. apply bool_decide_eq_true in Hget.
    apply In_existsb_string in Hid.
    destruct (record_exists this id Hwf Hid) as [data Hdata].
    exists id, data. split; [reflexivity |]. split; [exact Ht |].
    split; [now apply Map_get_Some |]. split; [exact Hdata |].
    apply orb_prop in Hhit as [Hhit | Hhit].
    + left. now apply bool_decide_eq_true in Hhit.
    + right. apply andb_prop in Hhit as [Hu Hhit].
      apply bool_decide_eq_true in Hhit. now split.
Qed.

Lemma restored_root this : root (restored this) = root this.
Proof.
  unfold restored, root.
  now rewrite (keeps_restoreHoveredServer children plain_children),
              (keeps_restoreHoveredRack children plain_children).
Qed.

Lemma restored_servers this : servers (restored this) = servers this.
Proof.
  unfold restored.
  now rewrite (keeps_restoreHoveredServer servers plain_servers),
              (keeps_restoreHoveredRack servers plain_servers).
Qed.

Lemma restored_serverStatus this : serverStatus (restored this) = serverStatus this.
Proof.
  unfold restored.
  now rewrite (keeps_restoreHoveredServer serverStatus plain_serverStatus),
              (keeps_restoreHoveredRack serverStatus plain_serverStatus).
Qed.

Lemma restored_selectedServer this :
  selectedServer (restored this) = selectedServer this.
Proof.
  unfold restored.
  now rewrite (keeps_restoreHoveredServer selectedServer plain_selectedServer),
              (keeps_restoreHoveredRack selectedServer plain_selectedServer).
Qed.

Lemma restored_hoveredRack this : hoveredRack (restored this) = hoveredRack this.
Proof.
  unfold restored.
  now rewrite (keeps_restoreHoveredServer hoveredRack plain_hoveredRack),
              (keeps_restoreHoveredRack hoveredRack plain_hoveredRack).
Qed.

Lemma restored_hoveredServer this : hoveredServer (restored this) = hoveredServer this.
Proof.
  unfold restored.
  now rewrite (keeps_restoreHoveredServer hoveredServer plain_hoveredServer),
              (keeps_restoreHoveredRack hoveredServer plain_hoveredServer).
Qed.

Lemma wf_restored this : wf this -> wf (restored this).
Proof. intros H. now apply wf_restoreHoveredServer, wf_restoreHoveredRack. Qed.

Lemma handleMouseMove_fst ray this :
  fst (handleMouseMove ray this) = fst (hover ray (restored this)).
Proof. now rewrite handleMouseMove_eq. Qed.

(** The loop of [handleMouseMove] on any graph: when the ancestors below
    a mesh with an id carry no tag, the walk stops at that mesh. *)
Lemma walk_first_server (root : Object3D) (servers : list (string * Ref))
    (targetObject : Ref) (pre : list nat) (s : Ref) (o : Object3D) :
  deref root s = Some o -> isMesh o = true -> truthy (ud_id (userData o)) = true ->
  Forall (fun r => exists o', deref root r = Some o' /\ untagged (userData o') = true)
         (between pre s) ->
  walk root servers targetObject (pre ++ s) = s.
Proof.
  intros Ds Hm Hid. induction pre as [| i pre IH]; intros Hpre.
  - cbn [app]. destruct s as [| j s']; cbn [walk]; rewrite Ds;
      destruct o as [[] u mat cs]; try discriminate; cbn in *; now rewrite Hid.
  - cbn [between] in Hpre. apply Forall_cons in Hpre as [(o' & Do & Hu) Hpre].
    cbn [app walk]. rewrite Do. unfold untagged in Hu.
    apply andb_prop in Hu as [Hu Hri]. apply andb_prop in Hu as [Hu _].
    apply negb_true_iff in Hu, Hri. rewrite Hu, Hri, !andb_false_r.
    now apply IH.
Qed.

Lemma restored_eq this :
  restored this =
  set_materials (assignTo (SetWireframe false) (restoredServer this)
                   (assignTo (SetOpacity 1) (restoredRackCase this) (materials this)))
                this.
Proof.
  unfold restored, restoreHoveredRack, restoreHoveredServer, restoredRackCase,
    restoredServer.
  destruct this as [st sv rk sel hr hs ch m i]. cbn [hoveredRack hoveredServer].
  destruct hr as [rack |]; [destruct (findIndex _ _) |];
    destruct hs as [server |]; cbn; try destruct (bool_decide _); reflexivity.
Qed.

Lemma restored_trace_enter this :
  enterEffects (snd (restoreHoveredRack this)) = 0%nat /\
  enterEffects (snd (restoreHoveredServer this)) = 0%nat.
Proof.
  unfold restoreHoveredRack, restoreHoveredServer. split.
  - destruct (hoveredRack this); [destruct (findIndex _ _) |]; reflexivity.
  - destruct (hoveredServer this); [destruct (bool_decide _) |]; reflexivity.
Qed.

Lemma enterEffects_app t1 t2 :
  enterEffects (t1 ++ t2) = (enterEffects t1 + enterEffects t2)%nat.
Proof. unfold enterEffects. now rewrite List.filter_app, List.length_app. Qed.

Lemma handleMouseMove_enter ray this :
  enterEffects (snd (handleMouseMove ray this)) =
  enterEffects (snd (hover ray (restored this))).
Proof.
  rewrite handleMouseMove_eq. cbn [snd]. rewrite !enterEffects_app.
  destruct (restored_trace_enter this) as [-> _].
  destruct (restored_trace_enter (fst (restoreHoveredRack this))) as [_ ->].
  reflexivity.
Qed.

(** every state the object reaches satisfies the invariant *)
Theorem reachable_wf this : reachable rnd rand recursiveDefault this -> wf this.
Proof.
  induction 1 as [n | this _ IH | this ray _ IH | this ray _ IH].
  - apply wf_new.
  - now apply wf_update.
  - now apply wf_handleMouseMove.
  - now apply wf_handleClick.
Qed.

End Invariant.

Section InteractionClaims.
Import Num Three DataCenter.

#[local] Arguments sceneRoot : simpl never.
#[local] Arguments sceneServers : simpl never.
#[local] Arguments sceneRacks : simpl never.
#[local] Arguments sceneChildren : simpl never.
#[local] Arguments deref : simpl never.
#[local] Arguments resolve : simpl never.
#[local] Arguments intersectObjects : simpl never.
#[local] Arguments interactiveObjects : simpl never.
#[local] Arguments serverMeshes : simpl never.
#[local] Arguments materialsOf : simpl never.

(** C7: on every reachable state with a selected server, the selected
    server has its wireframe emphasis, and a pointer move over any ray (onto
    the selected server, onto another, or away) makes no assignment to the
    wireframe flag of the selected server: neither the restoring pass nor
    the enter assignment touches it, the selection stays, and the emphasis
    is still there afterwards. *)
Theorem selection_undisturbed_by_hover
    (rnd : Q -> Q) (rand : nat -> Q) (recursiveDefault : bool)
    (this : DataCenter) (ray : list Ref) (s : Ref) :
  reachable rnd rand recursiveDefault this -> selectedServer this = Some s ->
  wireframe <$> materials this !! s = Some true /\
  Forall (spares (Some s)) (snd (handleMouseMove ray this)) /\
  selectedServer (fst (handleMouseMove ray this)) = Some s /\
  wireframe <$> materials (fst (handleMouseMove ray this)) !! s = Some true.
Proof.
  intros Hreach Hsel. pose proof (reachable_wf _ _ _ _ Hreach) as Hwf.
  pose proof (handleMouseMove_spares ray this) as Hsp. rewrite Hsel in Hsp.
  split; [now apply (wf_selected_wireframe _ Hwf) |]. split; [exact Hsp |].
  split.
  - now rewrite (keeps_handleMouseMove selectedServer ray plain_selectedServer).
  - rewrite lawful_handleMouseMove, (applyTrace_spared _ _ _ Hsp).
    now apply (wf_selected_wireframe _ Hwf).
Qed.

(** C8, as amended: [handleClick] resolves its target by a ray cast of
    its own, against the server meshes only.  On every reachable state, a
    click whose nearest intersected object has an id (it is then a
    registered server mesh) selects it: the previously selected mesh, if
    any, gets wireframe := false, [selectedServer] becomes the clicked
    mesh, it gets wireframe := true and the detail view of its record is
    rendered.  A click whose nearest intersected object has no id, or that
    intersects nothing of what is tested, leaves the state unchanged and
    does nothing.  Rack cases and decoration are not tested. *)
Theorem click_selects_server
    (rnd : Q -> Q) (rand : nat -> Q) (recursiveDefault : bool)
    (this : DataCenter) (ray : list Ref) :
  reachable rnd rand recursiveDefault this ->
  match intersectObjects (root this) ray (serverMeshes (root this))
          recursiveDefault with
  | clicked :: _ =>
      if truthy (userDataAt (root this) clicked ≫= ud_id) then
        exists id data brand,
          In (id, clicked) sceneServers /\
          ServerStatus.getServerData id (serverStatus this) = Some data /\
          ServerStatus.sd_id data = id /\
          handleClick recursiveDefault ray this =
          (set_info (Some (ServerInfo brand data))
             (set_materials
                (alter (assigned (SetWireframe true)) clicked
                   match selectedServer this with
                   | Some selected =>
                       alter (assigned (SetWireframe false)) selected
                             (materials this)
                   | None => materials this
                   end)
                (set_selectedServer (Some clicked) this)),
           match selectedServer this with
           | Some selected => [Write selected (SetWireframe false)]
           | None => []
           end ++ [Write clicked (SetWireframe true);
                   Render (ServerInfo brand data)])
      else handleClick recursiveDefault ray this = (this, [])
  | [] => handleClick recursiveDefault ray this = (this, [])
  end.
Proof.
  intros Hreach. pose proof (reachable_wf _ _ _ _ Hreach) as Hwf.
  destruct (intersectObjects _ _ _ _) as [| clicked rest] eqn:E.
  - unfold handleClick. now rewrite E.
  - destruct (truthy _) eqn:T; [| now apply (handleClick_miss _ _ _ _ _ E T)].
    destruct (handleClick_hit _ _ _ _ _ Hwf E T)
      as (id & data & Hid & _ & Hdata & Hsd & _ & ->).
    exists id, data. eexists. split; [exact Hid |]. split; [exact Hdata |].
    split; [exact Hsd |]. rewrite select_eq. reflexivity.
Qed.

Lemma selection_undisturbed_by_hover_witness :
  let this := fst (handleClick true [[0; 1; 27]%nat]
                     (new_DataCenter round64 (fun _ => 1 # 2) 0)) in
  let ray := [[0; 1; 27]%nat] in
  let s := [0; 1; 27]%nat in
  wireframe <$> materials this !! s = Some true /\
  Forall (spares (Some s)) (snd (handleMouseMove ray this)) /\
  selectedServer (fst (handleMouseMove ray this)) = Some s /\
  wireframe <$> materials (fst (handleMouseMove ray this)) !! s = Some true.
Proof.
  intros this ray s.
  apply (selection_undisturbed_by_hover round64 (fun _ => 1 # 2) true).
  - apply reach_click, reach_new.
  - vm_compute. reflexivity.
Defined.

Lemma click_selects_server_witness :
  let this := new_DataCenter round64 (fun _ => 1 # 2) 0 in
  let ray := [[0; 27]; [0; 1; 27]]%nat in
  exists id data brand,
    In (id, [0; 1; 27]%nat) sceneServers /\
    ServerStatus.getServerData id (serverStatus this) = Some data /\
    ServerStatus.sd_id data = id /\
    handleClick true ray this =
    (set_info (Some (ServerInfo brand data))
       (set_materials
          (alter (assigned (SetWireframe true)) [0; 1; 27]%nat (materials this))
          (set_selectedServer (Some [0; 1; 27]%nat) this)),
     [Write [0; 1; 27]%nat (SetWireframe true); Render (ServerInfo brand data)]).
Proof.
  intros this ray.
  exact (click_selects_server round64 (fun _ => 1 # 2) true this ray
           (reach_new _ _ _ 0)).
Defined.

(** C8 as stated fails: a click along a ray that meets the case of rack 0
    first and the body of rack0-server0 behind it, on the state the
    constructor leaves.  The pick of a pointer move resolves this ray to
    the rack, not to a server; the click, which tests the server meshes
    only, selects the server behind the case: the state changes. *)
Lemma click_through_rack_case :
  let this := new_DataCenter round64 (fun _ => 1 # 2) 0 in
  let ray := [[0; 27]; [0; 1; 27]]%nat in
  pointerTarget this ray = TargetRack (Some 0%nat) /\
  selectedServer this = None /\
  (forall recursiveDefault : bool,
     let this' := fst (handleClick recursiveDefault ray this) in
     selectedServer this' = Some [0; 1; 27]%nat /\
     wireframe <$> materials this' !! [0; 1; 27]%nat = Some true /\
     this' <> this).
Proof.
  intros this ray.
  split; [vm_compute; reflexivity |]. split; [reflexivity |].
  intros recursiveDefault this'.
  assert (Hsel : selectedServer this' = Some [0; 1; 27]%nat)
    by (destruct recursiveDefault; vm_compute; reflexivity).
  split; [exact Hsel |].
  split; [destruct recursiveDefault; vm_compute; reflexivity |].
  intros E. rewrite E in Hsel. discriminate.
Qed.

(** A click along a ray that meets an indicator light first and the
    server body behind it.  When the ray caster looks below the server
    meshes, the light is the clicked object: it has no id and nothing is
    selected, although a pointer move along the same ray hovers the
    server.  When it does not, the server body is clicked and selected. *)
Example click_on_light :
  let this := new_DataCenter round64 (fun _ => 1 # 2) 0 in
  let ray := [[0; 0; 1; 27]; [0; 1; 27]]%nat in
  handleClick true ray this = (this, []) /\
  selectedServer (fst (handleClick false ray this)) = Some [0; 1; 27]%nat /\
  hoveredServer (fst (handleMouseMove ray this)) = Some [0; 1; 27]%nat.
Proof. repeat split; vm_compute; reflexivity. Qed.

(** C10: after every [update], every registered server has a record, and
    the material of child 0 of its mesh (the indicator light) has the
    colour of the record's status: 0x00ff00 for normal, 0xffff00 for
    warning, 0xff0000 for error; [update] assigns no colour but these
    three. *)
Theorem light_color_follows_status
    (rnd : Q -> Q) (rand : nat -> Q) (recursiveDefault : bool)
    (this : DataCenter) :
  reachable rnd rand recursiveDefault this ->
  let this' := fst (update rnd rand this) in
  Forall (fun e => is_Some (ServerStatus.getServerData (fst e) (serverStatus this')))
         (servers this') /\
  (forall id mesh data,
     In (id, mesh) (servers this') ->
     ServerStatus.getServerData id (serverStatus this') = Some data ->
     is_Some (nth_error (childrenAt (root this') mesh) 0) /\
     color <$> materials this' !! (0%nat :: mesh)
       = Some match ServerStatus.status data with
              | ServerStatus.normal => 0x00ff00%Z
              | ServerStatus.warning => 0xffff00%Z
              | ServerStatus.error => 0xff0000%Z
              end) /\
  Forall (fun e => forall o hex, e = Write o (SetColor hex) ->
                   hex = 0x00ff00%Z \/ hex = 0xffff00%Z \/ hex = 0xff0000%Z)
         (snd (update rnd rand this)).
Proof.
  intros Hreach this'. pose proof (reachable_wf _ _ _ _ Hreach) as Hwf.
  assert (Hwf' : wf this') by now apply wf_update.
  split; [| split].
  - rewrite (wf_servers _ Hwf'). apply List.Forall_forall. intros [id mesh] Hin.
    cbn [fst]. pose proof scene_serverCheck as C. rewrite forallb_forall in C.
    specialize (C _ Hin). unfold serverCheck in C.
    destruct (deref sceneRoot mesh) as [o |]; [| discriminate].
    repeat (apply andb_prop in C as [C ?]).
    match goal with H : existsb _ _ = true |- _ => apply In_existsb_string in H end.
    destruct (record_exists this' id Hwf') as [data Hdata]; [assumption |].
    now exists data.
  - intros id mesh data Hin Hdata.
    assert (Hsv : servers this' = sceneServers).
    { unfold this'. rewrite (keeps_update rnd rand servers plain_servers); [| reflexivity].
      apply (wf_servers _ Hwf). }
    assert (Hroot : root this' = sceneRoot).
    { unfold this', root.
      rewrite (keeps_update rnd rand children plain_children); [| reflexivity].
      apply (wf_root _ Hwf). }
    rewrite Hsv in Hin. rewrite Hroot.
    assert (Hok : forall e, In e sceneServers ->
              is_Some (nth_error (childrenAt sceneRoot (snd e)) 0) /\
              is_Some (materials this !! (0%nat :: snd e))).
    { intros [id' mesh'] He. pose proof scene_serverCheck as C.
      rewrite forallb_forall in C. specialize (C _ He). unfold serverCheck in C.
      unfold childrenAt. cbn [snd].
      destruct (deref sceneRoot mesh') as [o |]; [| discriminate].
      repeat (apply andb_prop in C as [C ?]).
      repeat match goal with
             | H : bool_decide _ = true |- _ => apply bool_decide_eq_true in H
             end.
      split; [assumption |].
      apply elem_of_dom. rewrite (wf_materials _ Hwf). now apply elem_of_dom. }
    split; [apply (Hok (id, mesh) Hin) |].
    assert (Hcolor : color <$> materials this' !! (0%nat :: mesh)
                     = Some (statusHex (ServerStatus.status data))).
    { unfold this' in *. rewrite update_eq in *. cbn zeta in *.
      rewrite (wf_servers _ Hwf) in *.
      rewrite (keeps_block serverStatus) in Hdata
        by (apply Forall_updateMesh; intros; apply keeps_updateMesh, plain_serverStatus).
      eapply update_lights; [apply scene_servers_NoDup | | | exact Hin | exact Hdata].
      + intros e e' He He' E. pose proof scene_lightsApart as A. unfold lightsApart in A.
        rewrite forallb_forall in A. specialize (A _ He). rewrite forallb_forall in A.
        specialize (A _ He'). rewrite E in A. unfold Ref_eqb in A.
        now rewrite bool_decide_eq_true_2 in A.
      + intros e He. change (root (set_serverStatus ?v this)) with (root this).
        rewrite (wf_root _ Hwf). apply (Hok e He). }
    rewrite Hcolor. now destruct (ServerStatus.status data).
  - eapply List.Forall_impl; [| apply update_trace].
    intros e [mesh [[v ->] | [st ->]]] o hex [= ]; subst.
    destruct st; cbn; tauto.
Qed.

Lemma light_color_follows_status_witness :
  let this := new_DataCenter round64 (fun _ => 15 # 16) 0 in
  let this' := fst (update round64 (fun _ => 15 # 16) this) in
  Forall (fun e => is_Some (ServerStatus.getServerData (fst e) (serverStatus this')))
         (servers this') /\
  (forall id mesh data,
     In (id, mesh) (servers this') ->
     ServerStatus.getServerData id (serverStatus this') = Some data ->
     is_Some (nth_error (childrenAt (root this') mesh) 0) /\
     color <$> materials this' !! (0%nat :: mesh)
       = Some match ServerStatus.status data with
              | ServerStatus.normal => 0x00ff00%Z
              | ServerStatus.warning => 0xffff00%Z
              | ServerStatus.error => 0xff0000%Z
              end) /\
  Forall (fun e => forall o hex, e = Write o (SetColor hex) ->
                   hex = 0x00ff00%Z \/ hex = 0xffff00%Z \/ hex = 0xff0000%Z)
         (snd (update round64 (fun _ => 15 # 16) this)).
Proof.
  intros this.
  apply (light_color_follows_status round64 (fun _ => 15 # 16) true).
  apply reach_new.
Defined.

(** the colours of the lights after the first [update] when every draw is
    15/16: every record is in error (43.75 degrees and up), every light is
    red *)
Example lights_red :
  let this := fst (update round64 (fun _ => 15 # 16)
                     (new_DataCenter round64 (fun _ => 15 # 16) 0)) in
  ServerStatus.status <$> ServerStatus.getServerData "rack0-server0" (serverStatus this)
    = Some ServerStatus.error /\
  color <$> materials this !! [0; 0; 1; 27]%nat = Some 0xff0000%Z /\
  color <$> materials (new_DataCenter round64 (fun _ => 15 # 16) 0) !! [0; 0; 1; 27]%nat
    = Some 0x00ff00%Z.
Proof. repeat split; vm_compute; reflexivity. Qed.

(** C5: on every reachable state, when the nearest object the ray caster
    returns carries no tag (it is then the indicator light of a server),
    the pick resolves to the server mesh it is a child of: the target is
    that server, not nothing and not the rack; [handleMouseMove] makes it
    the hovered server and renders the detail view of its record. *)
Theorem subpart_pick_resolves_to_server
    (rnd : Q -> Q) (rand : nat -> Q) (recursiveDefault : bool)
    (this : DataCenter) (ray : list Ref)
    (hit : Ref) (rest : list Ref) (u : UserData) :
  reachable rnd rand recursiveDefault this ->
  intersectObjects (root this) ray (interactiveObjects (root this)) true
    = hit :: rest ->
  userDataAt (root this) hit = Some u -> untagged u = true ->
  exists mesh id data,
    In (id, mesh) sceneServers /\
    hit = 0%nat :: mesh /\
    resolve (root this) (servers this) hit = mesh /\
    targetOf (root this) (servers this) hit = TargetServer id /\
    ServerStatus.getServerData id (serverStatus this) = Some data /\
    ServerStatus.sd_id data = id /\
    hoveredServer (fst (handleMouseMove ray this)) = Some mesh /\
    info (fst (handleMouseMove ray this)) = Some (serverView this data).
Proof.
  intros Hreach E Hu Hun. pose proof (reachable_wf _ _ _ _ Hreach) as Hwf.
  destruct (pick_cases _ _ _ _ Hwf E) as (h & target & Dh & Dt & Hcase).
  unfold userDataAt in Hu. rewrite Dh in Hu. cbn in Hu. injection Hu as <-.
  set (t := resolve (root this) (servers this) hit) in *.
  assert (Huntag : forall o, deref (root this) hit = Some o ->
                     ud_isRackCase (userData o) = false /\
                     truthy (ud_id (userData o)) = false).
  { intros o Do. rewrite Dh in Do. injection Do as <-. unfold untagged in Hun.
    apply andb_prop in Hun as [Hun _]. apply andb_prop in Hun as [H1 H2].
    now apply negb_true_iff in H1, H2. }
  destruct Hcase as [(Hrc & Heq & _) | (Hrc & id & data & Hid & Ht & Hin & Hdata & Hhit)].
  - exfalso. rewrite Heq in Dt. destruct (Huntag _ Dt) as [H _]. congruence.
  - destruct Hhit as [Heq | [_ Heq]].
    + exfalso. rewrite <- Heq in Dt. destruct (Huntag _ Dt) as [_ H].
      rewrite Hid in H. congruence.
    + exists t, id, data. split; [exact Hin |]. split; [exact Heq |].
      split; [reflexivity |]. split.
      { unfold targetOf, userDataAt. fold t. rewrite Dt.
        cbn [fmap option_fmap option_map]. now rewrite Hrc, Hid, Ht. }
      split; [exact Hdata |]. split; [now apply (record_id this) |].
      rewrite handleMouseMove_fst.
      pose proof (hover_server ray (restored this) hit rest target id data) as Hh.
      unfold serverView in Hh.
      rewrite restored_root, restored_servers, restored_serverStatus in Hh.
      specialize (Hh E Dt Hrc Hid Ht Hdata). cbn zeta in Hh. rewrite Hh.
      split; reflexivity.
Qed.

Lemma subpart_pick_resolves_to_server_witness :
  let this := new_DataCenter round64 (fun _ => 1 # 2) 0 in
  let ray := [[0; 0; 3; 29]; [0; 29]; [0; 3; 29]]%nat in
  exists mesh id data,
    In (id, mesh) sceneServers /\
    [0; 0; 3; 29]%nat = 0%nat :: mesh /\
    resolve (root this) (servers this) [0; 0; 3; 29]%nat = mesh /\
    targetOf (root this) (servers this) [0; 0; 3; 29]%nat = TargetServer id /\
    ServerStatus.getServerData id (serverStatus this) = Some data /\
    ServerStatus.sd_id data = id /\
    hoveredServer (fst (handleMouseMove ray this)) = Some mesh /\
    info (fst (handleMouseMove ray this)) = Some (serverView this data).
Proof.
  intros this ray.
  apply (subpart_pick_resolves_to_server round64 (fun _ => 1 # 2) true this ray
           [0; 0; 3; 29]%nat [[0; 29]; [0; 3; 29]]%nat noUserData).
  - apply reach_new.
  - vm_compute. reflexivity.
  - vm_compute. reflexivity.
  - reflexivity.
Defined.

(** equality of material stores built from assignments, key by key *)
Ltac same_materials :=
  unfold assignTo;
  repeat match goal with
         | |- context [match ?o with Some _ => _ | None => _ end] => destruct o
         end;
  apply map_eq; intros ?k; rewrite ?lookup_alter;
  repeat case_decide; subst; try congruence;
  repeat match goal with
         | |- context [?m !! ?k] =>
             lazymatch m with
             | alter _ _ _ => fail
             | _ => destruct (m !! k) as [[]|]
             end
         end;
  reflexivity.

Lemma restored_twice_server (e c s0 : option Ref) (m0 : gmap Ref Material) :
  let mR := assignTo (SetWireframe false) s0 (assignTo (SetOpacity 1) c m0) in
  assignTo (SetWireframe true) e
    (assignTo (SetWireframe false) e
       (assignTo (SetOpacity 1) c (assignTo (SetWireframe true) e mR)))
  = assignTo (SetWireframe true) e mR.
Proof. cbn zeta. same_materials. Qed.

Lemma restored_twice_rack (t : Ref) (c s0 : option Ref) (m0 : gmap Ref Material) :
  let mR := assignTo (SetWireframe false) s0 (assignTo (SetOpacity 1) c m0) in
  alter (assigned (SetOpacity (7 # 10))) t
    (assignTo (SetWireframe false) s0
       (alter (assigned (SetOpacity 1)) t
          (alter (assigned (SetOpacity (7 # 10))) t mR)))
  = alter (assigned (SetOpacity (7 # 10))) t mR.
Proof. cbn zeta. same_materials. Qed.

#[local] Arguments ServerStatus.getServerData : simpl never.
#[local] Arguments serverView : simpl never.
#[local] Arguments rackView : simpl never.
#[local] Arguments rackIndexOf : simpl never.
#[local] Arguments childrenAt : simpl never.
#[local] Arguments findIndex : simpl never.
#[local] Arguments assignTo : simpl never.

(** a second pointer move along the same ray leaves the state as the
    first left it, and fires as many enter effects *)
Lemma handleMouseMove_twice (this : DataCenter) (ray : list Ref) :
  wf this ->
  let first := handleMouseMove ray this in
  let second := handleMouseMove ray (fst first) in
  fst second = fst first /\
  enterEffects (snd second) = enterEffects (snd first).
Proof.
  intros Hwf. cbn zeta.
  rewrite !handleMouseMove_enter, !handleMouseMove_fst.
  pose proof (wf_restored _ Hwf) as HwfR.
  destruct (intersectObjects (root (restored this)) ray
              (interactiveObjects (root (restored this))) true)
    as [| hit rest] eqn:E.
  - (* nothing under the pointer *)
    rewrite (hover_none _ _ E). cbn [fst snd].
    set (this1 := set_info _ _).
    assert (R1 : restored this1 = this1).
    { rewrite restored_eq. unfold this1. now destruct (restored this). }
    rewrite R1. rewrite (hover_none ray this1) by exact E.
    split; [| reflexivity]. unfold this1. now destruct (restored this).
  - destruct (pick_cases _ _ _ _ HwfR E) as (h & target & Dh & Dt & Hcase).
    destruct Hcase as [(Hrc & Heq & rack & Ht & _ & Hfind & _)
                      | (Hrc & id & data & Hid & Htr & _ & Hdata & _)].
    + (* a rack case *)
      rewrite (hover_rack _ _ _ _ _ E Dt Hrc). cbn [fst snd].
      rewrite Ht in *. cbn [Three.parent]. set (this1 := set_info _ _).
      assert (Hroot1 : root (restored this1) = root (restored this)).
      { rewrite restored_root. unfold this1. now destruct (restored this). }
      assert (Hsv1 : servers (restored this1) = servers (restored this)).
      { rewrite restored_servers. unfold this1. now destruct (restored this). }
      assert (E1 : intersectObjects (root (restored this1)) ray
                     (interactiveObjects (root (restored this1))) true = hit :: rest)
        by now rewrite Hroot1.
      assert (Dt1 : deref (root (restored this1))
                      (resolve (root (restored this1)) (servers (restored this1)) hit)
                    = Some target)
        by now rewrite Hroot1, Hsv1, Ht.
      rewrite (hover_rack _ _ _ _ _ E1 Dt1 Hrc). cbn [fst snd].
      rewrite Hroot1, Hsv1, Ht. cbn [Three.parent]. split; [| reflexivity].
      assert (Hview : rackView (restored this1)
                        (rackIndexOf (root (restored this)) (Some rack))
                      = rackView (restored this)
                          (rackIndexOf (root (restored this)) (Some rack))).
      { unfold rackView, showRackInfo. rewrite Hroot1, Hsv1, restored_serverStatus.
        unfold this1. now destruct (restored this). }
      rewrite Hview.
      rewrite (restored_eq this1).
      assert (Hc1 : restoredRackCase this1 = Some (0%nat :: rack)).
      { unfold restoredRackCase, this1.
        change (hoveredRack (set_info ?v (set_materials ?m (set_hoveredRack ?r ?x))))
          with r.
        change (root (set_info ?v (set_materials ?m (set_hoveredRack ?r ?x))))
          with (root x).
        cbv beta iota. now rewrite Hfind. }
      assert (Hs1 : restoredServer this1 = restoredServer this).
      { unfold restoredServer, this1. rewrite (restored_eq this).
        now destruct this. }
      rewrite Hc1, Hs1. unfold this1. rewrite (restored_eq this).
      apply DataCenter_ext; try reflexivity.
      cbn [materials set_info set_materials set_hoveredRack].
      change (assignTo ?a (Some ?o) ?x) with (alter (assigned a) o x).
      apply restored_twice_rack.
    + (* a server *)
      rewrite (hover_server _ _ _ _ _ _ _ E Dt Hrc Hid Htr Hdata). cbn [fst snd].
      set (t := resolve (root (restored this)) (servers (restored this)) hit) in *.
      set (enter := bool_decide (Some t <> selectedServer (restored this))).
      set (this1 := set_info _ _).
      assert (Hroot1 : root (restored this1) = root (restored this)).
      { rewrite restored_root. reflexivity. }
      assert (Hsv1 : servers (restored this1) = servers (restored this)).
      { rewrite restored_servers. reflexivity. }
      assert (Hst1 : serverStatus (restored this1) = serverStatus (restored this)).
      { rewrite restored_serverStatus. reflexivity. }
      assert (Hsel1 : selectedServer (restored this1) = selectedServer (restored this)).
      { rewrite restored_selectedServer. reflexivity. }
      assert (E1 : intersectObjects (root (restored this1)) ray
                     (interactiveObjects (root (restored this1))) true = hit :: rest)
        by now rewrite Hroot1.
      assert (Dt1 : deref (root (restored this1))
                      (resolve (root (restored this1)) (servers (restored this1)) hit)
                    = Some target)
        by now rewrite Hroot1, Hsv1.
      assert (Hdata1 : ServerStatus.getServerData id (serverStatus (restored this1))
                       = Some data)
        by now rewrite Hst1.
      rewrite (hover_server _ _ _ _ _ _ _ E1 Dt1 Hrc Hid Htr Hdata1). cbn [fst snd].
      rewrite Hroot1, Hsv1, Hsel1. fold t. fold enter.
      assert (Hview : serverView (restored this1) data = serverView (restored this) data).
      { unfold serverView. now rewrite Hroot1, Hsv1. }
      rewrite Hview. split.
      * rewrite (restored_eq this1).
        assert (Hc1 : restoredRackCase this1 = restoredRackCase this).
        { unfold restoredRackCase, this1. rewrite (restored_eq this). reflexivity. }
        assert (Hs1 : restoredServer this1 = if enter then Some t else None).
        { unfold restoredServer, this1, enter. reflexivity. }
        rewrite Hc1, Hs1. unfold this1. rewrite (restored_eq this).
        apply DataCenter_ext; try reflexivity.
        cbn [materials set_info set_materials set_hoveredServer].
        pose proof (restored_twice_server (if enter then Some t else None)
                      (restoredRackCase this) (restoredServer this) (materials this))
          as Hm.
        cbn zeta in Hm. destruct enter; exact Hm.
      * unfold enterEffects. destruct enter; reflexivity.
Qed.


Lemma Map_get_In {V : Type} (k : string) (v : V) (m : list (string * V)) :
  List.NoDup (map fst m) -> In (k, v) m -> ServerStatus.Map_get k m = Some v.
Proof.
  induction m as [| [k' v'] tl IH]; cbn [ServerStatus.Map_get map fst In];
    [tauto |].
  intros Hnd Hin. apply List.NoDup_cons_iff in Hnd as [Hfresh Hnd].
  destruct (String.eqb_spec k k') as [-> | NE].
  - destruct Hin as [[= ->] | Hin]; [reflexivity |].
    exfalso. apply Hfresh. apply in_map_iff. now exists (k', v).
  - destruct Hin as [[= -> ->] | Hin]; [congruence | now apply IH].
Qed.

Lemma scene_server_ids : map fst sceneServers = ServerStatus.all_ids.
Proof. vm_compute. reflexivity. Qed.

Lemma scene_racksApart : racksApart sceneRacks = true.
Proof. vm_compute. reflexivity. Qed.

Lemma rack_of_index (r r' : Ref) :
  In r (map snd sceneRacks) -> In r' (map snd sceneRacks) ->
  rackIndexOf sceneRoot (Some r) = rackIndexOf sceneRoot (Some r') -> r = r'.
Proof.
  intros Hr Hr' E. apply in_map_iff in Hr as (e & <- & He).
  apply in_map_iff in Hr' as (e' & <- & He').
  pose proof scene_racksApart as A. unfold racksApart in A.
  rewrite forallb_forall in A. specialize (A _ He). rewrite forallb_forall in A.
  specialize (A _ He'). rewrite bool_decide_eq_true_2 in A by exact E.
  cbn [implb] in A. unfold Ref_eqb in A. now apply bool_decide_eq_true in A.
Qed.

(** the target of a pointer move on a reachable state: nothing when the
    ray meets nothing that is tested, else the rack whose case is met, or
    the server whose mesh or light is met *)
Lemma pick_target (this : DataCenter) (ray : list Ref) :
  wf this ->
  match intersectObjects (root this) ray (interactiveObjects (root this)) true with
  | [] => pointerTarget this ray = TargetNone
  | hit :: rest =>
      let t := resolve (root this) (servers this) hit in
      exists target,
        deref (root this) t = Some target /\
        ((ud_isRackCase (userData target) = true /\
          exists rack, t = 0%nat :: rack /\ In rack (map snd sceneRacks) /\
            is_Some (rackIndexOf (root this) (Some rack)) /\
            pointerTarget this ray = TargetRack (rackIndexOf (root this) (Some rack))) \/
         (ud_isRackCase (userData target) = false /\
          exists id data,
            ud_id (userData target) = Some id /\ truthy (Some id) = true /\
            ServerStatus.Map_get id (servers this) = Some t /\
            ServerStatus.getServerData id (serverStatus this) = Some data /\
            pointerTarget this ray = TargetServer id))
  end.
Proof.
  intros Hwf. unfold pointerTarget.
  destruct (intersectObjects _ _ _ _) as [| hit rest] eqn:E; [reflexivity |].
  cbn zeta.
  destruct (pick_cases _ _ _ _ Hwf E) as (h & target & Dh & Dt & Hcase).
  exists target. split; [exact Dt |].
  unfold targetOf, userDataAt. rewrite Dt. cbn [fmap option_fmap option_map].
  destruct Hcase as [(Hrc & Heq & rack & Ht & Hin & _ & Hidx)
                    | (Hrc & id & data & Hid & Htr & Hin & Hdata & _)].
  - left. split; [exact Hrc |]. exists rack. rewrite Hrc, Ht. cbn [Three.parent].
    repeat split; assumption.
  - right. split; [exact Hrc |]. exists id, data. rewrite Hrc, Hid, Htr.
    repeat split; try assumption.
    rewrite (wf_servers _ Hwf) in Hin |- *. apply Map_get_In; [| exact Hin].
    rewrite scene_server_ids. apply NoDup_ListNoDup, all_ids_NoDup.
Qed.

(** two rays with the same target are hovered alike *)
Lemma hover_same_target (this : DataCenter) (ray1 ray2 : list Ref) :
  wf this -> pointerTarget this ray1 = pointerTarget this ray2 ->
  hover ray1 this = hover ray2 this.
Proof.
  intros Hwf Hsame.
  pose proof (pick_target this ray1 Hwf) as P1.
  pose proof (pick_target this ray2 Hwf) as P2.
  destruct (intersectObjects (root this) ray1 _ true) as [| hit1 rest1] eqn:E1;
    destruct (intersectObjects (root this) ray2 _ true) as [| hit2 rest2] eqn:E2;
    cbn zeta in P1, P2.
  - now rewrite (hover_none _ _ E1), (hover_none _ _ E2).
  - exfalso. rewrite P1 in Hsame.
    destruct P2 as (target & _ & [(_ & rack & _ & _ & _ & P2)
                                 | (_ & id & data & _ & _ & _ & _ & P2)]);
      congruence.
  - exfalso. rewrite P2 in Hsame.
    destruct P1 as (target & _ & [(_ & rack & _ & _ & _ & P1)
                                 | (_ & id & data & _ & _ & _ & _ & P1)]);
      congruence.
  - destruct P1 as (target1 & D1 & [(Hrc1 & rack1 & Ht1 & Hin1 & Hidx1 & P1)
                                   | (Hrc1 & id1 & data1 & Hid1 & Htr1 & Hget1 & Hdata1 & P1)]);
      destruct P2 as (target2 & D2 & [(Hrc2 & rack2 & Ht2 & Hin2 & Hidx2 & P2)
                                     | (Hrc2 & id2 & data2 & Hid2 & Htr2 & Hget2 & Hdata2 & P2)]);
      rewrite P1, P2 in Hsame; try discriminate.
    + injection Hsame as Hsame. rewrite (wf_root _ Hwf) in Hsame.
      apply (rack_of_index _ _ Hin1 Hin2) in Hsame. subst rack2.
      rewrite (hover_rack _ _ _ _ _ E1 D1 Hrc1), (hover_rack _ _ _ _ _ E2 D2 Hrc2).
      cbn zeta. now rewrite Ht1, Ht2.
    + injection Hsame as <-.
      rewrite Hget1 in Hget2. injection Hget2 as Hget2.
      rewrite Hdata1 in Hdata2. injection Hdata2 as <-.
      rewrite (hover_server _ _ _ _ _ _ _ E1 D1 Hrc1 Hid1 Htr1 Hdata1),
              (hover_server _ _ _ _ _ _ _ E2 D2 Hrc2 Hid2 Htr2 Hdata1).
      cbn zeta. now rewrite Hget2.
Qed.

Lemma pointerTarget_ext (a b : DataCenter) (ray : list Ref) :
  root a = root b -> servers a = servers b ->
  pointerTarget a ray = pointerTarget b ray.
Proof. intros Hr Hs. unfold pointerTarget. now rewrite Hr, Hs. Qed.

Lemma pointerTarget_restored (this : DataCenter) (ray : list Ref) :
  pointerTarget (restored this) ray = pointerTarget this ray.
Proof. apply pointerTarget_ext; [apply restored_root | apply restored_servers]. Qed.

Lemma pointerTarget_moved (this : DataCenter) (ray ray' : list Ref) :
  pointerTarget (fst (handleMouseMove ray' this)) ray = pointerTarget this ray.
Proof.
  apply pointerTarget_ext.
  - unfold root.
    now rewrite (keeps_handleMouseMove children ray' plain_children).
  - now rewrite (keeps_handleMouseMove servers ray' plain_servers).
Qed.

Lemma handleMouseMove_same_target (this : DataCenter) (ray1 ray2 : list Ref) :
  wf this -> pointerTarget this ray1 = pointerTarget this ray2 ->
  handleMouseMove ray1 this = handleMouseMove ray2 this.
Proof.
  intros Hwf Hsame. rewrite !handleMouseMove_eq. cbn zeta.
  change (fst (restoreHoveredServer (fst (restoreHoveredRack this))))
    with (restored this).
  rewrite (hover_same_target (restored this) ray1 ray2);
    [reflexivity | now apply wf_restored |].
  now rewrite !pointerTarget_restored.
Qed.

(** the enter effects of one pointer move *)
Lemma handleMouseMove_enters (this : DataCenter) (ray : list Ref) :
  wf this ->
  enterEffects (snd (handleMouseMove ray this))
  = entersFor this (pointerTarget this ray).
Proof.
  intros Hwf. rewrite handleMouseMove_enter, <- (pointerTarget_restored this ray).
  pose proof (wf_restored _ Hwf) as HwfR.
  pose proof (pick_target (restored this) ray HwfR) as P.
  destruct (intersectObjects (root (restored this)) ray _ true)
    as [| hit rest] eqn:E; cbn zeta in P.
  - rewrite (hover_none _ _ E), P. reflexivity.
  - destruct P as (target & D & [(Hrc & rack & Ht & Hin & Hidx & P)
                                | (Hrc & id & data & Hid & Htr & Hget & Hdata & P)]);
      rewrite P.
    + rewrite (hover_rack _ _ _ _ _ E D Hrc). reflexivity.
    + rewrite (hover_server _ _ _ _ _ _ _ E D Hrc Hid Htr Hdata). cbn zeta.
      cbn [snd entersFor].
      rewrite restored_servers in Hget. rewrite Hget.
      rewrite restored_selectedServer.
      destruct (decide (Some (resolve (root (restored this)) (servers (restored this)) hit)
                        = selectedServer this)) as [Heq | Hne].
      * rewrite bool_decide_eq_false_2 by (intros H; now apply H).
        rewrite <- Heq. rewrite restored_servers.
        now rewrite bool_decide_eq_true_2.
      * rewrite bool_decide_eq_true_2 by exact Hne.
        rewrite restored_servers in Hne.
        now rewrite bool_decide_eq_false_2.
Qed.

(** C6, as amended: on every reachable state, of two consecutive pointer
    moves with the same resolved target (along the same ray or not), the
    second leaves the whole state (hovered objects, materials, info panel)
    as the first left it; [handleMouseMove] has no test for an unchanged
    target, so each of the two moves makes the restoring assignments and
    fires the enter effect again: once each for a rack and for a server
    that is not the selected one, not at all for the selected server and
    for no target. *)
Theorem hover_twice_same_state
    (rnd : Q -> Q) (rand : nat -> Q) (recursiveDefault : bool)
    (this : DataCenter) (ray1 ray2 : list Ref) :
  reachable rnd rand recursiveDefault this ->
  pointerTarget this ray1 = pointerTarget this ray2 ->
  let first := handleMouseMove ray1 this in
  let second := handleMouseMove ray2 (fst first) in
  pointerTarget (fst first) ray2 = pointerTarget this ray1 /\
  fst second = fst first /\
  enterEffects (snd first) = entersFor this (pointerTarget this ray1) /\
  enterEffects (snd second) = entersFor this (pointerTarget this ray1).
Proof.
  intros Hreach Hsame. cbn zeta. pose proof (reachable_wf _ _ _ _ Hreach) as Hwf.
  pose proof (wf_handleMouseMove ray1 this Hwf) as Hwf1.
  assert (Hsame1 : pointerTarget (fst (handleMouseMove ray1 this)) ray2
                   = pointerTarget (fst (handleMouseMove ray1 this)) ray1)
    by now rewrite !pointerTarget_moved.
  rewrite (handleMouseMove_same_target _ ray2 ray1 Hwf1 Hsame1).
  destruct (handleMouseMove_twice this ray1 Hwf) as [Hstate Hcount].
  cbn zeta in Hstate, Hcount.
  split; [now rewrite pointerTarget_moved |]. split; [exact Hstate |].
  rewrite Hcount. split; now apply handleMouseMove_enters.
Qed.

Lemma hover_twice_same_state_witness :
  let this := new_DataCenter round64 (fun _ => 1 # 2) 0 in
  let ray1 := [[0; 1; 27]%nat] in
  let ray2 := [[0; 0; 1; 27]; [0; 1; 27]]%nat in
  let first := handleMouseMove ray1 this in
  let second := handleMouseMove ray2 (fst first) in
  pointerTarget (fst first) ray2 = pointerTarget this ray1 /\
  fst second = fst first /\
  enterEffects (snd first) = entersFor this (pointerTarget this ray1) /\
  enterEffects (snd second) = entersFor this (pointerTarget this ray1).
Proof.
  intros this ray1 ray2.
  apply (hover_twice_same_state round64 (fun _ => 1 # 2) true).
  - apply reach_new.
  - vm_compute. reflexivity.
Defined.

(** C6 as stated fails: two pointer moves onto the server mesh
    rack0-server0, from the state the constructor leaves, make the enter
    assignment (wireframe := true) twice, once each. *)
Lemma hover_twice_enters_twice :
  let this := new_DataCenter round64 (fun _ => 1 # 2) 0 in
  let ray := [[0; 1; 27]%nat] in
  let first := handleMouseMove ray this in
  let second := handleMouseMove ray (fst first) in
  targetOf (root this) (servers this) [0; 1; 27]%nat = TargetServer "rack0-server0" /\
  snd second = [Write [0; 1; 27]%nat (SetWireframe false);
                Write [0; 1; 27]%nat (SetWireframe true);
                Render (serverView this
                          (ServerStatus.newServerData round64 (fun _ => 1 # 2)
                             "rack0-server0" 0))] /\
  enterEffects (snd first ++ snd second) = 2%nat /\
  enterEffects (snd first ++ snd second) <> 1%nat.
Proof.
  intros this ray first second.
  assert (H2 : enterEffects (snd first ++ snd second) = 2%nat)
    by (vm_compute; reflexivity).
  split; [vm_compute; reflexivity |]. split; [vm_compute; reflexivity |].
  split; [exact H2 |]. rewrite H2. discriminate.
Qed.

End InteractionClaims.

(** * Further properties of the telemetry store *)

Section TelemetryMore.
Import Num ServerStatus.

Lemma forEach_update_sd_ids rnd rand (m : ServerMap) (n : nat) :
  map (fun e => sd_id (snd e)) (fst (forEach_update rnd rand m n)) =
  map (fun e => sd_id (snd e)) m.
Proof.
  revert n. induction m as [| [k server] tl IH]; intros n; [reflexivity |].
  cbn [forEach_update]. specialize (IH (3 + n)%nat).
  destruct (forEach_update rnd rand tl (3 + n)) as [tl' n'].
  cbn [fst map snd] in *. now rewrite IH.
Qed.

Lemma Map_get_is_Some {V : Type} (k : string) (m : list (string * V)) :
  is_Some (Map_get k m) <-> In k (map fst m).
Proof.
  rewrite <- not_eq_None_Some, Map_get_None.
  split; [| tauto]. intros H.
  destruct (in_dec string_dec k (map fst m)); tauto.
Qed.

(** X1: whatever the store holds, [updateServerStatus] (any number of
    times) neither adds nor removes nor reorders records and changes no
    id: the keys, the ids and the number of records stay, so
    [getServerData] answers for the same strings as before. *)
Theorem ticks_keep_records (rnd : Q -> Q) (rand : nat -> Q) (k : nat) (this : State) :
  let this' := ticks rnd rand k this in
  map fst (servers this') = map fst (servers this) /\
  map (fun e => sd_id (snd e)) (servers this')
    = map (fun e => sd_id (snd e)) (servers this) /\
  length (servers this') = length (servers this) /\
  (forall id, is_Some (getServerData id this') <-> is_Some (getServerData id this)).
Proof.
  cbn zeta.
  assert (Hk : map fst (servers (ticks rnd rand k this)) = map fst (servers this))
    by apply ticks_keys.
  split; [exact Hk |]. split; [| split].
  - induction k as [| k IH]; [reflexivity |].
    cbn [ticks]. rewrite updateServerStatus_servers, forEach_update_sd_ids.
    apply IH. apply ticks_keys.
  - rewrite <- (length_map fst), Hk. apply length_map.
  - intros id. unfold getServerData. now rewrite !Map_get_is_Some, Hk.
Qed.

Lemma ticks_drawn rnd rand (k : nat) (this : State) :
  drawn (ticks rnd rand k this) = (3 * length (servers this) * k + drawn this)%nat.
Proof.
  induction k as [| k IH]; [cbn [ticks]; lia |].
  cbn [ticks]. unfold updateServerStatus.
  pose proof (forEach_update_drawn rnd rand (servers (ticks rnd rand k this))
                (drawn (ticks rnd rand k this))) as H.
  destruct (forEach_update _ _ _ _) as [m n]. cbn [snd drawn] in *.
  rewrite H, IH. rewrite <- (length_map fst), ticks_keys, length_map. lia.
Qed.

(** X2: the constructor draws 135 random values, three for each of the 45
    records, and every [updateServerStatus] draws three for each record
    the store holds; after the constructor and [k] updates 135 (k + 1)
    values are drawn. *)
Theorem draws_consumed (rnd : Q -> Q) (rand : nat -> Q) (n k : nat) (this : State) :
  drawn (new_ServerStatus rnd rand n) = (135 + n)%nat /\
  drawn (updateServerStatus rnd rand this)
    = (3 * length (servers this) + drawn this)%nat /\
  drawn (ticks rnd rand k (new_ServerStatus rnd rand n)) = (135 * (k + 1) + n)%nat.
Proof.
  split; [reflexivity |]. split.
  - pose proof (ticks_drawn rnd rand 1 this) as H. cbn [ticks] in H. lia.
  - rewrite ticks_drawn.
    change (length (servers (new_ServerStatus rnd rand n))) with 45%nat.
    change (drawn (new_ServerStatus rnd rand n)) with (135 + n)%nat. lia.
Qed.

Lemma Qmax_Qmin_le (lo hi x y : Q) : lo <= y -> x <= y -> Qmax lo (Qmin hi x) <= y.
Proof.
  intros H1 H2. apply Q.max_lub; [exact H1 |].
  apply Qle_trans with x; [apply Q.le_min_r | exact H2].
Qed.

Lemma Qmax_Qmin_ge (lo hi x y : Q) : y <= hi -> y <= x -> y <= Qmax lo (Qmin hi x).
Proof.
  intros H1 H2. apply Qle_trans with (Qmin hi x); [| apply Q.le_max_r].
  now apply Q.min_glb.
Qed.

(** one metric of [updateServer]: from a value within its bounds it moves
    by no more than the largest delta, up to rounding *)
Lemma metric_step (rnd : Q -> Q) (r : Q) (scale lo hi : Z) (bound x : Q) :
  Rounding rnd -> (0 <= scale <= 100)%Z -> bound == scale # 2 -> 0 <= r < 1 ->
  (0 <= lo <= 100)%Z -> (0 <= hi <= 100)%Z ->
  inject_Z lo <= x <= inject_Z hi ->
  inject_Z lo + bound <= inject_Z hi ->
  let x' := Qmax (inject_Z lo) (Qmin (inject_Z hi)
              (add rnd x (mul rnd (sub rnd r (1 # 2)) (inject_Z scale)))) in
  rnd (x - bound) <= x' <= rnd (x + bound).
Proof.
  intros Hrnd Hs Hb Hr Hlo Hhi [Hx1 Hx2] Hroom. cbn zeta.
  pose proof (delta_range rnd r scale bound Hrnd Hs Hb Hr) as [Hd1 Hd2].
  assert (Hbz : 0 <= bound) by (rewrite Hb; unfold Qle; cbn; lia).
  assert (Flo : rnd (inject_Z lo) == inject_Z lo).
  { apply (rnd_fix rnd Hrnd (2 * lo)); [lia |]. unfold Qeq, inject_Z; cbn; lia. }
  assert (Fhi : rnd (inject_Z hi) == inject_Z hi).
  { apply (rnd_fix rnd Hrnd (2 * hi)); [lia |]. unfold Qeq, inject_Z; cbn; lia. }
  unfold add. split.
  - apply Qmax_Qmin_ge.
    + rewrite <- Fhi. apply (rnd_mono rnd Hrnd). lra.
    + apply (rnd_mono rnd Hrnd). lra.
  - apply Qmax_Qmin_le.
    + rewrite <- Flo. apply (rnd_mono rnd Hrnd). lra.
    + apply (rnd_mono rnd Hrnd). lra.
Qed.

(** X3: one [updateServerStatus] moves a record whose metrics are within
    their bounds by at most one degree, five points of CPU usage and two
    and a half points of memory usage, up to the rounding of the sum:
    each new metric lies between the rounded old value minus and plus
    that step. *)
Theorem updateServer_small_step
    (rnd : Q -> Q) (r1 r2 r3 : Q) (server : ServerData) :
  Rounding rnd -> 0 <= r1 < 1 -> 0 <= r2 < 1 -> 0 <= r3 < 1 -> clamped server ->
  let server' := updateServer rnd r1 r2 r3 server in
  rnd (temperature server - 1) <= temperature server' <= rnd (temperature server + 1) /\
  rnd (cpuUsage server - 5) <= cpuUsage server' <= rnd (cpuUsage server + 5) /\
  rnd (memoryUsage server - (5 # 2)) <= memoryUsage server'
    <= rnd (memoryUsage server + (5 # 2)).
Proof.
  intros Hrnd H1 H2 H3 (Ht & Hc & Hm). cbn zeta.
  unfold updateServer. cbn [temperature cpuUsage memoryUsage].
  split; [| split].
  - apply (metric_step rnd r1 2 25 45 1 _ Hrnd); try lia; try assumption;
      [reflexivity | discriminate].
  - apply (metric_step rnd r2 10 20 95 5 _ Hrnd); try lia; try assumption;
      [reflexivity | discriminate].
  - apply (metric_step rnd r3 5 30 95 (5 # 2) _ Hrnd); try lia; try assumption;
      [reflexivity | discriminate].
Qed.

Lemma updateServer_small_step_witness :
  let server := newServerData round64 (fun _ => 1 # 3) "rack0-server0" 0 in
  let server' := updateServer round64 (1 # 4) (1 # 2) (3 # 4) server in
  round64 (temperature server - 1) <= temperature server'
    <= round64 (temperature server + 1) /\
  round64 (cpuUsage server - 5) <= cpuUsage server' <= round64 (cpuUsage server + 5) /\
  round64 (memoryUsage server - (5 # 2)) <= memoryUsage server'
    <= round64 (memoryUsage server + (5 # 2)).
Proof.
  intros server.
  apply (updateServer_small_step round64 (1 # 4) (1 # 2) (3 # 4) server).
  - exact round64_Rounding.
  - split; [discriminate | reflexivity].
  - split; [discriminate | reflexivity].
  - split; [discriminate | reflexivity].
  - vm_compute. repeat split; discriminate.
Defined.

(** X4: the status [updateServerStatus] gives is monotone in the metrics:
    of two updated records, the one that is at least as hot and as loaded
    in all three metrics has a status at least as bad. *)
Theorem status_monotone
    (rnd : Q -> Q) (r1 r2 r3 r1' r2' r3' : Q) (s s' : ServerData) :
  let a := updateServer rnd r1 r2 r3 s in
  let b := updateServer rnd r1' r2' r3' s' in
  temperature a <= temperature b -> cpuUsage a <= cpuUsage b ->
  memoryUsage a <= memoryUsage b ->
  (DataCenter.severity (status a) <= DataCenter.severity (status b))%nat.
Proof.
  cbn zeta. intros Ht Hc Hm.
  rewrite (updateServer_status rnd r1 r2 r3 s), (updateServer_status rnd r1' r2' r3' s').
  set (a := updateServer rnd r1 r2 r3 s) in *.
  set (b := updateServer rnd r1' r2' r3' s') in *.
  unfold threshold.
  repeat match goal with
         | |- context [Qlt_le_dec ?x ?y] => destruct (Qlt_le_dec x y)
         end; cbn [DataCenter.severity]; try lia; exfalso; lra.
Qed.

Lemma status_monotone_witness :
  let s := newServerData round64 (fun _ => 1 # 3) "rack0-server0" 0 in
  let a := updateServer round64 (1 # 4) (1 # 4) (1 # 4) s in
  let b := updateServer round64 (3 # 4) (3 # 4) (3 # 4) s in
  (DataCenter.severity (status a) <= DataCenter.severity (status b))%nat.
Proof.
  intros s.
  apply (status_monotone round64 (1 # 4) (1 # 4) (1 # 4) (3 # 4) (3 # 4) (3 # 4) s s);
    vm_compute; discriminate.
Defined.

End TelemetryMore.
(** * Further properties of the interaction *)

(** one goal for each effect of a trace *)
Ltac among :=
  cbn [snd app];
  repeat first [apply List.Forall_nil | apply List.Forall_cons; [cbn; tauto |]].

(** an assignment to one property leaves the others *)
Ltac unwritten :=
  let a := fresh "a" in
  intros a ? ?; destruct a; cbn in *; try reflexivity; exfalso; intuition discriminate.

Section Untouched.
Import Num Three DataCenter.

#[local] Arguments intersectObjects : simpl never.
#[local] Arguments serverMeshes : simpl never.
#[local] Arguments interactiveObjects : simpl never.

(** assignments to other properties leave a property of every material as
    it is *)
Lemma applyTrace_unwritten {A : Type} (proj : Material -> A) (ps : list Property)
    (panel : bool) (t : list Effect) (m : gmap Ref Material) (k : Ref) :
  (forall a mat, In (written a) ps -> proj (assigned a mat) = proj mat) ->
  Forall (effectAmong ps panel) t ->
  proj <$> applyTrace t m !! k = proj <$> m !! k.
Proof.
  intros Hproj. revert m. induction t as [| e t IH]; intros m Ht; [reflexivity |].
  apply Forall_cons in Ht as [He Ht]. cbn [applyTrace fold_left].
  change (fold_left _ t ?x) with (applyTrace t x). rewrite (IH _ Ht).
  destruct e as [o a | v]; [| reflexivity]. cbn [applyEffect effectAmong] in *.
  destruct (decide (o = k)) as [-> | Hne]; [| now rewrite lookup_alter_ne].
  rewrite lookup_alter_eq. destruct (m !! k) as [mat |]; [| reflexivity].
  cbn. f_equal. now apply Hproj.
Qed.

Lemma first_hit_ray (root : Object3D) (ray objects : list Ref) (recursive : bool)
    (hit : Ref) (rest : list Ref) :
  intersectObjects root ray objects recursive = hit :: rest -> In hit ray.
Proof.
  unfold intersectObjects. intros E.
  assert (H : In hit (hit :: rest)) by now left.
  rewrite <- E in H. now apply filter_In in H.
Qed.

Lemma update_among rnd rand this :
  Forall (effectAmong [UniformTemperature; Color] false) (snd (update rnd rand this)).
Proof.
  eapply List.Forall_impl; [| apply update_trace].
  intros e [mesh [[v ->] | [st ->]]]; cbn; tauto.
Qed.

Lemma restore_among this :
  Forall (effectAmong [Opacity; Wireframe] true) (snd (restoreHoveredRack this)) /\
  Forall (effectAmong [Opacity; Wireframe] true) (snd (restoreHoveredServer this)).
Proof.
  unfold restoreHoveredRack, restoreHoveredServer. split.
  - destruct (hoveredRack this); [destruct (findIndex _ _) |]; among.
  - destruct (hoveredServer this); [destruct (bool_decide _) |]; among.
Qed.

Lemma hover_among ray this :
  Forall (effectAmong [Opacity; Wireframe] true) (snd (hover ray this)).
Proof.
  unfold hover.
  destruct (intersectObjects _ _ _ _) as [| hit rest].
  - cbn. among.
  - destruct (deref _ _) as [target |]; [| constructor].
    destruct (ud_isRackCase _).
    + cbn. among.
    + destruct (truthy _); [| constructor].
      rewrite !block_cons, block_nil. cbn [assign fst snd app].
      rewrite app_nil_r. apply Forall_app. split.
      * destruct (bool_decide _); among.
      * destruct (_ ≫= _); among.
Qed.

Lemma handleMouseMove_among ray this :
  Forall (effectAmong [Opacity; Wireframe] true) (snd (handleMouseMove ray this)).
Proof.
  rewrite handleMouseMove_eq. cbn [snd].
  apply Forall_app. split; [apply restore_among |].
  apply Forall_app. split; [apply restore_among | apply hover_among].
Qed.

(** the two outcomes of [handleClick] on any state *)
Lemma handleClick_cases recursiveDefault ray this :
  handleClick recursiveDefault ray this = (this, []) \/
  exists clicked rest id data,
    intersectObjects (root this) ray (serverMeshes (root this)) recursiveDefault
      = clicked :: rest /\
    userDataAt (root this) clicked ≫= ud_id = Some id /\
    truthy (Some id) = true /\
    ServerStatus.getServerData id (serverStatus this) = Some data /\
    handleClick recursiveDefault ray this = select clicked data this.
Proof.
  unfold handleClick.
  destruct (intersectObjects _ _ _ _) as [| clicked rest] eqn:E; [now left |].
  cbn zeta. destruct (userDataAt (root this) clicked ≫= ud_id) as [id |] eqn:U;
    [| now left].
  destruct (truthy (Some id)) eqn:T; [| now left].
  cbn [mbind option_bind].
  destruct (ServerStatus.getServerData id (serverStatus this)) as [data |] eqn:D;
    [| now left].
  right. exists clicked, rest, id, data. repeat split; try assumption.
Qed.

Lemma select_among clicked data this :
  Forall (effectAmong [Wireframe] true) (snd (select clicked data this)).
Proof.
  rewrite select_eq. cbn zeta. cbn [snd].
  destruct (selectedServer this); among.
Qed.

Lemma handleClick_among recursiveDefault ray this :
  Forall (effectAmong [Wireframe] true) (snd (handleClick recursiveDefault ray this)).
Proof.
  destruct (handleClick_cases recursiveDefault ray this)
    as [-> | (clicked & rest & id & data & _ & _ & _ & _ & ->)];
    [constructor | apply select_among].
Qed.

Lemma lawful_select clicked data : lawful (select clicked data).
Proof.
  intros this. rewrite select_eq. cbn zeta. cbn [fst snd].
  destruct this as [st sv rk sel hr hs ch m i]. cbn [selectedServer materials].
  destruct sel; reflexivity.
Qed.

Lemma lawful_handleClick recursiveDefault ray : lawful (handleClick recursiveDefault ray).
Proof.
  intros this.
  destruct (handleClick_cases recursiveDefault ray this)
    as [-> | (clicked & rest & id & data & _ & _ & _ & _ & ->)];
    [reflexivity | apply lawful_select].
Qed.

Lemma keeps_select {A : Type} (field : DataCenter -> A) clicked data :
  plain field -> (forall v this, field (set_selectedServer v this) = field this) ->
  keeps field (select clicked data).
Proof.
  intros H Hs. apply keeps_block. commands.
  - intros this. destruct (selectedServer this); [now apply keeps_write | reflexivity].
  - now apply keeps_assign.
  - now apply keeps_write.
  - now apply keeps_showServerInfo.
Qed.

Lemma keeps_handleClick {A : Type} (field : DataCenter -> A) recursiveDefault ray :
  plain field -> (forall v this, field (set_selectedServer v this) = field this) ->
  keeps field (handleClick recursiveDefault ray).
Proof.
  intros H Hs this.
  destruct (handleClick_cases recursiveDefault ray this)
    as [-> | (clicked & rest & id & data & _ & _ & _ & _ & ->)];
    [reflexivity | now apply keeps_select].
Qed.

Lemma update_info rnd rand this : info (fst (update rnd rand this)) = info this.
Proof.
  rewrite update_eq. cbn zeta.
  assert (H : forall l this', info (fst (block (map (fun e => updateMesh rnd (fst e) (snd e)) l)
                                            this')) = info this').
  { induction l as [| [id mesh] tl IH]; intros this'; [reflexivity |].
    cbn [map]. rewrite block_cons. cbn [fst]. rewrite IH, updateMesh_eq.
    destruct (ServerStatus.getServerData _ _); [| reflexivity].
    cbn zeta. destruct (nth_error _ 0); reflexivity. }
  now rewrite H.
Qed.

Lemma handleMouseMove_unwritten (ray : list Ref) (this : DataCenter) (o : Ref) :
  color <$> materials (fst (handleMouseMove ray this)) !! o
    = color <$> materials this !! o /\
  uniform_temperature <$> materials (fst (handleMouseMove ray this)) !! o
    = uniform_temperature <$> materials this !! o.
Proof.
  split; rewrite lawful_handleMouseMove;
    apply (applyTrace_unwritten _ [Opacity; Wireframe] true);
    try apply handleMouseMove_among; unwritten.
Qed.

Lemma handleClick_unwritten recursiveDefault (ray : list Ref) (this : DataCenter)
    (o : Ref) :
  color <$> materials (fst (handleClick recursiveDefault ray this)) !! o
    = color <$> materials this !! o /\
  uniform_temperature <$> materials (fst (handleClick recursiveDefault ray this)) !! o
    = uniform_temperature <$> materials this !! o /\
  opacity <$> materials (fst (handleClick recursiveDefault ray this)) !! o
    = opacity <$> materials this !! o.
Proof.
  repeat split; rewrite lawful_handleClick;
    apply (applyTrace_unwritten _ [Wireframe] true);
    try apply handleClick_among; unwritten.
Qed.

(** X5: an [update()] changes the telemetry, the heat-map uniforms and the
    light colours only: the selection, the hovered rack and server, the
    info panel, the scene graph, the registries, and the wireframe flag
    and the opacity of every material are as before, on any state. *)
Theorem update_keeps_interaction (rnd : Q -> Q) (rand : nat -> Q) (this : DataCenter) :
  let this' := fst (update rnd rand this) in
  selectedServer this' = selectedServer this /\
  hoveredServer this' = hoveredServer this /\
  hoveredRack this' = hoveredRack this /\
  info this' = info this /\
  children this' = children this /\
  servers this' = servers this /\
  racks this' = racks this /\
  (forall o, wireframe <$> materials this' !! o = wireframe <$> materials this !! o) /\
  (forall o, opacity <$> materials this' !! o = opacity <$> materials this !! o).
Proof.
  cbn zeta.
  split; [now apply keeps_update; [apply plain_selectedServer |] |].
  split; [now apply keeps_update; [apply plain_hoveredServer |] |].
  split; [now apply keeps_update; [apply plain_hoveredRack |] |].
  split; [apply update_info |].
  split; [now apply keeps_update; [apply plain_children |] |].
  split; [now apply keeps_update; [apply plain_servers |] |].
  split; [now apply keeps_update; [apply plain_racks |] |].
  split; intros o; rewrite lawful_update;
    apply (applyTrace_unwritten _ [UniformTemperature; Color] false);
    try apply update_among; unwritten.
Qed.

(** X6: a pointer move changes the hover state, wireframe flags, opacities
    and the info panel only: the telemetry, the scene graph, the
    registries, the selection, and the colour and the heat-map uniform of
    every material are as before, on any state and for any ray. *)
Theorem handleMouseMove_keeps_rest (ray : list Ref) (this : DataCenter) :
  let this' := fst (handleMouseMove ray this) in
  serverStatus this' = serverStatus this /\
  children this' = children this /\
  servers this' = servers this /\
  racks this' = racks this /\
  selectedServer this' = selectedServer this /\
  (forall o, color <$> materials this' !! o = color <$> materials this !! o) /\
  (forall o, uniform_temperature <$> materials this' !! o
             = uniform_temperature <$> materials this !! o).
Proof.
  cbn zeta.
  split; [now apply keeps_handleMouseMove; [apply plain_serverStatus | |] |].
  split; [now apply keeps_handleMouseMove; [apply plain_children | |] |].
  split; [now apply keeps_handleMouseMove; [apply plain_servers | |] |].
  split; [now apply keeps_handleMouseMove; [apply plain_racks | |] |].
  split; [now apply keeps_handleMouseMove; [apply plain_selectedServer | |] |].
  split; intros o; apply handleMouseMove_unwritten.
Qed.

(** X7: a click changes the selection, wireframe flags and the info panel
    only: the telemetry, the scene graph, the registries, the hovered rack
    and server, and the colour, the heat-map uniform and the opacity of
    every material are as before, on any state, for any ray and either
    way the ray caster treats children. *)
Theorem handleClick_keeps_rest
    (recursiveDefault : bool) (ray : list Ref) (this : DataCenter) :
  let this' := fst (handleClick recursiveDefault ray this) in
  serverStatus this' = serverStatus this /\
  children this' = children this /\
  servers this' = servers this /\
  racks this' = racks this /\
  hoveredRack this' = hoveredRack this /\
  hoveredServer this' = hoveredServer this /\
  (forall o, color <$> materials this' !! o = color <$> materials this !! o) /\
  (forall o, uniform_temperature <$> materials this' !! o
             = uniform_temperature <$> materials this !! o) /\
  (forall o, opacity <$> materials this' !! o = opacity <$> materials this !! o).
Proof.
  cbn zeta.
  split; [now apply keeps_handleClick; [apply plain_serverStatus |] |].
  split; [now apply keeps_handleClick; [apply plain_children |] |].
  split; [now apply keeps_handleClick; [apply plain_servers |] |].
  split; [now apply keeps_handleClick; [apply plain_racks |] |].
  split; [now apply keeps_handleClick; [apply plain_hoveredRack |] |].
  split; [now apply keeps_handleClick; [apply plain_hoveredServer |] |].
  repeat split; intros o; apply handleClick_unwritten.
Qed.

(** X8: no event of the application clears a selection or replaces it
    behind the user's back: when a server is selected, it is still the
    selected one after an animation frame and after a pointer move, and
    after a click the selected server is the same or the clicked one, a
    member of the ray. *)
Theorem selection_never_cleared
    (rnd : Q -> Q) (rand : nat -> Q) (recursiveDefault : bool)
    (ray : list Ref) (this : DataCenter) (s : Ref) :
  selectedServer this = Some s ->
  selectedServer (fst (App.animate rnd rand this)) = Some s /\
  selectedServer (fst (App.onMouseMove ray this)) = Some s /\
  (selectedServer (fst (App.onClick recursiveDefault ray this)) = Some s \/
   exists clicked,
     In clicked ray /\
     selectedServer (fst (App.onClick recursiveDefault ray this)) = Some clicked).
Proof.
  intros Hs. split; [| split].
  - unfold App.animate.
    now rewrite (keeps_update rnd rand selectedServer plain_selectedServer).
  - unfold App.onMouseMove.
    now rewrite (keeps_handleMouseMove selectedServer ray plain_selectedServer).
  - unfold App.onClick.
    destruct (handleClick_cases recursiveDefault ray this)
      as [-> | (clicked & rest & id & data & E & _ & _ & _ & ->)]; [now left |].
    right. exists clicked. split.
    + apply (first_hit_ray _ _ _ _ _ _ E).
    + rewrite select_eq. reflexivity.
Qed.

Lemma selection_never_cleared_witness :
  let rnd := round64 in
  let rand := fun _ : nat => 1 # 2 in
  let this := fst (handleClick true [[0; 1; 27]%nat] (new_DataCenter rnd rand 0)) in
  let ray := [[0; 0; 2; 28]; [0; 2; 28]]%nat in
  let s := [0; 1; 27]%nat in
  selectedServer (fst (App.animate rnd rand this)) = Some s /\
  selectedServer (fst (App.onMouseMove ray this)) = Some s /\
  (selectedServer (fst (App.onClick true ray this)) = Some s \/
   exists clicked,
     In clicked ray /\
     selectedServer (fst (App.onClick true ray this)) = Some clicked).
Proof.
  intros rnd rand this ray s.
  apply (selection_never_cleared rnd rand true ray this s).
  vm_compute. reflexivity.
Defined.

Lemma select_twice (c : Ref) (data : ServerStatus.ServerData) (this : DataCenter) :
  fst (select c data (fst (select c data this))) = fst (select c data this).
Proof.
  rewrite (select_eq c data this). cbn zeta. cbn [fst].
  rewrite select_eq. cbn zeta. cbn [fst].
  destruct this as [st sv rk sel hr hs ch m i].
  apply DataCenter_ext; try reflexivity.
  cbn [selectedServer materials set_info set_materials set_selectedServer].
  apply map_eq. intros k. rewrite !lookup_alter.
  destruct sel as [sel |]; rewrite ?lookup_alter;
    repeat case_decide; subst; try congruence;
    destruct (m !! _) as [[]|]; reflexivity.
Qed.

(** X9: a second click along the same ray leaves the state as the first
    click left it, on any state: the clicked server stays selected with
    its wireframe flag, nothing else changes. *)
Theorem click_twice_as_once
    (recursiveDefault : bool) (ray : list Ref) (this : DataCenter) :
  fst (handleClick recursiveDefault ray (fst (handleClick recursiveDefault ray this)))
  = fst (handleClick recursiveDefault ray this).
Proof.
  destruct (handleClick_cases recursiveDefault ray this)
    as [H | (c & rest & id & data & E & U & T & D & H)]; rewrite H; cbn [fst];
    [exact (f_equal fst H) |].
  set (this1 := fst (select c data this)).
  assert (Hch : children this1 = children this)
    by (apply keeps_select; [apply plain_children | reflexivity]).
  assert (Hroot : root this1 = root this) by (unfold root; now rewrite Hch).
  assert (Hst : serverStatus this1 = serverStatus this)
    by (apply keeps_select; [apply plain_serverStatus | reflexivity]).
  assert (H1 : handleClick recursiveDefault ray this1 = select c data this1).
  { unfold handleClick. rewrite Hroot, E. cbn zeta. rewrite U, T.
    cbn [mbind option_bind]. now rewrite Hst, D. }
  rewrite H1. apply select_twice.
Qed.

End Untouched.
Section SceneMore.
Import Num Three DataCenter.

#[local] Arguments sceneRoot : simpl never.
#[local] Arguments sceneServers : simpl never.
#[local] Arguments sceneRacks : simpl never.
#[local] Arguments sceneChildren : simpl never.
#[local] Arguments deref : simpl never.
#[local] Arguments materialsOf : simpl never.

Lemma createRackConnections_length (racks : list (nat * Ref)) (l : list nat) :
  length (flat_map (fun rackIndex =>
                      match racks_get rackIndex racks with
                      | Some _ =>
                          flat_map (fun infra =>
                                      [createPipe infra (1 # 2); createPipe infra (1 # 2)])
                                   infrastructureTypes
                      | None => []
                      end) l)
  = (8 * length (List.filter (fun i => bool_decide (is_Some (racks_get i racks))) l))%nat.
Proof.
  induction l as [| i l IH]; [reflexivity |].
  cbn [flat_map List.filter]. rewrite List.length_app, IH.
  destruct (racks_get i racks); cbn; lia.
Qed.

(** X10: [createRackConnections] makes eight pipes for every rack index
    below nine that [this.racks] holds when it is called, and none for
    the others.  The constructor calls it before [createRacks] has
    registered any rack, so the scene it builds holds the 24 main pipes
    and not one of the 72 connection pipes of the nine racks. *)
Theorem rack_connections_never_built
    (rnd : Q -> Q) (rand : nat -> Q) (n : nat) (racks : list (nat * Ref)) :
  length (createRackConnections racks)
    = (8 * length (List.filter (fun i => bool_decide (is_Some (racks_get i racks)))
                               (seq 0 9)))%nat /\
  createRackConnections [] = [] /\
  List.filter isPipe (children (new_DataCenter rnd rand n)) = createMainInfrastructure /\
  length createMainInfrastructure = 24%nat /\
  length (createRackConnections (DataCenter.racks (new_DataCenter rnd rand n))) = 72%nat.
Proof.
  split; [apply createRackConnections_length |].
  split; [reflexivity |].
  rewrite new_DataCenter_children, new_DataCenter_racks.
  repeat split; vm_compute; reflexivity.
Qed.

End SceneMore.

Section Pointer.
Import Num.

Variable rnd : Q -> Q.
Hypothesis rnd_ok : Rounding rnd.

Lemma rnd_0 : rnd 0 == 0.
Proof. apply (rnd_fix_Z rnd rnd_ok 0). lia. Qed.

Lemma rnd_eq (q : Q) (z : Z) : (-100 <= z <= 100)%Z -> q == inject_Z z -> rnd q == inject_Z z.
Proof.
  intros Hz E. rewrite (rnd_proper rnd rnd_ok _ _ E). now apply rnd_fix_Z.
Qed.

Lemma div_range (x w : Q) :
  0 < w -> 0 <= x <= w ->
  exists q, App.div rnd x w = Some q /\ 0 <= q <= 1 /\
            (x == 0 -> q == 0) /\ (x == w -> q == 1).
Proof.
  intros Hw [Hx0 Hxw]. unfold App.div.
  destruct (Qeq_bool w 0) eqn:E.
  { apply Qeq_bool_iff in E. rewrite E in Hw. discriminate. }
  exists (rnd (x / w)). split; [reflexivity |].
  assert (H0 : 0 <= x / w) by (apply Qle_shift_div_l; [exact Hw | lra]).
  assert (H1 : x / w <= 1) by (apply Qle_shift_div_r; [exact Hw | lra]).
  split; [apply (rnd_between rnd rnd_ok 0 1); [lia | lia | split; assumption] |].
  split; intros Hx.
  - apply (rnd_eq _ 0); [lia |]. rewrite Hx. unfold Qdiv. apply Qmult_0_l.
  - apply (rnd_eq _ 1); [lia |]. rewrite Hx. field. intros H. rewrite H in Hw.
    discriminate.
Qed.

End Pointer.

Section PointerClaims.
Import Num.

(** X11: the mouse position [onMouseMove] and [onClick] hand to the ray
    caster: for a window of positive width and height and a pointer
    inside it, both coordinates are finite and lie between -1 and 1; the
    left edge maps to -1 and the right edge to 1, the top edge to 1 and
    the bottom edge to -1 (the vertical axis is flipped).  For a window
    of width or height 0 the coordinate is no finite number. *)
Theorem mouse_in_range (rnd : Q -> Q) (clientX clientY innerWidth innerHeight : Q) :
  Rounding rnd -> 0 < innerWidth -> 0 < innerHeight ->
  0 <= clientX <= innerWidth -> 0 <= clientY <= innerHeight ->
  (exists x y,
     App.mouse_x rnd clientX innerWidth = Some x /\
     App.mouse_y rnd clientY innerHeight = Some y /\
     -1 <= x <= 1 /\ -1 <= y <= 1 /\
     (clientX == 0 -> x == -1) /\ (clientX == innerWidth -> x == 1) /\
     (clientY == 0 -> y == 1) /\ (clientY == innerHeight -> y == -1)) /\
  App.mouse_x rnd clientX 0 = None /\ App.mouse_y rnd clientY 0 = None.
Proof.
  intros Hrnd Hw Hh Hx Hy. split; [| split; reflexivity].
  destruct (div_range rnd Hrnd clientX innerWidth Hw Hx) as (qx & Ex & [Hx0 Hx1] & Xl & Xr).
  destruct (div_range rnd Hrnd clientY innerHeight Hh Hy) as (qy & Ey & [Hy0 Hy1] & Yt & Yb).
  unfold App.mouse_x, App.mouse_y. rewrite Ex, Ey. cbn [fmap option_fmap option_map].
  unfold ServerStatus.sub, ServerStatus.add, ServerStatus.mul.
  eexists. eexists. split; [reflexivity |]. split; [reflexivity |].
  assert (Mx : 0 <= rnd (qx * 2) <= 2)
    by (apply (rnd_between rnd Hrnd 0 2); [lia | lia | unfold inject_Z; split; lra]).
  assert (My : -2 <= rnd (- qy * 2) <= 0)
    by (apply (rnd_between rnd Hrnd (-2) 0); [lia | lia | unfold inject_Z; split; lra]).
  split; [apply (rnd_between rnd Hrnd (-1) 1); [lia | lia | unfold inject_Z; split; lra] |].
  split; [apply (rnd_between rnd Hrnd (-1) 1); [lia | lia | unfold inject_Z; split; lra] |].
  split; [| split; [| split]]; intros E.
  - apply (rnd_eq rnd Hrnd _ (-1)); [lia |].
    rewrite (rnd_eq rnd Hrnd (qx * 2) 0); [reflexivity | lia |]. rewrite (Xl E). reflexivity.
  - apply (rnd_eq rnd Hrnd _ 1); [lia |].
    rewrite (rnd_eq rnd Hrnd (qx * 2) 2); [reflexivity | lia |]. rewrite (Xr E). reflexivity.
  - apply (rnd_eq rnd Hrnd _ 1); [lia |].
    rewrite (rnd_eq rnd Hrnd (- qy * 2) 0); [reflexivity | lia |]. rewrite (Yt E). reflexivity.
  - apply (rnd_eq rnd Hrnd _ (-1)); [lia |].
    rewrite (rnd_eq rnd Hrnd (- qy * 2) (-2)); [reflexivity | lia |]. rewrite (Yb E). reflexivity.
Qed.

Lemma mouse_in_range_witness :
  (exists x y,
     App.mouse_x round64 960 1920 = Some x /\
     App.mouse_y round64 270 1080 = Some y /\
     -1 <= x <= 1 /\ -1 <= y <= 1 /\
     (960 == 0 -> x == -1) /\ (960 == 1920 -> x == 1) /\
     (270 == 0 -> y == 1) /\ (270 == 1080 -> y == -1)) /\
  App.mouse_x round64 960 0 = None /\ App.mouse_y round64 270 0 = None.
Proof.
  apply (mouse_in_range round64 960 270 1920 1080).
  - exact round64_Rounding.
  - reflexivity.
  - reflexivity.
  - split; discriminate.
  - split; discriminate.
Defined.

End PointerClaims.
Section Synchronised.
Import Num Three DataCenter.

#[local] Arguments sceneRoot : simpl never.
#[local] Arguments sceneServers : simpl never.
#[local] Arguments sceneRacks : simpl never.
#[local] Arguments sceneChildren : simpl never.
#[local] Arguments deref : simpl never.
#[local] Arguments resolve : simpl never.
#[local] Arguments intersectObjects : simpl never.
#[local] Arguments interactiveObjects : simpl never.
#[local] Arguments serverMeshes : simpl never.
#[local] Arguments materialsOf : simpl never.

Variable rnd : Q -> Q.
Variable rand : nat -> Q.
Variable recursiveDefault : bool.

(** after the [forEach] of [update] every registered mesh has the
    heat-map uniform of its record *)
Lemma update_uniforms (l : list (string * Ref)) this :
  NoDup (map snd l) ->
  (forall e e', In e l -> In e' l -> 0%nat :: snd e <> snd e') ->
  (forall e, In e l -> is_Some (materials this !! snd e)) ->
  forall id mesh data,
    In (id, mesh) l ->
    ServerStatus.getServerData id (serverStatus this) = Some data ->
    uniform_temperature <$>
      materials (fst (block (map (fun e => updateMesh rnd (fst e) (snd e)) l) this))
        !! mesh
    = Some (rnd (rnd (ServerStatus.temperature data - 20) / 30)).
Proof.
  revert this. induction l as [| [id0 mesh0] tl IH];
    intros this Hnd Hapart Hok id mesh data Hin Hdata; [destruct Hin |].
  cbn [map] in *. apply NoDup_cons in Hnd as [Hfresh Hnd].
  rewrite block_cons. cbn [fst snd].
  set (this1 := fst (updateMesh rnd id0 mesh0 this)).
  assert (Hst : serverStatus this1 = serverStatus this).
  { unfold this1. now rewrite (keeps_updateMesh rnd serverStatus _ _ plain_serverStatus). }
  assert (Hm1 : materials this1 =
                applyTrace (snd (updateMesh rnd id0 mesh0 this)) (materials this)).
  { apply lawful_updateMesh. }
  destruct Hin as [[= -> ->] | Hin].
  - rewrite lawful_block by (apply Forall_updateMesh, lawful_updateMesh).
    rewrite applyTrace_other.
    + destruct (Hok (id, mesh) (or_introl eq_refl)) as [mat Hmat].
      cbn [snd] in Hmat. unfold this1. rewrite updateMesh_eq, Hdata. cbn zeta.
      assert (Hne : 0%nat :: mesh <> mesh)
        by (intros E; apply (f_equal length) in E; cbn in E; lia).
      destruct (nth_error _ 0); cbn [fst materials set_materials];
        rewrite ?(lookup_alter_ne _ _ _ _ Hne), lookup_alter_eq, Hmat; reflexivity.
    + eapply List.Forall_impl; [| apply block_updateMesh_trace].
      intros e (x & Hx & He) a ->. destruct He as [[v [= E _]] | [st [= E _]]].
      * apply Hfresh. cbn [snd]. replace mesh with (snd x) by congruence.
        apply list_elem_of_In. apply in_map. exact Hx.
      * apply (Hapart x (id, mesh)); [now right | now left | cbn [snd]; congruence].
  - eapply IH; [exact Hnd | | | exact Hin |].
    + intros e e' He He'. apply Hapart; now right.
    + intros e He. destruct (Hok e (or_intror He)) as [mat Hmat].
      apply elem_of_dom. rewrite Hm1, applyTrace_dom. apply elem_of_dom. now exists mat.
    + now rewrite Hst.
Qed.

Lemma scene_server_facts e :
  In e sceneServers ->
  In (fst e) ServerStatus.all_ids /\
  is_Some (nth_error (childrenAt sceneRoot (snd e)) 0) /\
  is_Some (materialsOf sceneRoot !! snd e) /\
  is_Some (materialsOf sceneRoot !! (0%nat :: snd e)).
Proof.
  destruct e as [id mesh]. intros He. pose proof scene_serverCheck as C.
  rewrite forallb_forall in C. specialize (C _ He). unfold serverCheck in C.
  unfold childrenAt. cbn [fst snd].
  destruct (deref sceneRoot mesh) as [o |]; [| discriminate].
  repeat (apply andb_prop in C as [C ?]).
  repeat match goal with
         | H : bool_decide _ = true |- _ => apply bool_decide_eq_true in H
         end.
  match goal with H : existsb _ _ = true |- _ => apply In_existsb_string in H end.
  repeat split; assumption.
Qed.

Lemma update_shows this :
  wf this ->
  Forall (shows rnd (fst (update rnd rand this))) (servers (fst (update rnd rand this))).
Proof.
  intros Hwf. pose proof (wf_update rnd rand _ Hwf) as Hwf'.
  rewrite (wf_servers _ Hwf'). apply List.Forall_forall. intros [id mesh] Hin.
  destruct (scene_server_facts _ Hin) as (Hid & Hchild & Hmat & Hlight).
  cbn [fst snd] in *.
  destruct (record_exists _ id Hwf' Hid) as [data Hdata].
  exists data. cbn [fst snd]. split; [exact Hdata |].
  assert (Hdata1 : ServerStatus.getServerData id
                     (serverStatus (set_serverStatus
                        (ServerStatus.updateServerStatus rnd rand (serverStatus this)) this))
                   = Some data).
  { rewrite update_serverStatus in Hdata. exact Hdata. }
  assert (Hapart : forall e e', In e sceneServers -> In e' sceneServers ->
                                0%nat :: snd e <> snd e').
  { intros e e' He He' E. pose proof scene_lightsApart as A. unfold lightsApart in A.
    rewrite forallb_forall in A. specialize (A _ He). rewrite forallb_forall in A.
    specialize (A _ He'). rewrite E in A. unfold Ref_eqb in A.
    now rewrite bool_decide_eq_true_2 in A. }
  rewrite update_eq. cbn zeta. rewrite (wf_servers _ Hwf). split.
  - eapply (update_lights rnd);
      [apply scene_servers_NoDup | exact Hapart | | exact Hin | exact Hdata1].
    intros e He. change (root (set_serverStatus ?v this)) with (root this).
    rewrite (wf_root _ Hwf).
    destruct (scene_server_facts _ He) as (_ & Hc & _ & Hl). split; [exact Hc |].
    apply elem_of_dom. change (materials (set_serverStatus ?v this)) with (materials this).
    rewrite (wf_materials _ Hwf). now apply elem_of_dom.
  - eapply update_uniforms;
      [apply scene_servers_NoDup | exact Hapart | | exact Hin | exact Hdata1].
    intros e He. destruct (scene_server_facts _ He) as (_ & _ & Hm & _).
    apply elem_of_dom. change (materials (set_serverStatus ?v this)) with (materials this).
    rewrite (wf_materials _ Hwf). now apply elem_of_dom.
Qed.

Lemma shows_kept (this this' : DataCenter) :
  servers this' = servers this -> serverStatus this' = serverStatus this ->
  (forall o, color <$> materials this' !! o = color <$> materials this !! o) ->
  (forall o, uniform_temperature <$> materials this' !! o
             = uniform_temperature <$> materials this !! o) ->
  Forall (shows rnd this) (servers this) -> Forall (shows rnd this') (servers this').
Proof.
  intros Hs Hst Hc Hu H. rewrite Hs. eapply List.Forall_impl; [| exact H].
  intros e (data & Hd & H1 & H2). exists data. now rewrite Hst, Hc, Hu.
Qed.

Lemma running_update this : wf this -> running rnd (fst (update rnd rand this)).
Proof.
  intros Hwf. split; [now apply wf_update |]. split; [| now apply update_shows].
  rewrite update_serverStatus.
  apply (updateServerStatus_Forall rnd rand (fun d => chained d /\ ServerStatus.clamped d)).
  intros r1 r2 r3 s. split; [reflexivity | apply updateServer_clamped].
Qed.

Lemma running_dispatch (e : App.Event) this :
  running rnd this -> running rnd (fst (App.dispatch rnd rand recursiveDefault e this)).
Proof.
  intros (Hwf & Hrec & Hshow). destruct e as [| ray | ray]; cbn [App.dispatch].
  - now apply running_update.
  - unfold App.onMouseMove.
    assert (Hst : serverStatus (fst (handleMouseMove ray this)) = serverStatus this)
      by now apply keeps_handleMouseMove; [apply plain_serverStatus | |].
    split; [now apply wf_handleMouseMove |]. split; [now rewrite Hst |].
    apply (shows_kept this); try assumption.
    + now apply keeps_handleMouseMove; [apply plain_servers | |].
    + intros o. apply handleMouseMove_unwritten.
    + intros o. apply handleMouseMove_unwritten.
  - unfold App.onClick.
    assert (Hst : serverStatus (fst (handleClick recursiveDefault ray this))
                  = serverStatus this)
      by now apply keeps_handleClick; [apply plain_serverStatus |].
    split; [now apply wf_handleClick |]. split; [now rewrite Hst |].
    apply (shows_kept this); try assumption.
    + now apply keeps_handleClick; [apply plain_servers |].
    + intros o. apply handleClick_unwritten.
    + intros o. apply handleClick_unwritten.
Qed.

Lemma running_after (n : nat) (events : list App.Event) :
  running rnd (App.after rnd rand recursiveDefault n events).
Proof.
  unfold App.after, App.new_App, App.animate.
  assert (H : running rnd (fst (update rnd rand (new_DataCenter rnd rand n))))
    by apply running_update, wf_new.
  revert H. generalize (fst (update rnd rand (new_DataCenter rnd rand n))).
  induction events as [| e events IH]; intros this H; [exact H |].
  cbn [map]. rewrite block_cons. cbn [fst]. apply IH. now apply running_dispatch.
Qed.

End Synchronised.

Section ApplicationClaims.
Import Num Three DataCenter.

(** X12: at every state of the running application (after the
    constructor, which ends with a first [animate()], and any sequence of
    animation frames, pointer moves and clicks) every registered server
    mesh shows its record: the record exists, its status is what the chain
    of tests gives its metrics, the light has the colour of that status
    (0x00ff00, 0xffff00, 0xff0000) and the material the heat-map uniform
    (temperature - 20) / 30. *)
Theorem application_shows_telemetry
    (rnd : Q -> Q) (rand : nat -> Q) (recursiveDefault : bool)
    (n : nat) (events : list App.Event) :
  let this := App.after rnd rand recursiveDefault n events in
  length (servers this) = 45%nat /\
  Forall (fun e =>
            exists data,
              ServerStatus.getServerData (fst e) (serverStatus this) = Some data /\
              ServerStatus.status data =
                (if gt (ServerStatus.temperature data) 42
                    || gt (ServerStatus.cpuUsage data) 90
                    || gt (ServerStatus.memoryUsage data) 90 then ServerStatus.error
                 else if gt (ServerStatus.temperature data) 38
                         || gt (ServerStatus.cpuUsage data) 75
                         || gt (ServerStatus.memoryUsage data) 75
                      then ServerStatus.warning
                 else ServerStatus.normal) /\
              color <$> materials this !! (0%nat :: snd e)
                = Some match ServerStatus.status data with
                       | ServerStatus.normal => 0x00ff00%Z
                       | ServerStatus.warning => 0xffff00%Z
                       | ServerStatus.error => 0xff0000%Z
                       end /\
              uniform_temperature <$> materials this !! snd e
                = Some (rnd (rnd (ServerStatus.temperature data - 20) / 30)))
         (servers this).
Proof.
  intros this. destruct (running_after rnd rand recursiveDefault n events)
    as (Hwf & Hrec & Hshow). fold this in Hwf, Hrec, Hshow.
  split; [now rewrite (wf_servers _ Hwf) |].
  eapply List.Forall_impl; [| exact Hshow].
  intros e (data & Hd & Hc & Hu). exists data. split; [exact Hd |].
  rewrite List.Forall_forall in Hrec.
  destruct (Hrec (fst e, data)) as [Hch _].
  { apply Map_get_Some. exact Hd. }
  split; [exact Hch |]. split; [| exact Hu].
  rewrite Hc. now destruct (ServerStatus.status data).
Qed.

Lemma gt_false (a b : Q) : a <= b -> gt a b = false.
Proof. intros H. unfold gt. apply Qle_bool_iff in H. now rewrite H. Qed.

(** X13: at every state of the running application, for every record of
    the store: [getTemperatureColor] never gives the red '#ff4444' (the
    temperature is clamped to 45 and the test is temp > 45); and when
    [getUsageColor] gives red for the CPU or the memory usage, the status
    is 'error' and [getStatusColor] gives red too. *)
Theorem panel_colours
    (rnd : Q -> Q) (rand : nat -> Q) (recursiveDefault : bool)
    (n : nat) (events : list App.Event) :
  let this := App.after rnd rand recursiveDefault n events in
  Forall (fun e =>
            let data := snd e in
            getTemperatureColor (ServerStatus.temperature data) <> "#ff4444"%string /\
            (getUsageColor (ServerStatus.cpuUsage data) = "#ff4444"%string \/
             getUsageColor (ServerStatus.memoryUsage data) = "#ff4444"%string ->
             ServerStatus.status data = ServerStatus.error /\
             getStatusColor (statusString (ServerStatus.status data)) = "#ff4444"%string))
         (ServerStatus.servers (serverStatus this)).
Proof.
  intros this. destruct (running_after rnd rand recursiveDefault n events)
    as (_ & Hrec & _). fold this in Hrec.
  eapply List.Forall_impl; [| exact Hrec].
  intros [id data] [Hch ((_ & Ht) & _ & _)]. cbn [snd] in *. cbn zeta. split.
  - unfold getTemperatureColor. rewrite (gt_false _ _ Ht).
    destruct (gt _ 35); discriminate.
  - intros Hred.
    assert (Herr : ServerStatus.status data = ServerStatus.error).
    { unfold chained in Hch. rewrite Hch.
      unfold getUsageColor in Hred.
      destruct (gt (ServerStatus.cpuUsage data) 90);
        [now rewrite orb_true_r |].
      destruct (gt (ServerStatus.memoryUsage data) 90);
        [now rewrite orb_true_r |].
      exfalso. destruct Hred as [H | H];
        [destruct (gt (ServerStatus.cpuUsage data) 70)
        | destruct (gt (ServerStatus.memoryUsage data) 70)]; discriminate. }
    split; [exact Herr |]. now rewrite Herr.
Qed.

(** X14: at every state of the running application the heat-map uniform
    of every registered server mesh lies between 0 and 1, the range the
    fragment shader maps to colours: the temperature is between 25 and 45,
    so (temperature - 20) / 30 is between 1/6 and 5/6, up to rounding. *)
Theorem heatmap_uniform_in_range
    (rnd : Q -> Q) (rand : nat -> Q) (recursiveDefault : bool)
    (n : nat) (events : list App.Event) :
  Rounding rnd ->
  let this := App.after rnd rand recursiveDefault n events in
  Forall (fun e =>
            exists u,
              uniform_temperature <$> materials this !! snd e = Some u /\
              rnd (1 # 6) <= u <= rnd (5 # 6) /\ 0 <= u <= 1)
         (servers this).
Proof.
  intros Hrnd this. destruct (running_after rnd rand recursiveDefault n events)
    as (_ & Hrec & Hshow). fold this in Hrec, Hshow.
  eapply List.Forall_impl; [| exact Hshow].
  intros e (data & Hd & _ & Hu). eexists. split; [exact Hu |].
  rewrite List.Forall_forall in Hrec.
  destruct (Hrec (fst e, data)) as [_ ((Ht1 & Ht2) & _ & _)].
  { apply Map_get_Some. exact Hd. }
  cbn [snd] in *.
  assert (H1 : 5 <= rnd (ServerStatus.temperature data - 20) <= 25).
  { apply (rnd_between rnd Hrnd 5 25); [lia | lia | unfold inject_Z; split; lra]. }
  assert (H2 : 1 # 6 <= rnd (ServerStatus.temperature data - 20) / 30 <= 5 # 6).
  { split; [apply Qle_shift_div_l | apply Qle_shift_div_r]; try reflexivity; lra. }
  split.
  - split; apply (rnd_mono rnd Hrnd); apply H2.
  - apply (rnd_between rnd Hrnd 0 1); [lia | lia | unfold inject_Z; split; lra].
Qed.

Lemma heatmap_uniform_in_range_witness :
  let rnd := round64 in
  let rand := fun _ : nat => 15 # 16 in
  let events := [App.MouseMove [[0; 27]%nat]; App.AnimationFrame;
                 App.Click [[0; 1; 27]%nat]] in
  let this := App.after rnd rand true 0 events in
  Forall (fun e =>
            exists u,
              uniform_temperature <$> materials this !! snd e = Some u /\
              rnd (1 # 6) <= u <= rnd (5 # 6) /\ 0 <= u <= 1)
         (servers this).
Proof.
  intros rnd rand events.
  apply (heatmap_uniform_in_range rnd rand true 0 events).
  exact round64_Rounding.
Defined.

End ApplicationClaims.
Section Tidy.
Import Num Three DataCenter.

#[local] Arguments sceneRoot : simpl never.
#[local] Arguments sceneServers : simpl never.
#[local] Arguments sceneRacks : simpl never.
#[local] Arguments sceneChildren : simpl never.
#[local] Arguments deref : simpl never.
#[local] Arguments resolve : simpl never.
#[local] Arguments intersectObjects : simpl never.
#[local] Arguments interactiveObjects : simpl never.
#[local] Arguments serverMeshes : simpl never.
#[local] Arguments materialsOf : simpl never.
#[local] Arguments rackIndexOf : simpl never.
#[local] Arguments childrenAt : simpl never.
#[local] Arguments findIndex : simpl never.
#[local] Arguments rackView : simpl never.
#[local] Arguments serverView : simpl never.

Lemma lookup_alter_kept {A : Type} (proj : Material -> A) (a : Assignment)
    (k o : Ref) (m : gmap Ref Material) :
  (forall mat, proj (assigned a mat) = proj mat) ->
  proj <$> alter (assigned a) k m !! o = proj <$> m !! o.
Proof.
  intros H. destruct (decide (k = o)) as [-> | Hne]; [| now rewrite lookup_alter_ne].
  rewrite lookup_alter_eq. destruct (m !! o) as [mat |]; [| reflexivity].
  cbn. f_equal. apply H.
Qed.

Lemma assignTo_kept {A : Type} (proj : Material -> A) (a : Assignment)
    (k : option Ref) (o : Ref) (m : gmap Ref Material) :
  (forall mat, proj (assigned a mat) = proj mat) ->
  proj <$> assignTo a k m !! o = proj <$> m !! o.
Proof. intros H. destruct k; [now apply lookup_alter_kept | reflexivity]. Qed.

Lemma lookup_alter_opacity (v : Q) (k : Ref) (m : gmap Ref Material) :
  is_Some (m !! k) -> opacity <$> alter (assigned (SetOpacity v)) k m !! k = Some v.
Proof. intros [mat H]. now rewrite lookup_alter_eq, H. Qed.

Lemma lookup_alter_wireframe (v : bool) (k : Ref) (m : gmap Ref Material) :
  is_Some (m !! k) -> wireframe <$> alter (assigned (SetWireframe v)) k m !! k = Some v.
Proof. intros [mat H]. now rewrite lookup_alter_eq, H. Qed.

Lemma fmap_is_Some {A B : Type} (f : A -> B) (x : option A) (y : B) :
  f <$> x = Some y -> is_Some x.
Proof. destruct x; [eauto | discriminate]. Qed.

Lemma scene_rackCheck : forallb rackCheck sceneRacks = true.
Proof. vm_compute. reflexivity. Qed.

Lemma scene_plainCheck : forallb plainCheck sceneServers = true.
Proof. vm_compute. reflexivity. Qed.

Lemma rack_facts (rack : Ref) :
  In rack (map snd sceneRacks) ->
  exists k, In (k, rack) sceneRacks /\
    rackCaseOf sceneRoot rack = Some (0%nat :: rack) /\
    rackIndexOf sceneRoot (Some rack) = Some k /\
    opacity <$> materialsOf sceneRoot !! (0%nat :: rack) = Some 1.
Proof.
  intros H. apply in_map_iff in H as ([k rack'] & E & H). cbn in E. subst rack'.
  exists k. split; [exact H |].
  pose proof scene_rackCheck as C. rewrite forallb_forall in C. specialize (C _ H).
  unfold rackCheck in C. apply andb_prop in C as [C Hop]. apply andb_prop in C as [Hc Hi].
  apply bool_decide_eq_true in Hc, Hi. split; [exact Hc |]. split; [exact Hi |].
  destruct (materialsOf sceneRoot !! (0%nat :: rack)) as [mat |]; [| discriminate].
  cbn. f_equal. apply andb_prop in Hop as [Hq Hd].
  destruct (opacity mat) as [num den]. cbn [Qden] in Hd. apply Pos.eqb_eq in Hd. subst den.
  apply Qeq_bool_iff in Hq. unfold Qeq in Hq. cbn in Hq. f_equal. lia.
Qed.

Lemma rack_case_found (rack : Ref) :
  In rack (map snd sceneRacks) ->
  findIndex (fun child => ud_isRackCase (userData child)) (childrenAt sceneRoot rack)
  = Some 0%nat.
Proof.
  intros H. destruct (rack_facts rack H) as (k & _ & Hc & _).
  unfold rackCaseOf in Hc.
  destruct (findIndex _ _) as [i |]; [| discriminate].
  cbn in Hc. now injection Hc as ->.
Qed.

Lemma update_unwritten rnd rand this (o : Ref) :
  wireframe <$> materials (fst (update rnd rand this)) !! o
    = wireframe <$> materials this !! o /\
  opacity <$> materials (fst (update rnd rand this)) !! o
    = opacity <$> materials this !! o.
Proof.
  split; rewrite lawful_update;
    apply (applyTrace_unwritten _ [UniformTemperature; Color] false);
    try apply update_among; unwritten.
Qed.

Lemma tidy_new rnd rand n : tidy (new_DataCenter rnd rand n).
Proof.
  split; [apply wf_new |]. split; apply List.Forall_forall.
  - intros rack H. left. rewrite new_DataCenter_materials.
    now destruct (rack_facts rack H) as (k & _ & _ & _ & Hop).
  - intros mesh H. left. rewrite new_DataCenter_materials.
    apply in_map_iff in H as (e & <- & H).
    pose proof scene_plainCheck as C. rewrite forallb_forall in C. specialize (C _ H).
    unfold plainCheck in C.
    destruct (materialsOf sceneRoot !! snd e) as [mat |]; [| discriminate].
    cbn. apply negb_true_iff in C. now rewrite C.
Qed.

Lemma tidy_update rnd rand this : tidy this -> tidy (fst (update rnd rand this)).
Proof.
  intros (Hwf & Hr & Hs). split; [now apply wf_update |].
  split; (eapply List.Forall_impl; [| eassumption]).
  - intros rack H. unfold dimmedOnlyHovered in *.
    rewrite (proj2 (update_unwritten rnd rand this _)).
    now rewrite (keeps_update rnd rand hoveredRack plain_hoveredRack).
  - intros mesh H. unfold outlinedOnlyChosen in *.
    rewrite (proj1 (update_unwritten rnd rand this _)).
    rewrite (keeps_update rnd rand hoveredServer plain_hoveredServer) by reflexivity.
    now rewrite (keeps_update rnd rand selectedServer plain_selectedServer).
Qed.

Lemma tidy_select (c : Ref) (data : ServerStatus.ServerData) this :
  tidy this -> In c (map snd sceneServers) ->
  wf (fst (select c data this)) -> tidy (fst (select c data this)).
Proof.
  intros (Hwf & Hr & Hs) Hc Hwf'. split; [exact Hwf' |].
  rewrite List.Forall_forall in Hr, Hs.
  rewrite select_eq. cbn zeta. cbn [fst].
  destruct this as [st sv rk sel hr hs ch m i].
  unfold dimmedOnlyHovered, outlinedOnlyChosen in *.
  cbn [materials hoveredRack hoveredServer selectedServer set_info set_materials
       set_selectedServer] in *.
  split; apply List.Forall_forall.
  - intros rack H. rewrite lookup_alter_kept by now intros [].
    destruct sel as [s0 |]; [rewrite lookup_alter_kept by now intros [] |];
      apply (Hr rack H).
  - intros s H.
    assert (Hex : forall x, In x (map snd sceneServers) -> is_Some (m !! x)).
    { intros x Hx. destruct (Hs x Hx) as [E | [E _]]; exact (fmap_is_Some _ _ _ E). }
    assert (Hex1 : forall x, In x (map snd sceneServers) ->
                     is_Some (match sel with
                              | Some selected => alter (assigned (SetWireframe false)) selected m
                              | None => m
                              end !! x)).
    { intros x Hx. apply elem_of_dom.
      destruct sel; [rewrite dom_alter_L |]; apply elem_of_dom; now apply Hex. }
    destruct (decide (c = s)) as [-> | Hne].
    + right. split; [now apply lookup_alter_wireframe, Hex1 | now left].
    + rewrite lookup_alter_ne by exact Hne.
      destruct sel as [s0 |].
      * destruct (decide (s0 = s)) as [-> | Hne0].
        -- left. now apply lookup_alter_wireframe, Hex.
        -- rewrite lookup_alter_ne by exact Hne0.
           destruct (Hs s H) as [E | [E [E' | E']]]; [now left | congruence |].
           right. split; [exact E | now right].
      * destruct (Hs s H) as [E | [E [E' | E']]]; [now left | congruence |].
        right. split; [exact E | now right].
Qed.

Lemma tidy_handleClick recursiveDefault ray this :
  tidy this -> tidy (fst (handleClick recursiveDefault ray this)).
Proof.
  intros Ht. pose proof Ht as (Hwf & _ & _).
  destruct (intersectObjects (root this) ray (serverMeshes (root this))
              recursiveDefault) as [| clicked rest] eqn:E.
  - unfold handleClick. now rewrite E.
  - destruct (truthy (userDataAt (root this) clicked ≫= ud_id)) eqn:T.
    + pose proof (wf_handleClick recursiveDefault ray this Hwf) as Hwf'.
      destruct (handleClick_hit recursiveDefault _ _ _ _ Hwf E T)
        as (id & data & Hid & _ & _ & _ & Hm & Heq).
      rewrite Heq in *. apply tidy_select; [exact Ht | | exact Hwf'].
      apply in_map_iff. now exists (id, clicked).
    + now rewrite (handleClick_miss recursiveDefault _ _ _ _ E T).
Qed.

(** after the restoring statements every rack case is opaque and only the
    selected server can have the wireframe flag *)
Lemma restored_tidy this :
  tidy this ->
  (forall rack, In rack (map snd sceneRacks) ->
     opacity <$> materials (restored this) !! (0%nat :: rack) = Some 1) /\
  (forall s, In s (map snd sceneServers) ->
     wireframe <$> materials (restored this) !! s = Some false \/
     (wireframe <$> materials (restored this) !! s = Some true /\
      selectedServer this = Some s)).
Proof.
  intros (Hwf & Hr & Hs). rewrite List.Forall_forall in Hr, Hs.
  rewrite restored_eq. cbn [materials set_materials]. split.
  - intros rack H. rewrite assignTo_kept by now intros [].
    unfold restoredRackCase.
    destruct (hoveredRack this) as [hr |] eqn:Ehr.
    + rewrite (wf_root _ Hwf), (rack_case_found hr (wf_hoveredRack _ Hwf hr Ehr)).
      cbn [assignTo].
      destruct (decide (hr = rack)) as [-> | Hne].
      * apply lookup_alter_opacity.
        destruct (Hr rack H) as [E | [E _]]; exact (fmap_is_Some _ _ _ E).
      * rewrite lookup_alter_ne by congruence.
        destruct (Hr rack H) as [E | [_ E]]; [exact E | congruence].
    + cbn [assignTo]. destruct (Hr rack H) as [E | [_ E]]; [exact E | congruence].
  - intros s H.
    assert (Hkept : wireframe <$> assignTo (SetOpacity 1) (restoredRackCase this)
                                    (materials this) !! s
                    = wireframe <$> materials this !! s)
      by (apply assignTo_kept; now intros []).
    unfold restoredServer.
    destruct (hoveredServer this) as [h |] eqn:Eh.
    + destruct (bool_decide (Some h <> selectedServer this)) eqn:B.
      * apply bool_decide_eq_true in B. cbn [assignTo].
        destruct (decide (h = s)) as [-> | Hne].
        -- left. apply lookup_alter_wireframe.
           destruct (Hs s H) as [E | [E _]]; rewrite <- Hkept in E;
             exact (fmap_is_Some _ _ _ E).
        -- rewrite lookup_alter_ne by exact Hne. rewrite Hkept.
           destruct (Hs s H) as [E | [E [E' | E']]]; [now left | now right | congruence].
      * apply bool_decide_eq_false in B. apply dec_stable in B.
        cbn [assignTo]. rewrite Hkept.
        destruct (Hs s H) as [E | [E [E' | E']]]; [now left | now right |].
        right. split; [exact E | congruence].
    + cbn [assignTo]. rewrite Hkept.
      destruct (Hs s H) as [E | [E [E' | E']]]; [now left | now right | congruence].
Qed.

Lemma tidy_handleMouseMove ray this :
  tidy this -> tidy (fst (handleMouseMove ray this)).
Proof.
  intros Ht. pose proof Ht as (Hwf & _ & _).
  split; [now apply wf_handleMouseMove |].
  destruct (restored_tidy this Ht) as [Hop Hwire].
  rewrite handleMouseMove_fst.
  pose proof (wf_restored _ Hwf) as HwfR.
  pose proof (pick_target (restored this) ray HwfR) as P.
  pose proof (restored_selectedServer this) as Hsel.
  assert (Hex : forall s, In s (map snd sceneServers) ->
                  is_Some (materials (restored this) !! s)).
  { intros s H. destruct (Hwire s H) as [E | [E _]]; exact (fmap_is_Some _ _ _ E). }
  assert (Hexr : forall r, In r (map snd sceneRacks) ->
                   is_Some (materials (restored this) !! (0%nat :: r))).
  { intros r H. exact (fmap_is_Some _ _ _ (Hop r H)). }
  destruct (intersectObjects (root (restored this)) ray _ true)
    as [| hit rest] eqn:E; cbn zeta in P.
  - rewrite (hover_none _ _ E). cbn [fst].
    revert Hop Hwire Hsel. generalize (restored this). intros R Hop Hwire Hsel.
    destruct R as [st sv rk sel hr hs ch m i].
    unfold dimmedOnlyHovered, outlinedOnlyChosen.
    cbn [materials hoveredRack hoveredServer selectedServer set_info
         set_hoveredRack set_hoveredServer] in *.
    split; apply List.Forall_forall.
    + intros rack H. left. now apply Hop.
    + intros s H. destruct (Hwire s H) as [E' | [E' E'']]; [now left |].
      right. split; [exact E' | left; congruence].
  - destruct P as (target & D & [(Hrc & rack & Ht' & Hin & Hidx & _)
                                | (Hrc & id & data & Hid & Htr & Hget & Hdata & _)]).
    + rewrite (hover_rack _ _ _ _ _ E D Hrc). cbn zeta. cbn [fst]. rewrite Ht'.
      cbn [Three.parent].
      revert Hop Hwire Hsel Hexr.
      generalize (rackView (restored this) (rackIndexOf (root (restored this)) (Some rack))).
      generalize (restored this). intros R view Hop Hwire Hsel Hexr.
      destruct R as [st sv rk sel hr hs ch m i].
      unfold dimmedOnlyHovered, outlinedOnlyChosen.
      cbn [materials hoveredRack hoveredServer selectedServer set_info
           set_hoveredRack set_materials] in *.
      split; apply List.Forall_forall.
      * intros r H. destruct (decide (rack = r)) as [-> | Hne].
        -- right. split; [now apply lookup_alter_opacity, Hexr | reflexivity].
        -- left. rewrite lookup_alter_ne by congruence. now apply Hop.
      * intros s H. rewrite lookup_alter_kept by now intros [].
        destruct (Hwire s H) as [E' | [E' E'']]; [now left |].
        right. split; [exact E' | left; congruence].
    + rewrite (hover_server _ _ _ _ _ _ _ E D Hrc Hid Htr Hdata). cbn zeta. cbn [fst].
      assert (Hint : In (resolve (root (restored this)) (servers (restored this)) hit)
                        (map snd sceneServers)).
      { apply Map_get_Some in Hget. rewrite (wf_servers _ HwfR) in Hget at 2.
        apply in_map_iff. eexists. split; [| exact Hget]. reflexivity. }
      revert Hop Hwire Hsel Hex Hint.
      generalize (serverView (restored this) data).
      generalize (resolve (root (restored this)) (servers (restored this)) hit).
      generalize (restored this). intros R t view Hop Hwire Hsel Hex Hint.
      destruct R as [st sv rk sel hr hs ch m i].
      unfold dimmedOnlyHovered, outlinedOnlyChosen.
      cbn [materials hoveredRack hoveredServer selectedServer set_info
           set_hoveredServer set_materials] in *.
      split; apply List.Forall_forall.
      * intros r H. left.
        destruct (bool_decide _); [rewrite lookup_alter_kept by now intros [] |];
          now apply Hop.
      * intros s H. destruct (bool_decide (Some t <> sel)) eqn:B.
        -- destruct (decide (t = s)) as [-> | Hne].
           ++ right. split; [now apply lookup_alter_wireframe, Hex | now right].
           ++ rewrite lookup_alter_ne by exact Hne.
              destruct (Hwire s H) as [E' | [E' E'']]; [now left |].
              right. split; [exact E' | left; congruence].
        -- destruct (Hwire s H) as [E' | [E' E'']]; [now left |].
           right. split; [exact E' | left; congruence].
Qed.

Lemma reachable_tidy rnd rand recursiveDefault this :
  reachable rnd rand recursiveDefault this -> tidy this.
Proof.
  induction 1 as [n | this _ IH | this ray _ IH | this ray _ IH].
  - apply tidy_new.
  - now apply tidy_update.
  - now apply tidy_handleMouseMove.
  - now apply tidy_handleClick.
Qed.

End Tidy.
Section HoverClaims.
Import Num Three DataCenter.

#[local] Arguments sceneRoot : simpl never.
#[local] Arguments sceneServers : simpl never.
#[local] Arguments sceneRacks : simpl never.
#[local] Arguments sceneChildren : simpl never.
#[local] Arguments deref : simpl never.
#[local] Arguments resolve : simpl never.
#[local] Arguments intersectObjects : simpl never.
#[local] Arguments interactiveObjects : simpl never.
#[local] Arguments serverMeshes : simpl never.
#[local] Arguments materialsOf : simpl never.
#[local] Arguments rackIndexOf : simpl never.
#[local] Arguments childrenAt : simpl never.
#[local] Arguments findIndex : simpl never.
#[local] Arguments serverView : simpl never.
#[local] Arguments ServerStatus.getServerData : simpl never.
#[local] Arguments brandOr : simpl never.
#[local] Arguments ServerStatus.Map_get : simpl never.
#[local] Arguments userDataAt : simpl never.
#[local] Arguments ServerStatus.show : simpl never.

(** X15: on every reachable state every rack has its case as child 0, and
    the case is opaque (opacity 1) or it is dimmed (opacity 0.7) and the
    rack is the hovered one: at most one rack case is dimmed, and a
    pointer move away restores it. *)
Theorem dimmed_only_hovered
    (rnd : Q -> Q) (rand : nat -> Q) (recursiveDefault : bool) (this : DataCenter) :
  reachable rnd rand recursiveDefault this ->
  Forall (fun rack =>
            rackCaseOf (root this) rack = Some (0%nat :: rack) /\
            dimmedOnlyHovered this rack)
         (map snd (racks this)).
Proof.
  intros Hreach. destruct (reachable_tidy _ _ _ _ Hreach) as (Hwf & Hr & _).
  rewrite (wf_racks _ Hwf), (wf_root _ Hwf). rewrite List.Forall_forall in Hr.
  apply List.Forall_forall. intros rack H. split; [| now apply Hr].
  now destruct (rack_facts rack H) as (k & _ & Hc & _).
Qed.

Lemma dimmed_only_hovered_witness :
  let this := fst (handleMouseMove [[0; 2; 28]%nat]
                     (fst (handleMouseMove [[0; 27]%nat]
                             (new_DataCenter round64 (fun _ => 1 # 2) 0)))) in
  Forall (fun rack =>
            rackCaseOf (root this) rack = Some (0%nat :: rack) /\
            dimmedOnlyHovered this rack)
         (map snd (racks this)).
Proof.
  intros this.
  apply (dimmed_only_hovered round64 (fun _ => 1 # 2) true).
  apply reach_move, reach_move, reach_new.
Defined.

(** X16: on every reachable state a registered server mesh has the
    wireframe flag only if it is the selected or the hovered server: no
    hover outline is left behind on a server the pointer has left. *)
Theorem outlined_only_chosen
    (rnd : Q -> Q) (rand : nat -> Q) (recursiveDefault : bool) (this : DataCenter) :
  reachable rnd rand recursiveDefault this ->
  Forall (outlinedOnlyChosen this) (map snd (servers this)).
Proof.
  intros Hreach. destruct (reachable_tidy _ _ _ _ Hreach) as (Hwf & _ & Hs).
  now rewrite (wf_servers _ Hwf).
Qed.

Lemma outlined_only_chosen_witness :
  let this := fst (handleMouseMove [[0; 2; 28]%nat]
                     (fst (handleClick true [[0; 1; 27]%nat]
                        (fst (handleMouseMove [[0; 1; 27]%nat]
                                (new_DataCenter round64 (fun _ => 1 # 2) 0)))))) in
  Forall (outlinedOnlyChosen this) (map snd (servers this)).
Proof.
  intros this.
  apply (outlined_only_chosen round64 (fun _ => 1 # 2) true).
  apply reach_move, reach_click, reach_move, reach_new.
Defined.

Lemma showRackInfo_eq (rackIndex : option nat) (this : DataCenter) :
  showRackInfo rackIndex this
  = render (RackInfo rackIndex (rackRows this rackIndex)) this.
Proof.
  unfold showRackInfo, rackRows, ServerStatus.for_loop.
  cbn [seq Nat.sub fold_left flat_map].
  repeat match goal with
         | |- context [ServerStatus.getServerData ?id ?st] =>
             destruct (ServerStatus.getServerData id st)
         end; reflexivity.
Qed.

Lemma rackView_eq (rackIndex : option nat) (this : DataCenter) :
  rackView this rackIndex = RackInfo rackIndex (rackRows this rackIndex).
Proof. unfold rackView. now rewrite showRackInfo_eq. Qed.

Lemma scene_brandCheck :
  forallb (fun k => forallb (brandCheck k) (seq 0 5)) (seq 0 9) = true.
Proof. vm_compute. reflexivity. Qed.

Lemma brand_of (k i : nat) :
  (k < 9)%nat -> (i < 5)%nat ->
  brandOr (ServerStatus.Map_get (ServerStatus.server_id k i) sceneServers
             ≫= userDataAt sceneRoot) "未知品牌"
  = fst (nth i serverBrands (""%string, 0%Z)).
Proof.
  intros Hk Hi. pose proof scene_brandCheck as C. rewrite forallb_forall in C.
  specialize (C k). rewrite forallb_forall in C.
  apply String.eqb_eq. apply C; apply in_seq; lia.
Qed.

Lemma scene_rack_indices : map fst sceneRacks = seq 0 9.
Proof. vm_compute. reflexivity. Qed.

Lemma rack_index_bound (k : nat) (rack : Ref) : In (k, rack) sceneRacks -> (k < 9)%nat.
Proof.
  intros H. apply (in_map fst) in H. rewrite scene_rack_indices in H.
  apply in_seq in H. cbn [fst] in H. lia.
Qed.

(** the rows of a rack on a reachable state *)
Lemma rackRows_full (this : DataCenter) (k : nat) :
  wf this -> (k < 9)%nat ->
  let rows := rackRows this (Some k) in
  map (fun r => snd (fst r)) rows = map (ServerStatus.server_id k) (seq 0 5) /\
  map (fun r => fst (fst r)) rows = map fst serverBrands /\
  Forall (fun r => ServerStatus.getServerData (snd (fst r)) (serverStatus this)
                   = Some (snd r)) rows.
Proof.
  intros Hwf Hk. cbn zeta. unfold rackRows. rewrite (wf_servers _ Hwf), (wf_root _ Hwf).
  cbn [seq flat_map showIndex].
  assert (Hrec : forall i, (i < 5)%nat ->
            exists data, ServerStatus.getServerData (ServerStatus.server_id k i)
                           (serverStatus this) = Some data).
  { intros i Hi. apply (record_exists this _ Hwf). apply all_ids_spec. eauto. }
  destruct (Hrec 0%nat) as [d0 H0]; [lia |]. destruct (Hrec 1%nat) as [d1 H1]; [lia |].
  destruct (Hrec 2%nat) as [d2 H2]; [lia |]. destruct (Hrec 3%nat) as [d3 H3]; [lia |].
  destruct (Hrec 4%nat) as [d4 H4]; [lia |].
  unfold ServerStatus.server_id in H0, H1, H2, H3, H4.
  rewrite H0, H1, H2, H3, H4. cbn [app map fst snd].
  split; [reflexivity |]. split.
  - pose proof (brand_of k 0 Hk) as B0. pose proof (brand_of k 1 Hk) as B1.
    pose proof (brand_of k 2 Hk) as B2. pose proof (brand_of k 3 Hk) as B3.
    pose proof (brand_of k 4 Hk) as B4.
    unfold ServerStatus.server_id in B0, B1, B2, B3, B4.
    rewrite B0, B1, B2, B3, B4 by lia. reflexivity.
  - repeat (apply List.Forall_cons; [assumption |]). apply List.Forall_nil.
Qed.

(** X17: on every reachable state, [showRackInfo] for a rack index below
    nine renders the list of the rack: five rows, one for each slot in
    slot order, with the id rack<k>-server<i>, the brand of slot i (DELL,
    HP, ... in the order of [serverBrands]) and the record stored under
    that id.  On any state a slot whose id has no record gets no row. *)
Theorem rack_roster
    (rnd : Q -> Q) (rand : nat -> Q) (recursiveDefault : bool)
    (this : DataCenter) (k : nat) :
  reachable rnd rand recursiveDefault this -> (k < 9)%nat ->
  exists rows,
    showRackInfo (Some k) this
      = (set_info (Some (RackInfo (Some k) rows)) this, [Render (RackInfo (Some k) rows)]) /\
    map (fun r => snd (fst r)) rows = map (ServerStatus.server_id k) (seq 0 5) /\
    map (fun r => fst (fst r)) rows = ["DELL"; "HP"; "曙光"; "浪潮"; "华为"]%string /\
    Forall (fun r => ServerStatus.getServerData (snd (fst r)) (serverStatus this)
                     = Some (snd r)) rows.
Proof.
  intros Hreach Hk. pose proof (reachable_wf _ _ _ _ Hreach) as Hwf.
  exists (rackRows this (Some k)). split; [now rewrite showRackInfo_eq |].
  destruct (rackRows_full this k Hwf Hk) as (H1 & H2 & H3).
  split; [exact H1 |]. split; [exact H2 | exact H3].
Qed.

Lemma rack_roster_witness :
  let this := fst (update round64 (fun _ => 1 # 2)
                     (new_DataCenter round64 (fun _ => 1 # 2) 0)) in
  exists rows,
    showRackInfo (Some 3%nat) this
      = (set_info (Some (RackInfo (Some 3%nat) rows)) this,
         [Render (RackInfo (Some 3%nat) rows)]) /\
    map (fun r => snd (fst r)) rows = map (ServerStatus.server_id 3) (seq 0 5) /\
    map (fun r => fst (fst r)) rows = ["DELL"; "HP"; "曙光"; "浪潮"; "华为"]%string /\
    Forall (fun r => ServerStatus.getServerData (snd (fst r)) (serverStatus this)
                     = Some (snd r)) rows.
Proof.
  intros this.
  apply (rack_roster round64 (fun _ => 1 # 2) true this 3).
  - apply reach_update, reach_new.
  - lia.
Defined.

(** X18: on every reachable state, a pointer move whose nearest tested
    object is a rack case makes the rack the hovered one, dims the case
    (opacity 0.7) and renders the list of the rack with its five rows;
    the target of the move is that rack.  The hovered server, if any, is
    left as it was: the move does not clear it. *)
Theorem rack_pick_hovers_rack
    (rnd : Q -> Q) (rand : nat -> Q) (recursiveDefault : bool)
    (this : DataCenter) (ray : list Ref) (hit : Ref) (rest : list Ref) (u : UserData) :
  reachable rnd rand recursiveDefault this ->
  intersectObjects (root this) ray (interactiveObjects (root this)) true
    = hit :: rest ->
  userDataAt (root this) hit = Some u -> ud_isRackCase u = true ->
  exists rack k,
    hit = 0%nat :: rack /\ In (k, rack) (racks this) /\
    pointerTarget this ray = TargetRack (Some k) /\
    hoveredRack (fst (handleMouseMove ray this)) = Some rack /\
    opacity <$> materials (fst (handleMouseMove ray this)) !! hit = Some (7 # 10) /\
    info (fst (handleMouseMove ray this))
      = Some (RackInfo (Some k) (rackRows this (Some k))) /\
    length (rackRows this (Some k)) = 5%nat /\
    hoveredServer (fst (handleMouseMove ray this)) = hoveredServer this.
Proof.
  intros Hreach E Hu Hrc. destruct (reachable_tidy _ _ _ _ Hreach) as (Hwf & Hr & _).
  pose proof (wf_restored _ Hwf) as HwfR.
  destruct (restored_tidy this (reachable_tidy _ _ _ _ Hreach)) as [Hop _].
  assert (ER : intersectObjects (root (restored this)) ray
                 (interactiveObjects (root (restored this))) true = hit :: rest)
    by now rewrite restored_root.
  pose proof (pick_target (restored this) ray HwfR) as P. rewrite ER in P.
  cbn zeta in P.
  destruct (pick_cases _ _ _ _ HwfR ER) as (h & target0 & Dh & Dt0 & Hcase).
  cbn zeta in Dt0, Hcase.
  assert (Hh : userData h = u).
  { unfold userDataAt in Hu. rewrite <- restored_root, Dh in Hu. cbn in Hu. congruence. }
  destruct P as (target & D & [(Hrt & rack & Ht & Hin & Hidx & Htarget)
                              | (Hrt & id & data & Hid & Htr & Hget & Hdata & _)]);
    (assert (target0 = target) by congruence; subst target0).
  - destruct Hcase as [(_ & Heq & _) | (Hrt' & _)]; [| congruence].
    destruct (rack_facts rack Hin) as (k & Hk & _ & Hik & _).
    exists rack, k. rewrite <- Heq, Ht. split; [reflexivity |].
    split; [now rewrite (wf_racks _ Hwf) |].
    rewrite pointerTarget_restored, (wf_root _ HwfR), Hik in Htarget.
    split; [exact Htarget |].
    rewrite handleMouseMove_fst, (hover_rack _ _ _ _ _ ER D Hrt). cbn zeta. cbn [fst].
    rewrite Ht. cbn [Three.parent]. rewrite (wf_root _ HwfR), Hik, rackView_eq.
    assert (Hrows : rackRows (restored this) (Some k) = rackRows this (Some k)).
    { unfold rackRows.
      now rewrite restored_root, restored_servers, restored_serverStatus. }
    pose proof (rack_index_bound k rack Hk) as Hk9.
    destruct (rackRows_full this k Hwf Hk9) as (Hids & _ & _). cbn zeta in Hids.
    split; [reflexivity |]. split.
    { cbn [materials set_info set_materials].
      apply lookup_alter_opacity. exact (fmap_is_Some _ _ _ (Hop rack Hin)). }
    split; [cbn [info set_info]; now rewrite Hrows |].
    split; [now rewrite <- (length_map (fun r => snd (fst r))), Hids |].
    cbn [hoveredServer set_info set_materials set_hoveredRack].
    apply restored_hoveredServer.
  - exfalso. destruct Hcase as [(Hrt' & _) | (_ & id' & data' & _ & _ & _ & _ & Hhit)];
      [congruence |].
    destruct Hhit as [Heq | [Hun _]].
    + rewrite <- Heq, Dh in D. congruence.
    + unfold untagged in Hun. rewrite Hh, Hrc in Hun. cbn in Hun.
      now rewrite andb_false_r in Hun.
Qed.

Lemma rack_pick_hovers_rack_witness :
  let this := fst (handleMouseMove [[0; 1; 27]%nat]
                     (new_DataCenter round64 (fun _ => 1 # 2) 0)) in
  let ray := [[0; 28]; [0; 1; 28]]%nat in
  exists rack k,
    [0; 28]%nat = 0%nat :: rack /\ In (k, rack) (racks this) /\
    pointerTarget this ray = TargetRack (Some k) /\
    hoveredRack (fst (handleMouseMove ray this)) = Some rack /\
    opacity <$> materials (fst (handleMouseMove ray this)) !! [0; 28]%nat = Some (7 # 10) /\
    info (fst (handleMouseMove ray this))
      = Some (RackInfo (Some k) (rackRows this (Some k))) /\
    length (rackRows this (Some k)) = 5%nat /\
    hoveredServer (fst (handleMouseMove ray this)) = hoveredServer this.
Proof.
  intros this ray.
  apply (rack_pick_hovers_rack round64 (fun _ => 1 # 2) true this ray
           [0; 28]%nat [[0; 1; 28]%nat]
           {| ud_id := None; ud_brand := None; ud_isRackCase := true;
              ud_rackIndex := None; ud_type := None |}).
  - apply reach_move, reach_new.
  - vm_compute. reflexivity.
  - vm_compute. reflexivity.
  - reflexivity.
Defined.

End HoverClaims.
Section UpdateTrace.
Import Num Three DataCenter.

#[local] Arguments sceneRoot : simpl never.
#[local] Arguments sceneServers : simpl never.
#[local] Arguments sceneRacks : simpl never.
#[local] Arguments sceneChildren : simpl never.
#[local] Arguments deref : simpl never.
#[local] Arguments materialsOf : simpl never.
#[local] Arguments childrenAt : simpl never.
#[local] Arguments ServerStatus.getServerData : simpl never.

Lemma block_updateMesh_writes rnd (l : list (string * Ref)) this :
  (forall e, In e l -> is_Some (nth_error (childrenAt (root this) (snd e)) 0)) ->
  snd (block (map (fun e => updateMesh rnd (fst e) (snd e)) l) this)
  = flat_map (fun e =>
                match ServerStatus.getServerData (fst e) (serverStatus this) with
                | Some data => meshWrites rnd (snd e) data
                | None => []
                end) l.
Proof.
  revert this. induction l as [| [id mesh] tl IH]; intros this Hok; [reflexivity |].
  cbn [map flat_map fst snd]. rewrite block_cons. cbn [snd].
  rewrite IH.
  - rewrite (keeps_updateMesh rnd serverStatus _ _ plain_serverStatus).
    f_equal. rewrite updateMesh_eq.
    destruct (ServerStatus.getServerData id (serverStatus this)); [| reflexivity].
    cbn zeta. destruct (Hok (id, mesh) (or_introl eq_refl)) as [c Hc].
    cbn [snd] in Hc. now rewrite Hc.
  - intros e He. unfold root.
    rewrite (keeps_updateMesh rnd children _ _ plain_children).
    apply Hok. now right.
Qed.

(** X19: on every reachable state [update()] makes exactly two
    assignments for every registered server, in the order of
    registration: the heat-map uniform of the mesh, (temperature - 20) /
    30 of the record just updated, then the colour of its light; 90
    assignments in all, and nothing is rendered. *)
Theorem update_writes
    (rnd : Q -> Q) (rand : nat -> Q) (recursiveDefault : bool) (this : DataCenter) :
  reachable rnd rand recursiveDefault this ->
  let store := ServerStatus.updateServerStatus rnd rand (serverStatus this) in
  serverStatus (fst (update rnd rand this)) = store /\
  snd (update rnd rand this)
  = flat_map (fun e =>
                match ServerStatus.getServerData (fst e) store with
                | Some data =>
                    [ Write (snd e)
                        (SetUniformTemperature
                           (rnd (rnd (ServerStatus.temperature data - 20) / 30)));
                      Write (0%nat :: snd e)
                        (SetColor match ServerStatus.status data with
                                  | ServerStatus.normal => 0x00ff00%Z
                                  | ServerStatus.warning => 0xffff00%Z
                                  | ServerStatus.error => 0xff0000%Z
                                  end) ]
                | None => []
                end) (servers this) /\
  length (snd (update rnd rand this)) = 90%nat.
Proof.
  intros Hreach store. pose proof (reachable_wf _ _ _ _ Hreach) as Hwf.
  split; [apply update_serverStatus |].
  assert (Htrace : snd (update rnd rand this)
                   = flat_map (fun e =>
                        match ServerStatus.getServerData (fst e) store with
                        | Some data => meshWrites rnd (snd e) data
                        | None => []
                        end) (servers this)).
  { rewrite update_eq. cbn zeta. rewrite block_updateMesh_writes; [reflexivity |].
    intros e He. change (root (set_serverStatus ?v this)) with (root this).
    rewrite (wf_root _ Hwf). rewrite (wf_servers _ Hwf) in He.
    pose proof scene_serverCheck as C. rewrite forallb_forall in C.
    specialize (C _ He). destruct e as [id mesh]. unfold serverCheck in C.
    unfold childrenAt. cbn [snd].
    destruct (deref sceneRoot mesh) as [o |]; [| discriminate].
    repeat (apply andb_prop in C as [C ?]).
    repeat match goal with
           | H : bool_decide _ = true |- _ => apply bool_decide_eq_true in H
           end.
    assumption. }
  split.
  - rewrite Htrace. apply flat_map_ext. intros e.
    destruct (ServerStatus.getServerData (fst e) store) as [data |]; [| reflexivity].
    unfold meshWrites. now destruct (ServerStatus.status data).
  - rewrite Htrace, (wf_servers _ Hwf).
    pose proof (wf_update rnd rand this Hwf) as Hwf'.
    assert (Hall : Forall (fun e => is_Some (ServerStatus.getServerData (fst e) store))
                          sceneServers).
    { apply List.Forall_forall. intros [id mesh] He. cbn [fst].
      pose proof scene_serverCheck as C. rewrite forallb_forall in C.
      specialize (C _ He). unfold serverCheck in C.
      destruct (deref sceneRoot mesh) as [o |]; [| discriminate].
      repeat (apply andb_prop in C as [C ?]).
      match goal with H : existsb _ _ = true |- _ => apply In_existsb_string in H end.
      destruct (record_exists _ id Hwf') as [data Hdata]; [assumption |].
      rewrite update_serverStatus in Hdata. now exists data. }
    change 90%nat with (2 * length sceneServers)%nat.
    induction Hall as [| e l [data He] _ IH]; [reflexivity |].
    cbn [flat_map length]. rewrite He, List.length_app, IH. cbn. lia.
Qed.

Lemma update_writes_witness :
  let rnd := round64 in
  let rand := fun _ : nat => 1 # 2 in
  let this := new_DataCenter rnd rand 0 in
  let store := ServerStatus.updateServerStatus rnd rand (serverStatus this) in
  serverStatus (fst (update rnd rand this)) = store /\
  snd (update rnd rand this)
  = flat_map (fun e =>
                match ServerStatus.getServerData (fst e) store with
                | Some data =>
                    [ Write (snd e)
                        (SetUniformTemperature
                           (rnd (rnd (ServerStatus.temperature data - 20) / 30)));
                      Write (0%nat :: snd e)
                        (SetColor match ServerStatus.status data with
                                  | ServerStatus.normal => 0x00ff00%Z
                                  | ServerStatus.warning => 0xffff00%Z
                                  | ServerStatus.error => 0xff0000%Z
                                  end) ]
                | None => []
                end) (servers this) /\
  length (snd (update rnd rand this)) = 90%nat.
Proof.
  intros rnd rand this.
  apply (update_writes rnd rand true this).
  apply reach_new.
Defined.

End UpdateTrace.
